(** * cursor-agent-acp: a shallow embedding of the adapter core

    The development follows the TypeScript sources module by module:
    - [Js]               the JavaScript values the tools exchange;
    - [JsMap]            an ES2015 [Map] with its insertion order;
    - [ToolCallManager]  src/tools/tool-call-manager.ts;
    - [ToolRegistry]     src/tools/registry.ts;
    - [TerminalUtils]    src/tools/terminal-utils.ts ([executeWithProgress]);
    - [FilesystemTools]  src/tools/filesystem.ts (the retry loops);
    - [HttpStream]       src/transport/http-stream.ts;
    - [SessionModes]     the mode catalog of the session manager;
    - [ConnectionPool]   src/transport/connection-pool.ts;
    each followed, in the second half of the file, by a module of facts
    ([ToolCallManagerFacts], [ToolRegistryFacts], ...) holding the
    properties C1-C10 of the specification and the lemmas they rest on.

    Asynchronous functions are embedded as state transformers over the
    segment that runs between two suspension points; where a property
    depends on how several calls interleave (the connection pool), every
    segment is a step of a labelled transition system. *)

From Stdlib Require Import ZArith List Bool String Ascii Lia.
From stdpp Require Import base option list strings gmap pretty.

Local Open Scope string_scope.
Local Open Scope Z_scope.

(* ================================================================== *)
(** * JavaScript values *)
(* ================================================================== *)

Module Js.

(** The values a tool receives and returns ([Record<string, any>]).
    Numbers are restricted to integers: no claim of this development
    depends on fractional values. *)
#[warnings="-register-all"] Inductive JsVal : Type :=
| JUndefined
| JNull
| JBool (b : bool)
| JNum (z : Z)
| JStr (s : string)
| JArr (l : list JsVal)
| JObj (fields : gmap string JsVal).

(** [ToBoolean]: what [if (v)], [v || w] and [v && w] test. *)
Definition truthy (v : JsVal) : bool :=
  match v with
  | JUndefined | JNull => false
  | JBool b => b
  | JNum z => negb (z =? 0)
  | JStr s => negb (String.eqb s "")
  | JArr _ | JObj _ => true
  end.

(** [a || b] *)
Definition or (a b : JsVal) : JsVal := if truthy a then a else b.

(** [Array.isArray(v)] *)
Definition isArray (v : JsVal) : bool :=
  match v with JArr _ => true | _ => false end.

(** [typeof v === 'object'] (which also holds of [null] and arrays). *)
Definition typeofObject (v : JsVal) : bool :=
  match v with JNull | JArr _ | JObj _ => true | _ => false end.

(** [v[k]] on an own property; [undefined] when the key is absent or
    the receiver has no such property. *)
Definition get (v : JsVal) (k : string) : JsVal :=
  match v with
  | JObj m => default JUndefined (m !! k)
  | _ => JUndefined
  end.

(** [k in v] for a plain object (own properties). *)
Definition has (v : JsVal) (k : string) : bool :=
  match v with
  | JObj m => bool_decide (is_Some (m !! k))
  | _ => false
  end.

(** [xs.join(sep)] on strings. *)
Fixpoint join (sep : string) (xs : list string) : string :=
  match xs with
  | [] => ""
  | [x] => x
  | x :: rest => x +:+ sep +:+ join sep rest
  end.

(** [String(v)], as a template literal applies it. *)
Fixpoint toString (v : JsVal) : string :=
  match v with
  | JUndefined => "undefined"
  | JNull => "null"
  | JBool true => "true"
  | JBool false => "false"
  | JNum z => pretty z
  | JStr s => s
  | JArr l =>
      join "," (List.map (fun x => match x with
                                   | JUndefined | JNull => ""
                                   | _ => toString x
                                   end) l)
  | JObj _ => "[object Object]"
  end.

(** [s.includes(pat)] *)
Definition includes (s pat : string) : bool :=
  match String.index 0 pat s with Some _ => true | None => false end.


(** What a [throw] carries: an [Error] (or a subclass) with its
    message, or any other value. [acpFsError] records
    [instanceof AcpFileSystemError]. *)
Inductive Thrown : Type :=
| ThrowError (acpFsError : bool) (message : string)
| ThrowValue (v : JsVal).

(** [error instanceof Error ? error.message : String(error)] *)
Definition errorMessage (e : Thrown) : string :=
  match e with
  | ThrowError _ m => m
  | ThrowValue v => toString v
  end.

End Js.

(* ================================================================== *)
(** * ES2015 Map: keyed, iterated in insertion order *)
(* ================================================================== *)

Module JsMap.
Section Ops.
Context {K V : Type} `{EqDecision K}.

Fixpoint get (k : K) (m : list (K * V)) : option V :=
  match m with
  | [] => None
  | (k', v) :: rest => if decide (k = k') then Some v else get k rest
  end.

(** [m.set(k, v)]: an existing key keeps its position. *)
Fixpoint set (k : K) (v : V) (m : list (K * V)) : list (K * V) :=
  match m with
  | [] => [(k, v)]
  | (k', v') :: rest =>
      if decide (k = k') then (k, v) :: rest else (k', v') :: set k v rest
  end.

(** [m.delete(k)] *)
Fixpoint delete (k : K) (m : list (K * V)) : list (K * V) :=
  match m with
  | [] => []
  | (k', v') :: rest =>
      if decide (k = k') then rest else (k', v') :: delete k rest
  end.

Definition keys (m : list (K * V)) : list K := List.map fst m.
Definition values (m : list (K * V)) : list V := List.map snd m.
Definition size (m : list (K * V)) : nat := length m.
End Ops.
End JsMap.

(* ================================================================== *)
(** * src/tools/tool-call-manager.ts *)
(* ================================================================== *)

Module ToolCallManager.
Import Js.

Inductive ToolCallStatus : Type := pending | in_progress | completed | failed.

Inductive ToolKind : Type :=
| kind_read | kind_edit | kind_delete | kind_move | kind_search
| kind_execute | kind_think | kind_fetch | kind_switch_mode | kind_other.

(** [ToolCallContent]: a text block
    [{type:'content', content:{type:'text', text}}], an embedded terminal
    [{type:'terminal', terminalId}], or a diff block. *)
Inductive ToolCallContent : Type :=
| ContentText (text : string)
| ContentTerminal (terminalId : string)
| ContentDiff (diff : JsVal).

Record ToolCallLocation : Type := { path : JsVal }.

(** [ToolCallUpdate]; [None] is a field that is absent. *)
Record ToolCallUpdate : Type := {
  toolCallId : string;
  title : option string;
  kind : option ToolKind;
  status : option ToolCallStatus;
  rawInput : option JsVal;
  locations : option (list ToolCallLocation);
  content : option (list ToolCallContent);
  rawOutput : option JsVal;
}.

Inductive SessionUpdateTag : Type := tool_call | tool_call_update.

(** A [session/update] notification:
    [{jsonrpc:'2.0', method, params:{sessionId, update:{sessionUpdate, ...}}}]. *)
Record AcpNotification : Type := {
  method : string;
  params_sessionId : string;
  sessionUpdate : SessionUpdateTag;
  update_fields : ToolCallUpdate;
}.

Record ToolCallInfo : Type := {
  info_toolCallId : string;
  info_sessionId : string;
  info_toolName : string;
  info_status : ToolCallStatus;
  startTime : Z;
  endTime : option Z;
  update : ToolCallUpdate;
}.

Inductive PermissionOptionKind : Type :=
| allow_once | allow_always | reject_once | reject_always.

Record PermissionOption : Type := {
  optionId : string;
  option_name : string;
  option_kind : PermissionOptionKind;
}.

Inductive PermissionOutcome : Type :=
| selected (optionId : string)
| cancelled.

Record RequestPermissionParams : Type := {
  rp_sessionId : string;
  rp_toolCall : ToolCallUpdate;
  rp_options : list PermissionOption;
}.

(** How an awaited call ends: with a value or with a [throw]. *)
Inductive Completion (A : Type) : Type :=
| Normal (a : A)
| Abrupt (e : Thrown).
Arguments Normal {A} a.
Arguments Abrupt {A} e.

(** [try { body } catch (error) { handler }] *)
Definition tryCatch {A} (body : Completion A) (handler : Thrown -> Completion A)
  : Completion A :=
  match body with
  | Normal a => Normal a
  | Abrupt e => handler e
  end.

Definition andThen {A B} (c : Completion A) (k : A -> Completion B) : Completion B :=
  match c with
  | Normal a => k a
  | Abrupt e => Abrupt e
  end.

(** The [requestPermission] callback: what the promise settles to. A
    resolved value that is falsy ([null], [undefined]) is [None]. *)
Definition PermissionHandler : Type :=
  RequestPermissionParams -> Completion (option PermissionOutcome).

(** What the outside can see, in order: a notification handed to
    [sendNotification], and (recorded by the registry) a call of a tool's
    handler with the parameters it got. *)
Inductive Event : Type :=
| Notify (n : AcpNotification)
| Invoke (toolName : string) (params : JsVal).

(** The manager's fields, the clock [Date.now()] reads, the timers
    [setTimeout] has armed (due time and the id to delete) and the trace. *)
Record State : Type := {
  activeToolCalls : list (string * ToolCallInfo);
  toolCallCounter : nat;
  requestPermission : option PermissionHandler;
  now : Z;
  timers : list (Z * string);
  trace : list Event;
}.

Definition M (A : Type) : Type := State -> A * State.

#[export] Instance M_ret : MRet M := fun A (a : A) s => (a, s).
#[export] Instance M_bind : MBind M :=
  fun A B (f : A -> M B) (m : M A) s => let '(a, s1) := m s in f a s1.

Definition getState : M State := fun s => (s, s).

Definition setActiveToolCalls (m : list (string * ToolCallInfo)) : M unit :=
  fun s => (tt, {| activeToolCalls := m;
                   toolCallCounter := toolCallCounter s;
                   requestPermission := requestPermission s;
                   now := now s; timers := timers s; trace := trace s |}).

Definition setCounter (c : nat) : M unit :=
  fun s => (tt, {| activeToolCalls := activeToolCalls s;
                   toolCallCounter := c;
                   requestPermission := requestPermission s;
                   now := now s; timers := timers s; trace := trace s |}).

(** [this.sendNotification(n)] *)
Definition sendNotification (n : AcpNotification) : M unit :=
  fun s => (tt, {| activeToolCalls := activeToolCalls s;
                   toolCallCounter := toolCallCounter s;
                   requestPermission := requestPermission s;
                   now := now s; timers := timers s;
                   trace := trace s ++ [Notify n] |}).

(** [setTimeout(() => this.activeToolCalls.delete(id), ms)] *)
Definition setTimeoutDelete (id : string) (ms : Z) : M unit :=
  fun s => (tt, {| activeToolCalls := activeToolCalls s;
                   toolCallCounter := toolCallCounter s;
                   requestPermission := requestPermission s;
                   now := now s;
                   timers := timers s ++ [(now s + ms, id)];
                   trace := trace s |}).

(** [generateToolCallId] *)
Definition generateToolCallId (toolName : string) : M string :=
  s ← getState;
  let c := S (toolCallCounter s) in
  setCounter c ;;
  mret ("tool_" +:+ toolName +:+ "_" +:+ pretty (now s) +:+ "_" +:+ pretty c).

Record ReportOptions : Type := {
  ro_title : string;
  ro_kind : ToolKind;
  ro_status : option ToolCallStatus;
  ro_rawInput : JsVal;
  ro_locations : option (list ToolCallLocation);
}.

(** [reportToolCall] *)
Definition reportToolCall (sessionId toolName : string) (options : ReportOptions)
  : M string :=
  id ← generateToolCallId toolName;
  let st := default pending (ro_status options) in
  let upd := {| toolCallId := id;
                title := Some (ro_title options);
                kind := Some (ro_kind options);
                status := Some st;
                rawInput := if truthy (ro_rawInput options)
                            then Some (ro_rawInput options) else None;
                locations := ro_locations options;
                content := None;
                rawOutput := None |} in
  s ← getState;
  let info := {| info_toolCallId := id;
                 info_sessionId := sessionId;
                 info_toolName := toolName;
                 info_status := st;
                 startTime := now s;
                 endTime := None;
                 update := upd |} in
  setActiveToolCalls (JsMap.set id info (activeToolCalls s)) ;;
  sendNotification {| method := "session/update";
                      params_sessionId := sessionId;
                      sessionUpdate := tool_call;
                      update_fields := upd |} ;;
  mret id.

Record Updates : Type := {
  up_title : option string;
  up_status : option ToolCallStatus;
  up_content : option (list ToolCallContent);
  up_locations : option (list ToolCallLocation);
  up_rawOutput : option JsVal;
}.

Definition isTerminal (st : ToolCallStatus) : bool :=
  match st with completed | failed => true | _ => false end.

(** [a ?? b] for a field that may be absent: the spread
    [...(x !== undefined && { f: x })] over the stored value. *)
Definition override {A} (new old : option A) : option A :=
  match new with Some _ => new | None => old end.

(** [updateToolCall] *)
Definition updateToolCall (sessionId id : string) (updates : Updates) : M unit :=
  s ← getState;
  match JsMap.get id (activeToolCalls s) with
  | None => mret tt
  | Some info =>
      let st := default (info_status info) (up_status updates) in
      let ended := match up_status updates with
                   | Some st' => if isTerminal st' then Some (now s) else endTime info
                   | None => endTime info
                   end in
      let old := update info in
      let merged := {| toolCallId := toolCallId old;
                       title := override (up_title updates) (title old);
                       kind := kind old;
                       status := override (up_status updates) (status old);
                       rawInput := rawInput old;
                       locations := override (up_locations updates) (locations old);
                       content := override (up_content updates) (content old);
                       rawOutput := override (up_rawOutput updates) (rawOutput old) |} in
      let info' := {| info_toolCallId := info_toolCallId info;
                      info_sessionId := info_sessionId info;
                      info_toolName := info_toolName info;
                      info_status := st;
                      startTime := startTime info;
                      endTime := ended;
                      update := merged |} in
      setActiveToolCalls (JsMap.set id info' (activeToolCalls s)) ;;
      sendNotification {| method := "session/update";
                          params_sessionId := sessionId;
                          sessionUpdate := tool_call_update;
                          update_fields :=
                            {| toolCallId := id;
                               title := up_title updates;
                               kind := None;
                               status := up_status updates;
                               rawInput := None;
                               locations := up_locations updates;
                               content := up_content updates;
                               rawOutput := up_rawOutput updates |} |}
  end.

Record CompleteOptions : Type := {
  co_title : option string;
  co_content : option (list ToolCallContent);
  co_rawOutput : option JsVal;
}.

(** [completeToolCall]: [updateToolCall({...options, status:'completed'})],
    then the entry is scheduled for deletion after 30 seconds. *)
Definition completeToolCall (sessionId id : string) (options : CompleteOptions)
  : M unit :=
  updateToolCall sessionId id
    {| up_title := co_title options;
       up_status := Some completed;
       up_content := co_content options;
       up_locations := None;
       up_rawOutput := co_rawOutput options |} ;;
  setTimeoutDelete id 30000.

Record FailOptions : Type := {
  fo_title : option string;
  fo_error : string;
  fo_rawOutput : option JsVal;
}.

(** [options.title || 'Tool execution failed'] *)
Definition failTitle (t : option string) : string :=
  match t with
  | Some s => if String.eqb s "" then "Tool execution failed" else s
  | None => "Tool execution failed"
  end.

(** [failToolCall] *)
Definition failToolCall (sessionId id : string) (options : FailOptions) : M unit :=
  updateToolCall sessionId id
    {| up_title := Some (failTitle (fo_title options));
       up_status := Some failed;
       up_content := Some [ContentText ("Error: " +:+ fo_error options)];
       up_locations := None;
       up_rawOutput := fo_rawOutput options |} ;;
  setTimeoutDelete id 30000.

(** [getToolCallInfo] *)
Definition getToolCallInfo (id : string) (s : State) : option ToolCallInfo :=
  JsMap.get id (activeToolCalls s).

(** [getSessionToolCalls] *)
Definition getSessionToolCalls (sessionId : string) (s : State) : list ToolCallInfo :=
  List.filter (fun tc => String.eqb (info_sessionId tc) sessionId)
              (JsMap.values (activeToolCalls s)).

Definition nonTerminal (tc : ToolCallInfo) : bool :=
  match info_status tc with pending | in_progress => true | _ => false end.

(** The body of the [for (const toolCall of toolCalls)] loop of
    [cancelSessionToolCalls]. The loop reads [toolCall.status] from the
    object the map holds; no iteration changes the entry of a later one,
    so the snapshot carries the same status. *)
Fixpoint cancelLoop (sessionId : string) (toolCalls : list ToolCallInfo) : M unit :=
  match toolCalls with
  | [] => mret tt
  | toolCall :: rest =>
      (if nonTerminal toolCall
       then updateToolCall sessionId (info_toolCallId toolCall)
              {| up_title := Some "Cancelled by user";
                 up_status := Some failed;
                 up_content := None;
                 up_locations := None;
                 up_rawOutput := None |}
       else mret tt) ;;
      s ← getState;
      setActiveToolCalls (JsMap.delete (info_toolCallId toolCall) (activeToolCalls s)) ;;
      cancelLoop sessionId rest
  end.

(** [cancelSessionToolCalls] *)
Definition cancelSessionToolCalls (sessionId : string) : M unit :=
  s ← getState;
  cancelLoop sessionId (getSessionToolCalls sessionId s).

Definition rejectOnce : PermissionOutcome := selected "reject-once".
Definition allowOnce : PermissionOutcome := selected "allow-once".

(** [requestToolPermission]. It sends nothing and changes no field, so it
    is a function of the state. *)
Definition requestToolPermission (s : State) (sessionId id : string)
    (options : list PermissionOption) : Completion PermissionOutcome :=
  match requestPermission s with
  | None => Normal allowOnce
  | Some handler =>
      match JsMap.get id (activeToolCalls s) with
      | None => Normal rejectOnce
      | Some toolCallInfo =>
          tryCatch
            (andThen (handler {| rp_sessionId := sessionId;
                                 rp_toolCall := update toolCallInfo;
                                 rp_options := options |})
               (fun outcome =>
                  match outcome with
                  | None => Normal rejectOnce
                  | Some o => Normal o
                  end))
            (fun _ => Normal rejectOnce)
      end
  end.

(** Modelled from the spec: [ToolCallManager.convertDiffContent], which
    the registry calls and this file of the source does not define;
    "converts each entry into an ACP diff content block". *)
Definition convertDiffContent (diffs : list JsVal) : list ToolCallContent :=
  List.map ContentDiff diffs.

(** Modelled from the spec: [ToolCallManager.createTerminalContent], which
    [executeWithProgress] calls and this file of the source does not
    define; the content is [[{type:"terminal", terminalId}]]. *)
Definition createTerminalContent (terminalId : string) : list ToolCallContent :=
  [ContentTerminal terminalId].

(** [cleanup] *)
Definition cleanup : M unit := setActiveToolCalls [].

(** The callback of the 30-second timers:
    [this.activeToolCalls.delete(toolCallId)]. *)
Definition timerFires (id : string) : M unit :=
  s ← getState;
  setActiveToolCalls (JsMap.delete id (activeToolCalls s)).

(** Time passes. *)
Definition tick (ms : Z) : M unit :=
  fun s => (tt, {| activeToolCalls := activeToolCalls s;
                   toolCallCounter := toolCallCounter s;
                   requestPermission := requestPermission s;
                   now := now s + ms; timers := timers s; trace := trace s |}).

(** A manager as the constructor leaves it. *)
Definition initial (handler : option PermissionHandler) (t0 : Z) : State :=
  {| activeToolCalls := []; toolCallCounter := 0%nat;
     requestPermission := handler; now := t0; timers := []; trace := [] |}.

(** The notifications of a trace, in order. *)
Definition notifications (tr : list Event) : list AcpNotification :=
  omap (fun e => match e with Notify n => Some n | Invoke _ _ => None end) tr.

(** The notifications of a trace about one tool call. *)
Definition notificationsFor (id : string) (tr : list Event) : list AcpNotification :=
  List.filter (fun n => String.eqb (toolCallId (update_fields n)) id)
              (notifications tr).

(** [Record<ToolCallStatus, number>] *)
Record StatusCounts : Type := {
  count_pending : nat;
  count_in_progress : nat;
  count_completed : nat;
  count_failed : nat;
}.

(** [statusCounts[status]++] *)
Definition countStatus (c : StatusCounts) (st : ToolCallStatus) : StatusCounts :=
  match st with
  | pending =>
      {| count_pending := S (count_pending c);
         count_in_progress := count_in_progress c;
         count_completed := count_completed c;
         count_failed := count_failed c |}
  | in_progress =>
      {| count_pending := count_pending c;
         count_in_progress := S (count_in_progress c);
         count_completed := count_completed c;
         count_failed := count_failed c |}
  | completed =>
      {| count_pending := count_pending c;
         count_in_progress := count_in_progress c;
         count_completed := S (count_completed c);
         count_failed := count_failed c |}
  | failed =>
      {| count_pending := count_pending c;
         count_in_progress := count_in_progress c;
         count_completed := count_completed c;
         count_failed := S (count_failed c) |}
  end.

Record ToolCallMetrics : Type := {
  metrics_activeToolCalls : nat;
  statusCounts : StatusCounts;
  totalToolCalls : nat;
}.

(** [getMetrics] *)
Definition getMetrics (s : State) : ToolCallMetrics :=
  {| metrics_activeToolCalls := JsMap.size (activeToolCalls s);
     statusCounts :=
       fold_left (fun c toolCall => countStatus c (info_status toolCall))
                 (JsMap.values (activeToolCalls s))
                 {| count_pending := 0; count_in_progress := 0;
                    count_completed := 0; count_failed := 0 |};
     totalToolCalls := toolCallCounter s |}.

End ToolCallManager.

(* ================================================================== *)
(** * src/tools/registry.ts *)
(* ================================================================== *)

Module ToolRegistry.
Import Js ToolCallManager.

(** [ToolResult] *)
Record ToolResult : Type := {
  success : bool;
  result : JsVal;
  error : option string;
  metadata : option (gmap string JsVal);
}.

(** What awaiting [tool.handler(params)] gives, and the milliseconds that
    passed meanwhile. *)
Record HandlerOutcome : Type := {
  elapsed : Z;
  settled : Completion ToolResult;
}.

(** [Tool]: [required] is [tool.parameters.required || []]. *)
Record Tool : Type := {
  tool_name : string;
  required : list string;
  handler : JsVal -> HandlerOutcome;
}.

Record ToolCall : Type := {
  call_id : string;
  name : string;
  parameters : JsVal;
}.

(** The registry's fields the dispatcher reads: the flat tool index and
    whether [setToolCallManager] has been called. *)
Record Registry : Type := {
  tools : gmap string Tool;
  toolCallManager : bool;
}.

(** The [for (const param of required)] loop of [validateToolParameters]. *)
Fixpoint validateRequired (required : list string) (parameters : JsVal)
  : option string :=
  match required with
  | [] => None
  | param :: rest =>
      if negb (has parameters param)
      then Some ("Missing required parameter: " +:+ param)
      else match get parameters param with
           | JNull | JUndefined =>
               Some ("Parameter " +:+ param +:+ " cannot be null or undefined")
           | _ => validateRequired rest parameters
           end
  end.

(** [validateToolParameters]: [None] is the [null] of "no error". *)
Definition validateToolParameters (tool : Tool) (parameters : JsVal)
  : option string :=
  match parameters with
  | JNull | JUndefined => Some "Parameters are required and must be an object"
  | _ =>
      if negb (typeofObject parameters) || isArray parameters
      then Some "Parameters must be an object"
      else validateRequired (required tool) parameters
  end.

(** [extractLocations] *)
Definition extractLocations (parameters : JsVal) : list ToolCallLocation :=
  let first :=
    if truthy (get parameters "path")
    then [{| path := get parameters "path" |}]
    else if truthy (get parameters "sourcePath")
         then [{| path := get parameters "sourcePath" |}]
         else [] in
  let second :=
    if truthy (get parameters "destinationPath")
       || truthy (get parameters "destination")
    then [{| path := or (get parameters "destinationPath")
                        (get parameters "destination") |}]
    else [] in
  let third :=
    match get parameters "files" with
    | JArr files => List.map (fun file => {| path := file |}) files
    | _ => []
    end in
  first ++ second ++ third.

(** The [kindMap] table of [getToolKind], in the order it is written. *)
Definition kindMap : list (string * ToolKind) :=
  [ ("read_file", kind_read); ("copy_file", kind_read);
    ("list_directory", kind_read); ("get_file_info", kind_read);
    ("write_file", kind_edit); ("append_file", kind_edit);
    ("create_file", kind_edit); ("patch_file", kind_edit);
    ("delete_file", kind_delete); ("remove_file", kind_delete);
    ("remove_directory", kind_delete);
    ("move_file", kind_move); ("rename_file", kind_move);
    ("search_codebase", kind_search); ("search_files", kind_search);
    ("grep", kind_search); ("find_files", kind_search);
    ("find_references", kind_search); ("find_definitions", kind_search);
    ("run_tests", kind_execute); ("run_command", kind_execute);
    ("execute_command", kind_execute); ("run_script", kind_execute);
    ("shell", kind_execute);
    ("fetch_url", kind_fetch); ("http_request", kind_fetch);
    ("download_file", kind_fetch); ("api_request", kind_fetch);
    ("web_search", kind_fetch);
    ("think", kind_think); ("reason", kind_think); ("plan", kind_think);
    ("analyze", kind_think);
    ("switch_mode", kind_switch_mode); ("set_mode", kind_switch_mode);
    ("change_mode", kind_switch_mode);
    ("analyze_code", kind_read); ("apply_code_changes", kind_edit);
    ("get_project_info", kind_read); ("explain_code", kind_think) ].

(** [getToolKind]: [kindMap[toolName] || 'other'] *)
Definition getToolKind (toolName : string) : ToolKind :=
  default kind_other (JsMap.get toolName kindMap).

(** [`${a || b}`] with a literal default. *)
Definition orElse (v : JsVal) (dflt : string) : string :=
  toString (or v (JStr dflt)).

Definition oneOf (names : list string) (toolName : string) : bool :=
  existsb (String.eqb toolName) names.

(** [getToolTitle]: the [switch] over the tool name. *)
Definition getToolTitle (toolName : string) (p : JsVal) : string :=
  if oneOf ["read_file"] toolName then
    "Reading file: " +:+ orElse (get p "path") "unknown"
  else if oneOf ["copy_file"] toolName then
    "Copying file: " +:+ orElse (get p "source") "unknown"
  else if oneOf ["list_directory"] toolName then
    "Listing directory: " +:+ orElse (get p "path") "unknown"
  else if oneOf ["get_file_info"] toolName then
    "Getting file info: " +:+ orElse (get p "path") "unknown"
  else if oneOf ["write_file"] toolName then
    "Writing file: " +:+ orElse (get p "path") "unknown"
  else if oneOf ["append_file"] toolName then
    "Appending to file: " +:+ orElse (get p "path") "unknown"
  else if oneOf ["create_file"] toolName then
    "Creating file: " +:+ orElse (get p "path") "unknown"
  else if oneOf ["patch_file"] toolName then
    "Patching file: " +:+ orElse (get p "path") "unknown"
  else if oneOf ["apply_code_changes"] toolName then
    "Applying "
      +:+ pretty (match get p "changes" with
                  | JArr l => length l
                  | _ => 0%nat
                  end)
      +:+ " code changes"
  else if oneOf ["delete_file"; "remove_file"] toolName then
    "Deleting file: " +:+ orElse (get p "path") "unknown"
  else if oneOf ["remove_directory"] toolName then
    "Removing directory: " +:+ orElse (get p "path") "unknown"
  else if oneOf ["move_file"; "rename_file"] toolName then
    "Moving file: "
      +:+ toString (or (get p "source") (or (get p "from") (JStr "unknown")))
      +:+ " → "
      +:+ toString (or (get p "destination") (or (get p "to") (JStr "unknown")))
  else if oneOf ["search_codebase"] toolName then
    "Searching codebase: " +:+ orElse (get p "query") "unknown"
  else if oneOf ["search_files"; "grep"] toolName then
    "Searching for: "
      +:+ toString (or (get p "pattern") (or (get p "query") (JStr "unknown")))
  else if oneOf ["find_files"] toolName then
    "Finding files: " +:+ orElse (get p "pattern") "unknown"
  else if oneOf ["find_references"] toolName then
    "Finding references: " +:+ orElse (get p "symbol") "unknown"
  else if oneOf ["find_definitions"] toolName then
    "Finding definitions: " +:+ orElse (get p "symbol") "unknown"
  else if oneOf ["run_tests"] toolName then
    "Running tests: " +:+ orElse (get p "test_pattern") "all"
  else if oneOf ["run_command"; "execute_command"; "shell"] toolName then
    "Running: " +:+ orElse (get p "command") "unknown"
  else if oneOf ["run_script"] toolName then
    "Running script: " +:+ orElse (get p "script") "unknown"
  else if oneOf ["fetch_url"; "http_request"] toolName then
    "Fetching: " +:+ orElse (get p "url") "unknown"
  else if oneOf ["download_file"] toolName then
    "Downloading: " +:+ orElse (get p "url") "unknown"
  else if oneOf ["api_request"] toolName then
    "API request: "
      +:+ toString (or (get p "endpoint") (or (get p "url") (JStr "unknown")))
  else if oneOf ["web_search"] toolName then
    "Web search: " +:+ orElse (get p "query") "unknown"
  else if oneOf ["think"; "reason"] toolName then
    "Thinking: "
      +:+ toString (or (get p "topic") (or (get p "question") (JStr "reasoning")))
  else if oneOf ["plan"] toolName then
    "Planning: " +:+ orElse (get p "goal") "next steps"
  else if oneOf ["analyze"; "analyze_code"] toolName then
    "Analyzing: "
      +:+ toString (or (get p "file_path") (or (get p "target") (JStr "unknown")))
  else if oneOf ["explain_code"] toolName then
    "Explaining code: " +:+ orElse (get p "file_path") "unknown"
  else if oneOf ["switch_mode"; "set_mode"; "change_mode"] toolName then
    "Switching to mode: "
      +:+ toString (or (get p "mode") (or (get p "mode_id") (JStr "unknown")))
  else if oneOf ["get_project_info"] toolName then
    "Getting project information"
  else "Executing tool: " +:+ toolName.

(** [sessionId && this.toolCallManager] *)
Definition shouldReportToolCalls (reg : Registry) (sessionId : option string) : bool :=
  match sessionId with
  | Some sid => negb (String.eqb sid "") && toolCallManager reg
  | None => false
  end.

(** [sessionId ? {...parameters, _sessionId: sessionId} : parameters].
    The spread of a value that is no plain object keeps no key. *)
Definition paramsWithSession (parameters : JsVal) (sessionId : option string) : JsVal :=
  match sessionId with
  | Some sid =>
      if String.eqb sid "" then parameters
      else JObj (<["_sessionId" := JStr sid]>
                   (match parameters with JObj m => m | _ => ∅ end))
  | None => parameters
  end.

(** The [metadata] every result carries:
    [{...base, toolName, duration, executedAt, ...(toolCallId && {toolCallId})}]. *)
Definition withMetadata (base : option (gmap string JsVal)) (toolName : string)
    (duration executedAt : Z) (toolCallId : option string) : gmap string JsVal :=
  let m := <["executedAt" := JNum executedAt]>
             (<["duration" := JNum duration]>
                (<["toolName" := JStr toolName]> (default ∅ base))) in
  match toolCallId with
  | Some id => if String.eqb id "" then m else <["toolCallId" := JStr id]> m
  | None => m
  end.

(** [await tool.handler(params)]: the call is seen, time passes, and the
    promise settles. *)
Definition callHandler (tool : Tool) (toolName : string) (params : JsVal)
  : M (Completion ToolResult) :=
  fun s =>
    let out := handler tool params in
    (settled out,
     {| activeToolCalls := activeToolCalls s;
        toolCallCounter := toolCallCounter s;
        requestPermission := requestPermission s;
        now := now s + elapsed out;
        timers := timers s;
        trace := trace s ++ [Invoke toolName params] |}).

(** [v !== undefined ? v : absent] *)
Definition defined (v : JsVal) : option JsVal :=
  match v with JUndefined => None | _ => Some v end.

(** [result.error || 'Unknown error'] *)
Definition errorOr (e : option string) (dflt : string) : string :=
  match e with
  | Some s => if String.eqb s "" then dflt else s
  | None => dflt
  end.

Definition reportOptions (toolCall : ToolCall) (st : ToolCallStatus) : ReportOptions :=
  let locs := extractLocations (parameters toolCall) in
  {| ro_title := getToolTitle (name toolCall) (parameters toolCall);
     ro_kind := getToolKind (name toolCall);
     ro_status := Some st;
     ro_rawInput := parameters toolCall;
     ro_locations := match locs with [] => None | _ => Some locs end |}.

(** Whether [toolCallId] is truthy: assigned, and not the empty string. *)
Definition truthyId (toolCallId : option string) : bool :=
  match toolCallId with
  | Some id => negb (String.eqb id "")
  | None => false
  end.

(** The [catch (error)] block of [executeToolWithSession]. *)
Definition onCatch (toolCall : ToolCall) (sessionId : option string)
    (shouldReport : bool) (startTime : Z) (toolCallId : option string)
    (e : Thrown) : M ToolResult :=
  s ← getState;
  let duration := now s - startTime in
  let errorMessage := errorMessage e in
  let sid := default "" sessionId in
  id ← (if shouldReport && truthyId toolCallId then
          failToolCall sid (default "" toolCallId)
            {| fo_title := None; fo_error := errorMessage;
               fo_rawOutput := None |} ;;
          mret toolCallId
        else if shouldReport && negb (truthyId toolCallId) then
          id ← reportToolCall sid (name toolCall) (reportOptions toolCall failed);
          failToolCall sid id
            {| fo_title := None; fo_error := errorMessage;
               fo_rawOutput := None |} ;;
          mret (Some id)
        else mret toolCallId);
  s' ← getState;
  mret {| success := false;
          result := JUndefined;
          error := Some errorMessage;
          metadata := Some (withMetadata None (name toolCall) duration (now s') id) |}.

(** [executeToolWithSession] *)
Definition executeToolWithSession (reg : Registry) (toolCall : ToolCall)
    (sessionId : option string) : M ToolResult :=
  s0 ← getState;
  let startTime := now s0 in
  let shouldReport := shouldReportToolCalls reg sessionId in
  let sid := default "" sessionId in
  match tools reg !! name toolCall with
  | None =>
      mret {| success := false;
              result := JUndefined;
              error := Some ("Tool not found: " +:+ name toolCall);
              metadata := Some (withMetadata None (name toolCall)
                                  (now s0 - startTime) (now s0) None) |}
  | Some tool =>
      match validateToolParameters tool (parameters toolCall) with
      | Some validationError =>
          mret {| success := false;
                  result := JUndefined;
                  error := Some ("Invalid parameters for " +:+ name toolCall
                                   +:+ ": " +:+ validationError);
                  metadata := Some (withMetadata None (name toolCall)
                                      (now s0 - startTime) (now s0) None) |}
      | None =>
          toolCallId ← (if shouldReport
                        then id ← reportToolCall sid (name toolCall)
                                    (reportOptions toolCall pending);
                             updateToolCall sid id
                               {| up_title := None; up_status := Some in_progress;
                                  up_content := None; up_locations := None;
                                  up_rawOutput := None |} ;;
                             mret (Some id)
                        else mret None);
          out ← callHandler tool (name toolCall)
                  (paramsWithSession (parameters toolCall) sessionId);
          match out with
          | Abrupt e => onCatch toolCall sessionId shouldReport startTime toolCallId e
          | Normal res =>
              s1 ← getState;
              let duration := now s1 - startTime in
              (if shouldReport && truthyId toolCallId then
                 let id := default "" toolCallId in
                 if success res then
                   completeToolCall sid id
                     {| co_title := None;
                        co_content :=
                          match metadata res with
                          | Some m =>
                              match m !! "diffs" with
                              | Some (JArr diffs) => Some (convertDiffContent diffs)
                              | _ => None
                              end
                          | None => None
                          end;
                        co_rawOutput := defined (result res) |}
                 else
                   failToolCall sid id
                     {| fo_title := None;
                        fo_error := errorOr (error res) "Unknown error";
                        fo_rawOutput := defined (result res) |}
               else mret tt) ;;
              s2 ← getState;
              mret {| success := success res;
                      result := result res;
                      error := error res;
                      metadata := Some (withMetadata (metadata res) (name toolCall)
                                          duration (now s2) toolCallId) |}
          end
      end
  end.

(** [executeTool]: the legacy entry point, without a session. *)
Definition executeTool (reg : Registry) (toolCall : ToolCall) : M ToolResult :=
  executeToolWithSession reg toolCall None.

(** [ToolProvider], as the registry uses it: [provider.name] and what
    [provider.getTools()] answers (the same list at each call: the
    providers of this repository compute it from fields set in their
    constructor). *)
Record ToolProvider : Type := {
  provider_name : string;
  getTools : list Tool;
}.

(** The registry with its [providers] map. *)
Record Providers : Type := {
  providers : list (string * ToolProvider);
  registry : Registry;
}.

Definition withTools (reg : Registry) (m : gmap string Tool) : Registry :=
  {| tools := m; toolCallManager := toolCallManager reg |}.

(** [registerProvider] *)
Definition registerProvider (provider : ToolProvider) (r : Providers) : Providers :=
  {| providers := JsMap.set (provider_name provider) provider (providers r);
     registry :=
       withTools (registry r)
         (fold_left (fun m tool => <[tool_name tool := tool]> m)
                    (getTools provider) (tools (registry r))) |}.

(** [unregisterProvider] *)
Definition unregisterProvider (providerName : string) (r : Providers) : Providers :=
  match JsMap.get providerName (providers r) with
  | None => r
  | Some provider =>
      {| providers := JsMap.delete providerName (providers r);
         registry :=
           withTools (registry r)
             (fold_left (fun m tool => base.delete (tool_name tool) m)
                        (getTools provider) (tools (registry r))) |}
  end.

(** [getTool] *)
Definition getTool (toolName : string) (r : Providers) : option Tool :=
  tools (registry r) !! toolName.

(** [hasTool] *)
Definition hasTool (toolName : string) (r : Providers) : bool :=
  bool_decide (is_Some (tools (registry r) !! toolName)).

(** [getProviders], by name. *)
Definition getProviders (r : Providers) : list string := JsMap.keys (providers r).

End ToolRegistry.

(* ================================================================== *)
(** * src/tools/terminal-utils.ts: executeWithProgress *)
(* ================================================================== *)

Module TerminalUtils.
Import Js ToolCallManager.

Record WaitForTerminalExitResponse : Type := {
  exitCode : option Z;
  signal : option string;
}.

Record TerminalOutputResponse : Type := {
  output : string;
  truncated : bool;
}.

(** The handle [createTerminal] resolves to, as the replies it gives:
    [waitForExit()], [currentOutput()] after the exit, and
    [currentOutput()] when the [catch] block asks again. Releasing it
    touches no state of the tool-call manager. *)
Record Terminal : Type := {
  term_id : string;
  waitForExit : Completion WaitForTerminalExitResponse;
  currentOutput : Completion TerminalOutputResponse;
  currentOutputOnError : Completion TerminalOutputResponse;
}.

Record ExecuteWithProgressOptions : Type := {
  opt_title : option string;
  opt_cwd : option string;
  opt_outputByteLimit : option Z;
  opt_pollIntervalMs : option Z;
}.

Record SimpleCommandResult : Type := {
  res_output : string;
  res_exitCode : option Z;
  res_signal : option string;
  res_truncated : bool;
}.

Definition newline : string := String (Ascii.ascii_of_nat 10) EmptyString.

(** [`$ ${command} ${args.join(' ')}`] *)
Definition defaultTitle (command : string) (args : list string) : string :=
  "$ " +:+ command +:+ " " +:+ join " " args.

(** [`${exitStatus.exitCode ?? 'unknown'}`] *)
Definition exitCodeText (c : option Z) : string :=
  match c with Some z => pretty z | None => "unknown" end.

Definition optStr (o : option string) : JsVal :=
  match o with Some s => JStr s | None => JUndefined end.

Definition optNum (o : option Z) : JsVal :=
  match o with Some z => JNum z | None => JUndefined end.

(** The [try] block of [executeWithProgress] after the report: the
    terminal is embedded in the tool call, the exit awaited, the final
    output fetched and the tool call completed or failed. *)
Definition progressAwait (sessionId toolCallId : string) (terminal : Terminal)
  : M (Completion SimpleCommandResult) :=
  let terminalContent := createTerminalContent (term_id terminal) in
  updateToolCall sessionId toolCallId
    {| up_title := None; up_status := None;
       up_content := Some terminalContent;
       up_locations := None; up_rawOutput := None |} ;;
  match waitForExit terminal with
  | Abrupt e => mret (Abrupt e)
  | Normal exitStatus =>
      match currentOutput terminal with
      | Abrupt e => mret (Abrupt e)
      | Normal outputResponse =>
          let len := Z.of_nat (String.length (output outputResponse)) in
          (if bool_decide (exitCode exitStatus = Some 0) then
             completeToolCall sessionId toolCallId
               {| co_title := Some "✓ Command completed successfully";
                  co_content := Some terminalContent;
                  co_rawOutput :=
                    Some (JObj (<["truncated" := JBool (truncated outputResponse)]>
                                  (<["outputLength" := JNum len]>
                                     {["exitCode" := optNum (exitCode exitStatus)]}))) |}
           else
             failToolCall sessionId toolCallId
               {| fo_title := Some ("✗ Command failed (exit code "
                                      +:+ exitCodeText (exitCode exitStatus) +:+ ")");
                  fo_error :=
                    "Command exited with code "
                      +:+ exitCodeText (exitCode exitStatus)
                      +:+ match signal exitStatus with
                          | Some sg => if String.eqb sg "" then ""
                                       else " (signal: " +:+ sg +:+ ")"
                          | None => ""
                          end;
                  fo_rawOutput :=
                    Some (JObj (<["truncated" := JBool (truncated outputResponse)]>
                                  (<["outputLength" := JNum len]>
                                     (<["signal" := optStr (signal exitStatus)]>
                                        {["exitCode" := optNum (exitCode exitStatus)]})))) |}) ;;
          mret (Normal {| res_output := output outputResponse;
                          res_exitCode := exitCode exitStatus;
                          res_signal := signal exitStatus;
                          res_truncated := truncated outputResponse |})
      end
  end.

(** The [try] block of [executeWithProgress], once the terminal exists. *)
Definition progressBody (sessionId command : string) (args : list string)
    (options : ExecuteWithProgressOptions) (terminal : Terminal)
  : M (Completion SimpleCommandResult) :=
  toolCallId ← reportToolCall sessionId "execute_command"
    {| ro_title := default (defaultTitle command args) (opt_title options);
       ro_kind := kind_edit;
       ro_status := Some in_progress;
       ro_rawInput :=
         JObj (<["cwd" := optStr (opt_cwd options)]>
                 (<["args" := JArr (List.map JStr args)]>
                    {["command" := JStr command]}));
       ro_locations := None |};
  progressAwait sessionId toolCallId terminal.

(** The [catch (error)] block: fetch what output there is and rethrow as
    a [ToolError]. *)
Definition progressCatch (terminal : Terminal) (e : Thrown) : Thrown :=
  let errorOutput := match currentOutputOnError terminal with
                     | Normal r => output r
                     | Abrupt _ => ""
                     end in
  ThrowError false
    ("Terminal command failed: " +:+ errorMessage e
       +:+ (if String.eqb errorOutput "" then ""
            else newline +:+ newline +:+ "Output:" +:+ newline +:+ errorOutput)).

(** [executeWithProgress]. [createTerminal] is what
    [terminalManager.createTerminal(sessionId, {...})] settles to; when it
    throws, the call throws before anything is reported. *)
Definition executeWithProgress (createTerminal : Completion Terminal)
    (sessionId command : string) (args : list string)
    (options : ExecuteWithProgressOptions)
  : M (Completion SimpleCommandResult) :=
  match createTerminal with
  | Abrupt e => mret (Abrupt e)
  | Normal terminal =>
      r ← progressBody sessionId command args options terminal;
      match r with
      | Normal v => mret (Normal v)
      | Abrupt e => mret (Abrupt (progressCatch terminal e))
      end
  end.

Definition noOptions : ExecuteWithProgressOptions :=
  {| opt_title := None; opt_cwd := None;
     opt_outputByteLimit := None; opt_pollIntervalMs := None |}.

(** ** [executeSimpleCommand], [executeSequential], [executeWithTimeout] *)

(** The [TerminalHandle] these functions are given, as the replies it
    gives: [waitForExit()]; what the race of [waitForExit()] against a
    timer of [timeoutMs] settles to ([None] when the timer wins); [kill()];
    what the race of a second [waitForExit()] against 100 ms settles to;
    [currentOutput()]; [release()]. *)
Record TerminalHandle : Type := {
  handle_id : string;
  handle_waitForExit : Completion WaitForTerminalExitResponse;
  handle_race : Z -> option (Completion WaitForTerminalExitResponse);
  handle_kill : Completion unit;
  handle_waitAfterKill : option (Completion WaitForTerminalExitResponse);
  handle_currentOutput : Completion TerminalOutputResponse;
  handle_release : Completion unit;
}.

(** The second argument of [terminalManager.createTerminal]; [env] is
    handed on as given and is left out. *)
Record CreateTerminalRequest : Type := {
  req_command : string;
  req_args : list string;
  req_cwd : option string;
  req_outputByteLimit : option Z;
}.

(** [TerminalManager.createTerminal], as what its [n]-th call settles to. *)
Definition TerminalManager : Type :=
  nat -> string -> CreateTerminalRequest -> Completion TerminalHandle.

(** The calls made on the manager and on the handles, in order; a
    creation is recorded with the id of the terminal it gave, if any. *)
Inductive TerminalCall : Type :=
| CreateTerminal (sessionId : string) (request : CreateTerminalRequest)
    (created : option string)
| WaitForExit (id : string)
| Kill (id : string)
| CurrentOutput (id : string)
| Release (id : string).

Record CommandOptions : Type := {
  co_cwd : option string;
  co_outputByteLimit : option Z;
}.

(** [...(options?.cwd && { cwd: options.cwd })] and the like: a falsy
    value is left out. *)
Definition truthyStr (o : option string) : option string :=
  match o with
  | Some s => if String.eqb s "" then None else Some s
  | None => None
  end.

Definition truthyNum (o : option Z) : option Z :=
  match o with
  | Some z => if z =? 0 then None else Some z
  | None => None
  end.

Definition createRequest (command : string) (args : list string)
    (options : CommandOptions) : CreateTerminalRequest :=
  {| req_command := command; req_args := args;
     req_cwd := truthyStr (co_cwd options);
     req_outputByteLimit := truthyNum (co_outputByteLimit options) |}.

(** [try { body } finally { await terminal.release(); }]: the release
    runs whatever the body did, and what it throws replaces the outcome. *)
Definition finallyRelease {A} (terminal : TerminalHandle)
    (body : list TerminalCall * Completion A) : list TerminalCall * Completion A :=
  ((fst body ++ [Release (handle_id terminal)])%list,
   match handle_release terminal with
   | Normal _ => snd body
   | Abrupt e => Abrupt e
   end).

(** [executeSimpleCommand], as the [n]-th user of the manager. *)
Definition executeSimpleCommand (terminalManager : TerminalManager) (n : nat)
    (sessionId command : string) (args : list string) (options : CommandOptions)
  : list TerminalCall * Completion SimpleCommandResult :=
  let request := createRequest command args options in
  match terminalManager n sessionId request with
  | Abrupt e => ([CreateTerminal sessionId request None], Abrupt e)
  | Normal terminal =>
      let id := handle_id terminal in
      let done :=
        finallyRelease terminal
          match handle_waitForExit terminal with
          | Abrupt e => ([WaitForExit id], Abrupt e)
          | Normal exitStatus =>
              match handle_currentOutput terminal with
              | Abrupt e => ([WaitForExit id; CurrentOutput id], Abrupt e)
              | Normal outputResponse =>
                  ([WaitForExit id; CurrentOutput id],
                   Normal {| res_output := output outputResponse;
                             res_exitCode := exitCode exitStatus;
                             res_signal := signal exitStatus;
                             res_truncated := truncated outputResponse |})
              end
          end in
      (CreateTerminal sessionId request (Some id) :: fst done, snd done)
  end.

Record Command : Type := {
  cmd_command : string;
  cmd_args : option (list string);
}.

Record SequentialOptions : Type := {
  so_outputByteLimit : option Z;
  stopOnError : option bool;
}.

(** [result.exitCode !== 0] *)
Definition exitedNonZero (r : SimpleCommandResult) : bool :=
  negb (bool_decide (res_exitCode r = Some 0)).

(** The [for (const cmd of commands)] loop of [executeSequential]. *)
Fixpoint sequentialLoop (terminalManager : TerminalManager) (sessionId cwd : string)
    (options : SequentialOptions) (commands : list Command) (n : nat)
    (results : list SimpleCommandResult)
  : list TerminalCall * Completion (list SimpleCommandResult) :=
  match commands with
  | [] => ([], Normal results)
  | cmd :: rest =>
      let step :=
        executeSimpleCommand terminalManager n sessionId (cmd_command cmd)
          (default [] (cmd_args cmd))
          {| co_cwd := Some cwd;
             co_outputByteLimit := so_outputByteLimit options |} in
      match snd step with
      | Abrupt e => (fst step, Abrupt e)
      | Normal result =>
          let results' := (results ++ [result])%list in
          if default true (stopOnError options) && exitedNonZero result
          then (fst step, Normal results')
          else
            let later := sequentialLoop terminalManager sessionId cwd options
                           rest (S n) results' in
            ((fst step ++ fst later)%list, snd later)
      end
  end.

(** [executeSequential] *)
Definition executeSequential (terminalManager : TerminalManager) (n : nat)
    (sessionId cwd : string) (commands : list Command) (options : SequentialOptions)
  : list TerminalCall * Completion (list SimpleCommandResult) :=
  sequentialLoop terminalManager sessionId cwd options commands n [].

Record TimeoutCommandResult : Type := {
  tres_output : string;
  tres_exitCode : option Z;
  tres_signal : option string;
  tres_truncated : bool;
  timedOut : bool;
}.

(** The end of the [try] block of [executeWithTimeout]: the final output
    is fetched and the result built. *)
Definition timeoutResult (terminal : TerminalHandle) (calls : list TerminalCall)
    (timedOut : bool) (exitStatus : option WaitForTerminalExitResponse)
  : list TerminalCall * Completion TimeoutCommandResult :=
  let calls' := (calls ++ [CurrentOutput (handle_id terminal)])%list in
  match handle_currentOutput terminal with
  | Abrupt e => (calls', Abrupt e)
  | Normal outputResponse =>
      (calls',
       Normal {| tres_output := output outputResponse;
                 tres_exitCode := exitStatus ≫= exitCode;
                 tres_signal := exitStatus ≫= signal;
                 tres_truncated := truncated outputResponse;
                 timedOut := timedOut |})
  end.

(** [executeWithTimeout] *)
Definition executeWithTimeout (terminalManager : TerminalManager) (n : nat)
    (sessionId command : string) (args : list string) (timeoutMs : Z)
    (options : CommandOptions)
  : list TerminalCall * Completion TimeoutCommandResult :=
  let request := createRequest command args options in
  match terminalManager n sessionId request with
  | Abrupt e => ([CreateTerminal sessionId request None], Abrupt e)
  | Normal terminal =>
      let id := handle_id terminal in
      let done :=
        finallyRelease terminal
          match handle_race terminal timeoutMs with
          | Some (Abrupt e) => ([WaitForExit id], Abrupt e)
          | Some (Normal status) =>
              timeoutResult terminal [WaitForExit id] false (Some status)
          | None =>
              match handle_kill terminal with
              | Abrupt e => ([WaitForExit id; Kill id], Abrupt e)
              | Normal _ =>
                  timeoutResult terminal [WaitForExit id; Kill id; WaitForExit id]
                    true
                    match handle_waitAfterKill terminal with
                    | Some (Normal status) => Some status
                    | _ => None
                    end
              end
          end in
      (CreateTerminal sessionId request (Some id) :: fst done, snd done)
  end.

End TerminalUtils.

(* ================================================================== *)
(** * src/tools/filesystem.ts: the retry loops of readFile and writeFile *)
(* ================================================================== *)

Module FilesystemTools.
Import Js ToolCallManager ToolRegistry.

Record FileSystemConfig : Type := {
  retries : option Z;
  retryDelay : option Z;
}.

(** [isValidationError] *)
Definition isValidationError (e : Thrown) : bool :=
  match e with
  | ThrowError acp message =>
      acp || includes message "is required" || includes message "must be"
          || includes message "invalid"
  | ThrowValue _ => false
  end.

(** [isFileNotFoundError] *)
Definition isFileNotFoundError (e : Thrown) : bool :=
  match e with
  | ThrowError _ message =>
      includes message "not found" || includes message "does not exist"
        || includes message "ENOENT"
  | ThrowValue _ => false
  end.

(** [isPermissionError] *)
Definition isPermissionError (e : Thrown) : bool :=
  match e with
  | ThrowError _ message =>
      includes message "permission denied" || includes message "access denied"
        || includes message "EACCES" || includes message "EPERM"
  | ThrowValue _ => false
  end.

(** What the provider does, in order: [await this.delay(ms)] and the
    calls of the single-attempt function. *)
Inductive FsEvent : Type :=
| Delay (ms : Z)
| Attempt (attempt : Z).

(** The [for (let attempt = 0; attempt <= maxRetries; attempt++)] loop.
    [once attempt] is what the single attempt ([_readFileOnce],
    [_writeFileOnce]) settles to when called in iteration [attempt];
    [raiseNow] is the disjunction of the "don't retry" tests of the
    [catch] block. [fuel] counts the iterations left; when the loop
    condition fails, [throw lastError!] runs. *)
Fixpoint retryLoop (raiseNow : Thrown -> bool) (once : Z -> Completion ToolResult)
    (retryDelay maxRetries : Z) (fuel : nat) (attempt : Z)
    (lastError : option Thrown) (tr : list FsEvent)
  : list FsEvent * Completion ToolResult :=
  match fuel with
  | O => (tr, Abrupt (default (ThrowValue JUndefined) lastError))
  | S fuel' =>
      let tr1 := if 0 <? attempt then (tr ++ [Delay (retryDelay * attempt)])%list else tr in
      let tr2 := (tr1 ++ [Attempt attempt])%list in
      match once attempt with
      | Normal r => (tr2, Normal r)
      | Abrupt e =>
          if raiseNow e then (tr2, Abrupt e)
          else if attempt =? maxRetries then (tr2, Abrupt e)
          else retryLoop raiseNow once retryDelay maxRetries fuel'
                 (attempt + 1) (Some e) tr2
      end
  end.

Definition readRaiseNow (e : Thrown) : bool :=
  isValidationError e || isFileNotFoundError e || isPermissionError e.

Definition writeRaiseNow (e : Thrown) : bool :=
  isValidationError e || isPermissionError e.

Definition maxRetriesOf (cfg : FileSystemConfig) : Z := default 3 (retries cfg).
Definition retryDelayOf (cfg : FileSystemConfig) : Z := default 1000 (retryDelay cfg).

(** [readFile] *)
Definition readFile (cfg : FileSystemConfig) (once : Z -> Completion ToolResult)
  : list FsEvent * Completion ToolResult :=
  retryLoop readRaiseNow once (retryDelayOf cfg) (maxRetriesOf cfg)
            (Z.to_nat (maxRetriesOf cfg + 1)) 0 None [].

(** [writeFile] *)
Definition writeFile (cfg : FileSystemConfig) (once : Z -> Completion ToolResult)
  : list FsEvent * Completion ToolResult :=
  retryLoop writeRaiseNow once (retryDelayOf cfg) (maxRetriesOf cfg)
            (Z.to_nat (maxRetriesOf cfg + 1)) 0 None [].


(** ** src/client/filesystem-client.ts and the single attempts *)

(** [ReadFileOptions] and [WriteFileOptions]. The provider passes
    [params['_sessionId']] on as it is, whatever its type. *)
Record ReadFileOptions : Type := {
  read_sessionId : JsVal;
  read_path : string;
  read_line : option Z;
  read_limit : option Z;
}.

Record WriteFileOptions : Type := {
  write_sessionId : JsVal;
  write_path : string;
  write_content : string;
}.

(** [ClientConnection], the two methods the file system client calls:
    what the promise of [connection.readTextFile] settles to (the
    [content] of the response) and that of [connection.writeTextFile]. *)
Record ClientConnection : Type := {
  connection_readTextFile : ReadFileOptions -> Completion string;
  connection_writeTextFile : WriteFileOptions -> Completion unit;
}.

(** [FileSystemClient] *)
Record FileSystemClient : Type := {
  readTextFile : ReadFileOptions -> Completion string;
  writeTextFile : WriteFileOptions -> Completion unit;
}.

(** [AcpFileSystemClient]: each method awaits the connection and
    re-throws what it catches as a plain [Error] with context. *)
Definition AcpFileSystemClient (connection : ClientConnection) : FileSystemClient :=
  {| readTextFile := fun options =>
       tryCatch (connection_readTextFile connection options)
         (fun error =>
            Abrupt (ThrowError false
                      ("Failed to read file '" +:+ read_path options +:+ "': "
                         +:+ errorMessage error)));
     writeTextFile := fun options =>
       tryCatch (connection_writeTextFile connection options)
         (fun error =>
            Abrupt (ThrowError false
                      ("Failed to write file '" +:+ write_path options +:+ "': "
                         +:+ errorMessage error))) |}.

(** The calls made on the file system client, in order. *)
Inductive FsCall : Type :=
| CallReadTextFile (options : ReadFileOptions)
| CallWriteTextFile (options : WriteFileOptions).

(** [new AcpFileSystemError(message, -32602, ...)] *)
Definition AcpFileSystemError (message : string) : Thrown := ThrowError true message.

Definition missingSessionId : string :=
  "Session ID is required for ACP file operations. "
    +:+ "This is an internal error - please report it.".

Definition invalidPath : string :=
  "Valid file path is required. Path must be a non-empty string.".

(** [content.split('\n').length] *)
Fixpoint lineCount (content : string) : Z :=
  match content with
  | EmptyString => 1
  | String c rest =>
      (if Ascii.eqb c "010"%char then 1 else 0) + lineCount rest
  end.

(** [x !== undefined && (typeof x !== 'number' || x < 1)] *)
Definition badCount (x : JsVal) : bool :=
  match x with
  | JUndefined => false
  | JNum z => z <? 1
  | _ => true
  end.

Definition asCount (x : JsVal) : option Z :=
  match x with JNum z => Some z | _ => None end.

(** The [catch] block of the single attempts:
    [error instanceof Error
       ? this.enhanceFileSystemError(error, operation, params['path']).message
       : String(error)]. *)
Definition enhanceFileSystemError (operation : string) (path : JsVal) (e : Thrown)
  : string :=
  match e with
  | ThrowError _ message =>
      "File system " +:+ operation +:+ " operation failed for '"
        +:+ toString path +:+ "': " +:+ message
  | ThrowValue v => toString v
  end.

Definition failure (operation : string) (params : JsVal) (e : Thrown) : ToolResult :=
  {| success := false; result := JUndefined;
     error := Some (enhanceFileSystemError operation (get params "path") e);
     metadata := None |}.

(** [...(x !== undefined && { k: x })] *)
Definition spreadDefined (k : string) (x : JsVal) (m : gmap string JsVal)
  : gmap string JsVal :=
  match x with JUndefined => m | _ => <[k := x]> m end.

(** [...(operationId ? { operationId } : {})]; [operationId] is a string
    made of the time and a random suffix when metrics are enabled and
    [undefined] otherwise. *)
Definition spreadOperationId (operationId : option string) (m : gmap string JsVal)
  : gmap string JsVal :=
  match operationId with
  | Some id => if String.eqb id "" then m else <["operationId" := JStr id]> m
  | None => m
  end.

(** [_readFileOnce]: the calls it makes on the client and what it
    returns. Its [try] encloses the whole body and its [catch] returns, so
    it never throws. [content.length] counts the characters of the string. *)
Definition _readFileOnce (client : FileSystemClient) (operationId : option string)
    (params : JsVal) : list FsCall * ToolResult :=
  let sessionId := get params "_sessionId" in
  if negb (truthy sessionId)
  then ([], failure "read" params (AcpFileSystemError missingSessionId))
  else
    match get params "path" with
    | JStr path =>
        if String.eqb path ""
        then ([], failure "read" params (AcpFileSystemError invalidPath))
        else
          let line := get params "line" in
          let limit := get params "limit" in
          if badCount line
          then ([], failure "read" params
                      (AcpFileSystemError
                         "Line number must be a positive integer (1-based)"))
          else if badCount limit
          then ([], failure "read" params
                      (AcpFileSystemError "Limit must be a positive integer"))
          else
            let options := {| read_sessionId := sessionId; read_path := path;
                              read_line := asCount line;
                              read_limit := asCount limit |} in
            match readTextFile client options with
            | Normal content =>
                ([CallReadTextFile options],
                 {| success := true;
                    result :=
                      JObj (<["path" := JStr path]>
                              (<["content" := JStr content]>
                                 {[ "_meta" :=
                                      JObj (spreadOperationId operationId
                                              (<["sessionId" := sessionId]>
                                                 (<["acpMethod" := JStr "fs/read_text_file"]>
                                                    (<["includesUnsavedChanges" := JBool true]>
                                                       (<["source" := JStr "acp-client"]>
                                                          (spreadDefined "maxLines" limit
                                                             (spreadDefined "startLine" line
                                                                (<["lineCount" := JNum (lineCount content)]>
                                                                   {[ "contentLength" :=
                                                                        JNum (Z.of_nat (String.length content)) ]})))))))) ]}));
                    error := None;
                    metadata := None |})
            | Abrupt e => ([CallReadTextFile options], failure "read" params e)
            end
    | _ => ([], failure "read" params (AcpFileSystemError invalidPath))
    end.

(** [_writeFileOnce] *)
Definition _writeFileOnce (client : FileSystemClient) (operationId : option string)
    (params : JsVal) : list FsCall * ToolResult :=
  let sessionId := get params "_sessionId" in
  if negb (truthy sessionId)
  then ([], failure "write" params (AcpFileSystemError missingSessionId))
  else
    match get params "path" with
    | JStr path =>
        if String.eqb path ""
        then ([], failure "write" params (AcpFileSystemError invalidPath))
        else
          match get params "content" with
          | JUndefined | JNull =>
              ([], failure "write" params
                     (AcpFileSystemError
                        "Content is required. To create an empty file, pass an empty string."))
          | content =>
              let contentStr := toString content in
              let options := {| write_sessionId := sessionId; write_path := path;
                                write_content := contentStr |} in
              match writeTextFile client options with
              | Normal _ =>
                  ([CallWriteTextFile options],
                   {| success := true;
                      result :=
                        JObj (<["path" := JStr path]>
                                (<["written" := JBool true]>
                                   {[ "_meta" :=
                                        JObj (spreadOperationId operationId
                                                (<["sessionId" := sessionId]>
                                                   (<["acpMethod" := JStr "fs/write_text_file"]>
                                                      (<["source" := JStr "acp-client"]>
                                                         (<["lineCount" := JNum (lineCount contentStr)]>
                                                            {[ "contentLength" :=
                                                                 JNum (Z.of_nat (String.length contentStr)) ]}))))) ]}));
                      error := None;
                      metadata := None |})
              | Abrupt e => ([CallWriteTextFile options], failure "write" params e)
              end
          end
    | _ => ([], failure "write" params (AcpFileSystemError invalidPath))
    end.

(** [ClientCapabilities | null], with the two flags of [fs] when it is
    there. *)
Record FsCapabilities : Type := {
  cap_readTextFile : bool;
  cap_writeTextFile : bool;
}.

Record ClientCapabilities : Type := { fs : option FsCapabilities }.

(** The provider's fields: [fsConfig.enabled], the rest of [fsConfig],
    the capabilities, and the client as each attempt finds it; with them
    the operation id of the metrics, when enabled, and the milliseconds a
    call of a handler takes. *)
Record FilesystemToolProvider : Type := {
  enabled : bool;
  fsConfig : FileSystemConfig;
  clientCapabilities : option ClientCapabilities;
  fileSystemClient : Z -> FileSystemClient;
  operationId : option string;
  handlerTime : JsVal -> Z;
}.

(** The handlers bound in [getTools]: [this.readFile] and
    [this.writeFile], each attempt being the single-attempt function. *)
Definition readFileHandler (p : FilesystemToolProvider) (params : JsVal)
  : list FsEvent * Completion ToolResult :=
  readFile (fsConfig p)
    (fun attempt =>
       Normal (snd (_readFileOnce (fileSystemClient p attempt) (operationId p) params))).

Definition writeFileHandler (p : FilesystemToolProvider) (params : JsVal)
  : list FsEvent * Completion ToolResult :=
  writeFile (fsConfig p)
    (fun attempt =>
       Normal (snd (_writeFileOnce (fileSystemClient p attempt) (operationId p) params))).

(** [getTools] of the file system provider. *)
Definition fsTools (p : FilesystemToolProvider) : list Tool :=
  if negb (enabled p) then []
  else
    match clientCapabilities p with
    | None => []
    | Some capabilities =>
        match fs capabilities with
        | None => []
        | Some fsCapabilities =>
            ((if cap_readTextFile fsCapabilities
              then [ {| tool_name := "read_file"; required := ["path"];
                        handler := fun params =>
                          {| elapsed := handlerTime p params;
                             settled := snd (readFileHandler p params) |} |} ]
              else [])
             ++ (if cap_writeTextFile fsCapabilities
                 then [ {| tool_name := "write_file"; required := ["path"; "content"];
                           handler := fun params =>
                             {| elapsed := handlerTime p params;
                                settled := snd (writeFileHandler p params) |} |} ]
                 else []))%list
        end
    end.

(** The provider as the registry sees it. *)
Definition asToolProvider (p : FilesystemToolProvider) : ToolProvider :=
  {| provider_name := "filesystem"; getTools := fsTools p |}.

End FilesystemTools.

(* ================================================================== *)
(** * src/transport/http-stream.ts: the writable side of httpToStream *)
(* ================================================================== *)

Module HttpStream.
Import Js ToolCallManager.

(** What [res.end] is given: nothing, a serialised message, or the
    JSON-RPC error envelope [{jsonrpc, id:null, error:{code, message, data}}]. *)
Inductive Body : Type :=
| NoBody
| Raw (body : string)
| ErrorEnvelope (code : Z) (message data : string).

(** The calls made on the [ServerResponse], in order. *)
Inductive ResCall : Type :=
| writeHead (statusCode : Z) (headers : list (string * string))
| end_ (body : Body).

Section Writable.
(** [AnyMessage] and [JSON.stringify] on it (which throws on a value that
    has no JSON form). *)
Context {Msg : Type} (JSON_stringify : Msg -> Completion string).

(** The closure variables of [httpToStream] and the response object. *)
Record Sink : Type := {
  responseBuffer : option Msg;
  responseWritten : bool;
  res : list ResCall;
}.

Definition httpToStream : Sink :=
  {| responseBuffer := None; responseWritten := false; res := [] |}.

Definition multipleWrites : string :=
  "HTTP stream does not support multiple writes. "
    +:+ "Each HTTP request can only send one response message. "
    +:+ "Previous message would be silently discarded.".

(** [write(message)] *)
Definition write (message : Msg) (k : Sink) : Completion unit * Sink :=
  match responseBuffer k with
  | Some _ => (Abrupt (ThrowError false multipleWrites), k)
  | None =>
      (Normal tt,
       {| responseBuffer := Some message;
          responseWritten := responseWritten k;
          res := res k |})
  end.

Definition respond (k : Sink) (calls : list ResCall) : Sink :=
  {| responseBuffer := responseBuffer k;
     responseWritten := true;
     res := (res k ++ calls)%list |}.

(** [close()] *)
Definition close (k : Sink) : Sink :=
  match responseBuffer k, responseWritten k with
  | Some message, false =>
      match JSON_stringify message with
      | Normal responseBody =>
          respond k
            [writeHead 200
               [("Content-Type", "application/json");
                ("Content-Length", pretty (String.length responseBody));
                ("Access-Control-Allow-Origin", "*")];
             end_ (Raw responseBody)]
      | Abrupt e =>
          respond k
            [writeHead 500 [("Content-Type", "application/json")];
             end_ (ErrorEnvelope (-32603) "Internal error" (errorMessage e))]
      end
  | _, false => respond k [writeHead 204 []; end_ NoBody]
  | _, true => k
  end.

(** [abort(error)] *)
Definition abort (e : Thrown) (k : Sink) : Sink :=
  if responseWritten k then k
  else respond k
         [writeHead 500 [("Content-Type", "application/json")];
          end_ (ErrorEnvelope (-32603) "Connection aborted" (errorMessage e))].

End Writable.
End HttpStream.

(* ================================================================== *)
(** * The session manager's mode catalog *)
(* ================================================================== *)

Module SessionModes.

Inductive PermissionBehavior : Type := strict | permissive | auto.

Record SessionModeConfig : Type := {
  permissionBehavior : PermissionBehavior;
  availableTools : option (list string);
}.

Record SessionMode : Type := {
  id : string;
  config : SessionModeConfig;
}.

(** Modelled from the spec: the catalog of [SessionManager]
    (src/session/manager.ts is not among the sources; its tests are):
    "[ask] (strict, no declared tools), [plan] (strict, [[filesystem]]),
    [agent] (strict, [[filesystem, terminal]])". The modes are listed in
    the order tests/unit/session/session-modes.test.ts expects of
    [getAvailableModes]. *)
Definition catalog : list SessionMode :=
  [ {| id := "agent";
       config := {| permissionBehavior := strict;
                    availableTools := Some ["filesystem"; "terminal"] |} |};
    {| id := "plan";
       config := {| permissionBehavior := strict;
                    availableTools := Some ["filesystem"] |} |};
    {| id := "ask";
       config := {| permissionBehavior := strict; availableTools := None |} |} ].

(** Modelled from the spec: [getAvailableModes], the ids the manager
    advertises. *)
Definition getAvailableModes : list string := List.map id catalog.

(** Modelled from the spec: [getModeConfig]. *)
Definition getModeConfig (modeId : string) : option SessionModeConfig :=
  option_map config (List.find (fun m => String.eqb (id m) modeId) catalog).

(** The tools a mode declares: [config?.availableTools ?? []]. *)
Definition declaredTools (modeId : string) : list string :=
  match getModeConfig modeId with
  | Some c => default [] (availableTools c)
  | None => []
  end.

End SessionModes.

(* ================================================================== *)
(** * src/transport/connection-pool.ts *)
(* ================================================================== *)

Module ConnectionPool.

Record ConnectionPoolConfig : Type := {
  maxConnections : Z;
  maxIdleTime : Z;
  acquireTimeout : Z;
}.

(** [ConnectionPoolMetrics]; [averageWaitTime], a floating-point moving
    average that no branch reads, is left out. *)
Record ConnectionPoolMetrics : Type := {
  totalCreated : Z;
  totalDestroyed : Z;
  activeConnections : Z;
  idleConnections : Z;
  totalRequests : Z;
  waitingRequests : Z;
  peakConnections : Z;
}.

(** [PooledConnection]; the id [`conn-${n}`] is kept as [n], and the
    payload the factory made is not looked at by the pool. *)
Record PooledConnection : Type := {
  createdAt : Z;
  lastUsedAt : Z;
  inUse : bool;
  requestCount : Z;
}.

(** Where a call of [acquire] stands between two of its segments. *)
Inductive AcquireState : Type :=
| Creating (id : nat)   (* inside [createConnection], at [await factory()] *)
| Created (id : nat)    (* [createConnection] returned; [acquire] not yet resumed *)
| Waiting               (* parked in [waitingQueue], the timeout armed *)
| Resolved (id : nat)   (* the waiter was handed a connection; not yet resumed *)
| Rejected              (* the awaited promise rejected; not yet resumed *)
| Holding (id : nat)    (* [acquire] returned the connection and its [release] *)
| Failed.               (* [acquire] threw *)

(** Where the call of [shutdown] stands. *)
Inductive ShutdownState : Type :=
| NotStarted
| Draining (startTime : Z)
| Drained
| Destroying (connectionIds : list nat)
| Done.

Record Pool : Type := {
  config : ConnectionPoolConfig;
  connections : list (nat * PooledConnection);
  waitingQueue : list nat;
  metrics : ConnectionPoolMetrics;
  cleanupInterval : bool;
  nextConnectionId : nat;
  calls : list (nat * AcquireState);
  shutdownState : ShutdownState;
}.

(** [new ConnectionPool(config, logger)] *)
Definition create (cfg : ConnectionPoolConfig) : Pool :=
  {| config := cfg;
     connections := [];
     waitingQueue := [];
     metrics := {| totalCreated := 0; totalDestroyed := 0;
                   activeConnections := 0; idleConnections := 0;
                   totalRequests := 0; waitingRequests := 0;
                   peakConnections := 0 |};
     cleanupInterval := true;
     nextConnectionId := 0%nat;
     calls := [];
     shutdownState := NotStarted |}.

Definition withConnections (p : Pool) (c : list (nat * PooledConnection)) : Pool :=
  {| config := config p; connections := c; waitingQueue := waitingQueue p;
     metrics := metrics p; cleanupInterval := cleanupInterval p;
     nextConnectionId := nextConnectionId p; calls := calls p;
     shutdownState := shutdownState p |}.

Definition withQueue (p : Pool) (q : list nat) : Pool :=
  {| config := config p; connections := connections p; waitingQueue := q;
     metrics := metrics p; cleanupInterval := cleanupInterval p;
     nextConnectionId := nextConnectionId p; calls := calls p;
     shutdownState := shutdownState p |}.

Definition withMetrics (p : Pool) (m : ConnectionPoolMetrics) : Pool :=
  {| config := config p; connections := connections p;
     waitingQueue := waitingQueue p;
     metrics := m; cleanupInterval := cleanupInterval p;
     nextConnectionId := nextConnectionId p; calls := calls p;
     shutdownState := shutdownState p |}.

Definition withCall (p : Pool) (call : nat) (st : AcquireState) : Pool :=
  {| config := config p; connections := connections p;
     waitingQueue := waitingQueue p;
     metrics := metrics p; cleanupInterval := cleanupInterval p;
     nextConnectionId := nextConnectionId p;
     calls := JsMap.set call st (calls p);
     shutdownState := shutdownState p |}.

Definition withShutdown (p : Pool) (interval : bool) (st : ShutdownState) : Pool :=
  {| config := config p; connections := connections p;
     waitingQueue := waitingQueue p;
     metrics := metrics p; cleanupInterval := interval;
     nextConnectionId := nextConnectionId p; calls := calls p;
     shutdownState := st |}.

Definition withNextId (p : Pool) (n : nat) : Pool :=
  {| config := config p; connections := connections p;
     waitingQueue := waitingQueue p;
     metrics := metrics p; cleanupInterval := cleanupInterval p;
     nextConnectionId := n; calls := calls p;
     shutdownState := shutdownState p |}.

(** Counter updates, one per [this.metrics.x++] or [x--] of the source. *)
Definition bump (dCreated dDestroyed dActive dIdle dRequests dWaiting : Z)
    (m : ConnectionPoolMetrics) : ConnectionPoolMetrics :=
  {| totalCreated := totalCreated m + dCreated;
     totalDestroyed := totalDestroyed m + dDestroyed;
     activeConnections := activeConnections m + dActive;
     idleConnections := idleConnections m + dIdle;
     totalRequests := totalRequests m + dRequests;
     waitingRequests := waitingRequests m + dWaiting;
     peakConnections := peakConnections m |}.

Definition withPeak (m : ConnectionPoolMetrics) (peak : Z) : ConnectionPoolMetrics :=
  {| totalCreated := totalCreated m; totalDestroyed := totalDestroyed m;
     activeConnections := activeConnections m;
     idleConnections := idleConnections m;
     totalRequests := totalRequests m; waitingRequests := waitingRequests m;
     peakConnections := peak |}.

Definition size (p : Pool) : Z := Z.of_nat (length (connections p)).

(** [getIdleConnection]: the first entry, in insertion order, not in use. *)
Definition getIdleConnection (p : Pool) : option nat :=
  option_map fst (List.find (fun e => negb (inUse (snd e))) (connections p)).

(** [markInUse(pooledConnection)]. The argument is a reference: the
    counters move even when the object has left the map meanwhile. *)
Definition markInUse (id : nat) (t : Z) (p : Pool) : Pool :=
  let p1 := match JsMap.get id (connections p) with
            | Some c =>
                withConnections p
                  (JsMap.set id {| createdAt := createdAt c; lastUsedAt := t;
                                   inUse := true;
                                   requestCount := requestCount c |}
                             (connections p))
            | None => p
            end in
  withMetrics p1 (bump 0 0 1 (-1) 0 0 (metrics p1)).

(** [serveWaitingRequest]. A waiter whose promise has settled already
    (its timeout fired: [findIndex] compares the wrapped [resolve] with the
    bare one and never finds the entry, so the entry stays queued) is
    shifted all the same, and resolving it has no effect. *)
Definition serveWaitingRequest (p : Pool) : Pool :=
  match waitingQueue p with
  | [] => p
  | waiting :: rest =>
      match getIdleConnection p with
      | None => p
      | Some id =>
          let p1 := withQueue p rest in
          match JsMap.get waiting (calls p1) with
          | Some Waiting => withCall p1 waiting (Resolved id)
          | _ => p1
          end
      end
  end.

(** [release(connectionId)] *)
Definition release (id : nat) (t : Z) (p : Pool) : Pool :=
  match JsMap.get id (connections p) with
  | None => p
  | Some c =>
      let p1 := withConnections p
                  (JsMap.set id {| createdAt := createdAt c; lastUsedAt := t;
                                   inUse := false;
                                   requestCount := requestCount c + 1 |}
                             (connections p)) in
      let p2 := withMetrics p1 (bump 0 0 (-1) 1 0 0 (metrics p1)) in
      serveWaitingRequest p2
  end.

(** [destroyConnection(connectionId)] *)
Definition destroyConnection (id : nat) (p : Pool) : Pool :=
  match JsMap.get id (connections p) with
  | None => p
  | Some c =>
      let p1 := withConnections p (JsMap.delete id (connections p)) in
      withMetrics p1
        (if inUse c then bump 0 1 (-1) 0 0 0 (metrics p1)
         else bump 0 1 0 (-1) 0 0 (metrics p1))
  end.

(** [cleanupIdleConnections]: the ids are collected first, then each is
    destroyed; [destroyConnection] has no suspension point, so the
    [Promise.all] over the calls runs them one after the other. *)
Definition cleanupIdleConnections (t : Z) (p : Pool) : Pool :=
  let connectionsToDestroy :=
    List.map fst
      (List.filter (fun e => negb (inUse (snd e))
                             && (maxIdleTime (config p) <? t - lastUsedAt (snd e)))
                   (connections p)) in
  List.fold_left (fun q id => destroyConnection id q) connectionsToDestroy p.

(** The part of [createConnection] after [await factory()]. *)
Definition finishCreate (id : nat) (t : Z) (p : Pool) : Pool :=
  let p1 := withConnections p
              (JsMap.set id {| createdAt := t; lastUsedAt := t;
                               inUse := false; requestCount := 0 |}
                         (connections p)) in
  let m := bump 1 0 0 1 0 0 (metrics p1) in
  withMetrics p1 (if peakConnections m <? size p1 then withPeak m (size p1) else m).

(** The first segment of [acquire(factory)], for the call numbered [call]:
    up to the [return], or up to the first [await] that suspends. *)
Definition acquireStart (call : nat) (t : Z) (p : Pool) : Pool :=
  let p0 := withMetrics p (bump 0 0 0 0 1 1 (metrics p)) in
  match getIdleConnection p0 with
  | Some id =>
      let p1 := markInUse id t p0 in
      let p2 := withMetrics p1 (bump 0 0 0 0 0 (-1) (metrics p1)) in
      withCall p2 call (Holding id)
  | None =>
      if size p0 <? maxConnections (config p0) then
        let id := S (nextConnectionId p0) in
        withCall (withNextId p0 id) call (Creating id)
      else
        withCall (withQueue p0 (waitingQueue p0 ++ [call])%list) call Waiting
  end.

(** The segment of [acquire] after the [await]: [markInUse],
    [waitingRequests--] and the [return]; or the [catch] block. *)
Definition acquireResume (call : nat) (t : Z) (p : Pool) : option Pool :=
  match JsMap.get call (calls p) with
  | Some (Created id) | Some (Resolved id) =>
      let p1 := markInUse id t p in
      let p2 := withMetrics p1 (bump 0 0 0 0 0 (-1) (metrics p1)) in
      Some (withCall p2 call (Holding id))
  | Some Rejected =>
      Some (withCall (withMetrics p (bump 0 0 0 0 0 (-1) (metrics p))) call Failed)
  | _ => None
  end.

(** The last segment of [shutdown]: every queued waiter is rejected and
    the queue emptied. *)
Definition rejectWaiting (p : Pool) : Pool :=
  let p1 := List.fold_left
              (fun q waiting =>
                 match JsMap.get waiting (calls q) with
                 | Some Waiting => withCall q waiting Rejected
                 | _ => q
                 end)
              (waitingQueue p) p in
  withQueue p1 [].

(** What can happen next: a segment of some call runs, a promise
    settles, a timer fires. Times are what [Date.now()] reads then. *)
Inductive Label : Type :=
| Acquire (call : nat) (t : Z)
| FactoryResolves (call : nat) (t : Z)
| FactoryRejects (call : nat)
| Resume (call : nat) (t : Z)
| Release (id : nat) (t : Z)
| Timeout (call : nat)
| IdleCleanup (t : Z)
| ShutdownStart (t : Z)
| DrainTick (t : Z)
| ShutdownSnapshot
| ShutdownNext.

(** One step; [None] when the label is not enabled in the state. *)
Definition step (l : Label) (p : Pool) : option Pool :=
  match l with
  | Acquire call t =>
      match JsMap.get call (calls p) with
      | None => Some (acquireStart call t p)
      | Some _ => None
      end
  | FactoryResolves call t =>
      match JsMap.get call (calls p) with
      | Some (Creating id) => Some (withCall (finishCreate id t p) call (Created id))
      | _ => None
      end
  | FactoryRejects call =>
      match JsMap.get call (calls p) with
      | Some (Creating id) => Some (withCall p call Rejected)
      | _ => None
      end
  | Resume call t => acquireResume call t p
  | Release id t =>
      if existsb (fun e => match snd e with
                           | Holding id' => Nat.eqb id id'
                           | _ => false
                           end) (calls p)
      then Some (release id t p) else None
  | Timeout call =>
      match JsMap.get call (calls p) with
      | Some Waiting => Some (withCall p call Rejected)
      | _ => None
      end
  | IdleCleanup t =>
      if cleanupInterval p then Some (cleanupIdleConnections t p) else None
  | ShutdownStart t =>
      match shutdownState p with
      | NotStarted => Some (withShutdown p false (Draining t))
      | _ => None
      end
  | DrainTick t =>
      match shutdownState p with
      | Draining startTime =>
          if (0 <? activeConnections (metrics p)) && (t - startTime <? 30000)
          then Some p
          else Some (withShutdown p (cleanupInterval p) Drained)
      | _ => None
      end
  | ShutdownSnapshot =>
      match shutdownState p with
      | Drained =>
          Some (withShutdown p (cleanupInterval p)
                  (Destroying (JsMap.keys (connections p))))
      | _ => None
      end
  | ShutdownNext =>
      match shutdownState p with
      | Destroying (id :: rest) =>
          Some (withShutdown (destroyConnection id p) (cleanupInterval p)
                  (Destroying rest))
      | Destroying [] =>
          Some (withShutdown (rejectWaiting p) (cleanupInterval p) Done)
      | _ => None
      end
  end.

(** A run: the labels taken in order; [None] when one is not enabled. *)
Fixpoint run (ls : list Label) (p : Pool) : option Pool :=
  match ls with
  | [] => Some p
  | l :: rest =>
      match step l p with
      | Some p' => run rest p'
      | None => None
      end
  end.

(** The states the pool can be in. *)
Inductive reachable (cfg : ConnectionPoolConfig) : Pool -> Prop :=
| reach_create : reachable cfg (create cfg)
| reach_step l p p' :
    reachable cfg p -> step l p = Some p' -> reachable cfg p'.

End ConnectionPool.

(* ================================================================== *)
(** * Facts about the ordered map *)
(* ================================================================== *)

Module JsMapFacts.
Import JsMap.
Section Facts.
Context {K V : Type} `{EqDecision K}.
Implicit Types (k : K) (v : V) (m : list (K * V)).

Lemma get_set_eq k v m : get k (set k v m) = Some v.
Proof.
  induction m as [|[k' v'] m IH]; simpl.
  - destruct (decide (k = k)); congruence.
  - destruct (decide (k = k')) as [->|Hne]; simpl.
    + destruct (decide (k' = k')); congruence.
    + destruct (decide (k = k')); [contradiction|exact IH].
Qed.

Lemma get_set_ne k k' v m : k <> k' -> get k' (set k v m) = get k' m.
Proof.
  intros Hne. induction m as [|[k0 v0] m IH]; simpl.
  - destruct (decide (k' = k)); congruence.
  - destruct (decide (k = k0)) as [->|Hk]; simpl.
    + destruct (decide (k' = k0)); congruence.
    + destruct (decide (k' = k0)); [reflexivity|exact IH].
Qed.

Lemma get_delete_ne k k' m : k <> k' -> get k' (delete k m) = get k' m.
Proof.
  intros Hne. induction m as [|[k0 v0] m IH]; simpl; [reflexivity|].
  destruct (decide (k = k0)) as [->|Hk]; simpl.
  - destruct (decide (k' = k0)); congruence.
  - destruct (decide (k' = k0)); [reflexivity|exact IH].
Qed.

Lemma delete_set k v m : delete k (set k v m) = delete k m.
Proof.
  induction m as [|[k0 v0] m IH]; simpl.
  - destruct (decide (k = k)); congruence.
  - destruct (decide (k = k0)) as [->|Hk]; simpl.
    + destruct (decide (k0 = k0)); congruence.
    + destruct (decide (k = k0)); [contradiction|]. now rewrite IH.
Qed.

Lemma get_None_keys k m : get k m = None <-> ~ In k (keys m).
Proof.
  induction m as [|[k0 v0] m IH]; simpl; [tauto|].
  destruct (decide (k = k0)) as [->|Hk].
  - split; [discriminate|]. intros Hn. exfalso. apply Hn. now left.
  - rewrite IH. split.
    + intros Hn [Heq|Hin]; [congruence|contradiction].
    + intros Hn Hin. apply Hn. now right.
Qed.

Lemma get_Some_In k v m : get k m = Some v -> In (k, v) m.
Proof.
  induction m as [|[k0 v0] m IH]; simpl; [discriminate|].
  destruct (decide (k = k0)) as [->|Hk].
  - intros [= ->]. now left.
  - intros Hg. right. now apply IH.
Qed.

Lemma In_get k v m : NoDup (keys m) -> In (k, v) m -> get k m = Some v.
Proof.
  induction m as [|[k0 v0] m IH]; simpl; [tauto|].
  intros Hnd [Heq|Hin].
  - injection Heq as -> ->. destruct (decide (k = k)); congruence.
  - inversion Hnd as [|? ? Hnotin Hnd']; subst.
    destruct (decide (k = k0)) as [->|Hk].
    + exfalso. apply Hnotin, list_elem_of_In.
      change k0 with (fst (k0, v)). now apply in_map.
    + now apply IH.
Qed.

Lemma keys_set_present k v m :
  get k m <> None -> keys (set k v m) = keys m.
Proof.
  induction m as [|[k0 v0] m IH]; simpl; [congruence|].
  destruct (decide (k = k0)) as [->|Hk]; simpl; [reflexivity|].
  intros Hg. f_equal. now apply IH.
Qed.

Lemma keys_set_fresh k v m :
  get k m = None -> keys (set k v m) = (keys m ++ [k])%list.
Proof.
  induction m as [|[k0 v0] m IH]; simpl; [reflexivity|].
  destruct (decide (k = k0)) as [->|Hk]; simpl; [discriminate|].
  intros Hg. f_equal. now apply IH.
Qed.

Lemma length_set_present k v m :
  get k m <> None -> length (set k v m) = length m.
Proof.
  intros Hg. apply keys_set_present with (v := v) in Hg.
  unfold keys in Hg. apply (f_equal (@length K)) in Hg.
  now rewrite !length_map in Hg.
Qed.

Lemma length_set_fresh k v m :
  get k m = None -> length (set k v m) = S (length m).
Proof.
  intros Hg. apply keys_set_fresh with (v := v) in Hg.
  unfold keys in Hg. apply (f_equal (@length K)) in Hg.
  rewrite length_app, !length_map in Hg. simpl in Hg. lia.
Qed.

Lemma length_delete_present k m :
  get k m <> None -> S (length (delete k m)) = length m.
Proof.
  induction m as [|[k0 v0] m IH]; simpl; [congruence|].
  destruct (decide (k = k0)) as [->|Hk]; simpl; [reflexivity|].
  intros Hg. f_equal. now apply IH.
Qed.

Lemma keys_delete_incl k m k' : In k' (keys (delete k m)) -> In k' (keys m).
Proof.
  induction m as [|[k0 v0] m IH]; simpl; [tauto|].
  destruct (decide (k = k0)) as [->|Hk]; simpl.
  - intros Hin. now right.
  - intros [Heq|Hin]; [now left|right; now apply IH].
Qed.

Lemma NoDup_keys_delete k m : NoDup (keys m) -> NoDup (keys (delete k m)).
Proof.
  induction m as [|[k0 v0] m IH]; simpl; [auto|].
  intros Hnd. inversion Hnd as [|? ? Hnotin Hnd']; subst.
  destruct (decide (k = k0)) as [->|Hk]; simpl; [assumption|].
  constructor; [|now apply IH].
  intros Hin. apply Hnotin, list_elem_of_In.
  eapply keys_delete_incl, list_elem_of_In, Hin.
Qed.

Lemma NoDup_keys_set k v m : NoDup (keys m) -> NoDup (keys (set k v m)).
Proof.
  intros Hnd. destruct (get k m) as [v0|] eqn:Hg.
  - rewrite keys_set_present; [assumption|congruence].
  - rewrite keys_set_fresh by assumption.
    apply NoDup_app. split; [assumption|]. split.
    + intros x Hx Hin. apply list_elem_of_In in Hx.
      apply list_elem_of_In in Hin. simpl in Hin.
      destruct Hin as [<-|[]]. now apply get_None_keys in Hg.
    + apply NoDup_singleton.
Qed.

(** With unique keys, [delete] drops exactly the entries under the key. *)
Lemma delete_filter k m :
  NoDup (keys m) ->
  delete k m = List.filter (fun e => negb (bool_decide (fst e = k))) m.
Proof.
  induction m as [|[k0 v0] m IH]; simpl; [reflexivity|].
  intros Hnd. inversion Hnd as [|? ? Hnotin Hnd']; subst.
  destruct (decide (k = k0)) as [->|Hk].
  - rewrite bool_decide_eq_true_2 by reflexivity. simpl.
    symmetry. apply forallb_filter_id. apply forallb_forall.
    intros [k1 v1] Hin. simpl. apply negb_true_iff, bool_decide_eq_false.
    intros ->. apply Hnotin, list_elem_of_In.
    change k0 with (fst (k0, v1)). now apply in_map.
  - rewrite bool_decide_eq_false_2 by congruence. simpl.
    f_equal. now apply IH.
Qed.

End Facts.
End JsMapFacts.

(* ================================================================== *)
(** * Facts about the tool-call manager *)
(* ================================================================== *)

Module ToolCallManagerFacts.
Import Js JsMap JsMapFacts ToolCallManager.

(** The map of a manager holds each call under its own id, once. *)
Definition wfState (s : State) : Prop :=
  NoDup (keys (activeToolCalls s))
  /\ Forall (fun e => info_toolCallId (snd e) = fst e) (activeToolCalls s).

(** The notification a cancelled call gets. *)
Definition cancelNote (sessionId id : string) : AcpNotification :=
  {| method := "session/update";
     params_sessionId := sessionId;
     sessionUpdate := tool_call_update;
     update_fields :=
       {| toolCallId := id;
          title := Some "Cancelled by user";
          kind := None;
          status := Some failed;
          rawInput := None; locations := None;
          content := None; rawOutput := None |} |}.

Definition idIs (id : string) (tc : ToolCallInfo) : bool :=
  String.eqb (info_toolCallId tc) id.

Definition inSession (sessionId : string) (tc : ToolCallInfo) : bool :=
  String.eqb (info_sessionId tc) sessionId.

Ltac unfold_m :=
  unfold mbind, M_bind, mret, M_ret, getState, setActiveToolCalls,
    sendNotification, setTimeoutDelete, setCounter in *.

Lemma updateToolCall_present sessionId id updates s info :
  get id (activeToolCalls s) = Some info ->
  exists info',
    updateToolCall sessionId id updates s
    = (tt, {| activeToolCalls := set id info' (activeToolCalls s);
              toolCallCounter := toolCallCounter s;
              requestPermission := requestPermission s;
              now := now s; timers := timers s;
              trace := (trace s
                        ++ [Notify {| method := "session/update";
                                      params_sessionId := sessionId;
                                      sessionUpdate := tool_call_update;
                                      update_fields :=
                                        {| toolCallId := id;
                                           title := up_title updates;
                                           kind := None;
                                           status := up_status updates;
                                           rawInput := None;
                                           locations := up_locations updates;
                                           content := up_content updates;
                                           rawOutput := up_rawOutput updates |} |}])%list |})
    /\ info_toolCallId info' = info_toolCallId info
    /\ info_sessionId info' = info_sessionId info
    /\ info_status info' = default (info_status info) (up_status updates).
Proof.
  intros Hget. unfold updateToolCall. unfold_m. rewrite Hget.
  eexists. split; [reflexivity|]. simpl. auto.
Qed.

Lemma updateToolCall_absent sessionId id updates s :
  get id (activeToolCalls s) = None ->
  updateToolCall sessionId id updates s = (tt, s).
Proof.
  intros Hget. unfold updateToolCall. unfold_m. now rewrite Hget.
Qed.

(** The loop of [cancelSessionToolCalls] over calls that are all tracked:
    one notification per call that is not terminal, and every call of the
    list deleted. *)
Lemma cancelLoop_spec sessionId toolCalls :
  forall s,
    NoDup (List.map info_toolCallId toolCalls) ->
    (forall tc, In tc toolCalls ->
                get (info_toolCallId tc) (activeToolCalls s) <> None) ->
    cancelLoop sessionId toolCalls s
    = (tt, {| activeToolCalls :=
                fold_left (fun m tc => delete (info_toolCallId tc) m) toolCalls
                          (activeToolCalls s);
              toolCallCounter := toolCallCounter s;
              requestPermission := requestPermission s;
              now := now s; timers := timers s;
              trace := (trace s
                        ++ List.map (fun tc => Notify (cancelNote sessionId
                                                         (info_toolCallId tc)))
                             (List.filter nonTerminal toolCalls))%list |}).
Proof.
  induction toolCalls as [|tc rest IH]; intros s Hnd Hin.
  - simpl. unfold_m. rewrite app_nil_r. now destruct s.
  - inversion Hnd as [|? ? Hnotin Hnd']; subst.
    destruct (get (info_toolCallId tc) (activeToolCalls s)) as [info|] eqn:Hget;
      [|exfalso; eapply Hin; [now left|exact Hget]].
    assert (Hrest : forall tc', In tc' rest ->
              get (info_toolCallId tc')
                  (delete (info_toolCallId tc) (activeToolCalls s)) <> None).
    { intros tc' Hin'.
      assert (Hne : info_toolCallId tc <> info_toolCallId tc').
      { intros Heq. apply Hnotin, list_elem_of_In. rewrite Heq. now apply in_map. }
      rewrite get_delete_ne by exact Hne. apply Hin. now right. }
    cbn [cancelLoop List.filter fold_left].
    unfold mbind at 1, M_bind at 1.
    destruct (nonTerminal tc) eqn:Hnt.
    + destruct (updateToolCall_present sessionId (info_toolCallId tc)
                  {| up_title := Some "Cancelled by user"; up_status := Some failed;
                     up_content := None; up_locations := None;
                     up_rawOutput := None |} s info Hget)
        as (info' & Hupd & _).
      rewrite Hupd. unfold_m. cbn [activeToolCalls toolCallCounter
        requestPermission now timers trace up_title up_status up_content
        up_locations up_rawOutput].
      rewrite delete_set.
      rewrite IH; [|exact Hnd'|exact Hrest].
      cbn [activeToolCalls toolCallCounter requestPermission now timers trace
           List.map].
      now rewrite <- app_assoc.
    + unfold_m. cbn [activeToolCalls toolCallCounter requestPermission now
                     timers trace].
      rewrite IH; [|exact Hnd'|exact Hrest].
      reflexivity.
Qed.

Lemma filter_filter_and {A} (f g : A -> bool) (l : list A) :
  List.filter f (List.filter g l) = List.filter (fun x => g x && f x) l.
Proof.
  induction l as [|x l IH]; simpl; [reflexivity|].
  destruct (g x); simpl; [destruct (f x)|]; now rewrite IH.
Qed.

Lemma NoDup_map_filter {A B} (f : A -> B) (P : A -> bool) (l : list A) :
  NoDup (List.map f l) -> NoDup (List.map f (List.filter P l)).
Proof.
  induction l as [|x l IH]; simpl; [auto|].
  intros Hnd. inversion Hnd as [|? ? Hnotin Hnd']; subst.
  destruct (P x); simpl; [|now apply IH].
  constructor; [|now apply IH].
  intros Hin. apply Hnotin. apply list_elem_of_In in Hin. apply list_elem_of_In.
  apply in_map_iff in Hin as (y & Hy & Hin). apply in_map_iff.
  exists y. split; [assumption|]. now apply filter_In in Hin.
Qed.

Lemma filter_none {A} (P : A -> bool) (l : list A) :
  (forall z, In z l -> P z = false) -> List.filter P l = [].
Proof.
  induction l as [|y l IH]; simpl; [reflexivity|].
  intros H. rewrite (H y) by now left. apply IH. intros z Hz. apply H. now right.
Qed.


(** Deleting the keys [ks] one after the other keeps what is under no
    key of [ks]. *)
Lemma fold_delete_filter {V} (ks : list string) :
  forall (m : list (string * V)),
    NoDup (keys m) ->
    fold_left (fun m' k => delete k m') ks m
    = List.filter (fun e => negb (existsb (String.eqb (fst e)) ks)) m.
Proof.
  induction ks as [|k ks IH]; intros m Hnd; simpl.
  - symmetry. apply forallb_filter_id. now apply forallb_forall.
  - rewrite IH by now apply NoDup_keys_delete.
    rewrite delete_filter by assumption. rewrite filter_filter_and.
    apply filter_ext. intros [k0 v0]. simpl.
    destruct (String.eqb_spec k0 k) as [->|Hne].
    + now rewrite bool_decide_eq_true_2.
    + now rewrite bool_decide_eq_false_2.
Qed.

Lemma fold_delete_map {V} (f : V -> string) (vs : list V) :
  forall (m : list (string * V)),
    fold_left (fun m' v => delete (f v) m') vs m
    = fold_left (fun m' k => delete k m') (List.map f vs) m.
Proof. induction vs as [|v vs IH]; intros m; simpl; [reflexivity|apply IH]. Qed.

Lemma wf_values_ids s :
  wfState s ->
  List.map info_toolCallId (values (activeToolCalls s)) = keys (activeToolCalls s).
Proof.
  intros [_ Hids]. unfold values, keys. rewrite List.map_map.
  apply map_ext_in. intros e He.
  rewrite Forall_forall in Hids. apply Hids. now apply list_elem_of_In.
Qed.

Lemma wf_session_calls_tracked s sessionId tc :
  wfState s -> In tc (getSessionToolCalls sessionId s) ->
  get (info_toolCallId tc) (activeToolCalls s) = Some tc.
Proof.
  intros Hwf Hin. unfold getSessionToolCalls in Hin.
  apply filter_In in Hin as [Hin _]. unfold values in Hin.
  apply in_map_iff in Hin as ([k v] & <- & Hin). simpl.
  destruct Hwf as [Hnd Hids]. rewrite Forall_forall in Hids.
  assert (Hk := Hids (k, v) (proj2 (list_elem_of_In _ _) Hin)). simpl in Hk.
  rewrite Hk. now apply In_get.
Qed.

Lemma wf_session_calls_NoDup s sessionId :
  wfState s -> NoDup (List.map info_toolCallId (getSessionToolCalls sessionId s)).
Proof.
  intros Hwf. unfold getSessionToolCalls. apply NoDup_map_filter.
  rewrite wf_values_ids by assumption. apply Hwf.
Qed.

(** What [cancelSessionToolCalls] leaves in the map: the calls of the
    other sessions, untouched and in their order. *)
Lemma cancel_leaves_others s sessionId :
  wfState s ->
  fold_left (fun m tc => delete (info_toolCallId tc) m)
            (getSessionToolCalls sessionId s) (activeToolCalls s)
  = List.filter (fun e => negb (inSession sessionId (snd e))) (activeToolCalls s).
Proof.
  intros Hwf. rewrite fold_delete_map, fold_delete_filter by apply Hwf.
  apply filter_ext_in. intros [k v] Hin. simpl. f_equal.
  destruct Hwf as [Hnd Hids]. rewrite Forall_forall in Hids.
  assert (Hk := Hids (k, v) (proj2 (list_elem_of_In _ _) Hin)). simpl in Hk.
  apply eq_true_iff_eq. rewrite existsb_exists. split.
  - intros (k' & Hin' & Heq). apply String.eqb_eq in Heq. subst k'.
    apply in_map_iff in Hin' as (tc & Hid & Htc).
    unfold getSessionToolCalls in Htc. apply filter_In in Htc as [Htc Hsess].
    unfold values in Htc. apply in_map_iff in Htc as ([k2 v2] & <- & Hin2).
    simpl in *.
    assert (Hk2 := Hids (k2, v2) (proj2 (list_elem_of_In _ _) Hin2)). simpl in Hk2.
    assert (k2 = k) by congruence. subst k2.
    assert (Hg1 := In_get _ _ _ Hnd Hin). assert (Hg2 := In_get _ _ _ Hnd Hin2).
    assert (v2 = v) by congruence. subst v2. exact Hsess.
  - intros Hsess. exists k. split; [|apply String.eqb_refl].
    apply in_map_iff. exists v. split; [assumption|].
    unfold getSessionToolCalls. apply filter_In. split; [|exact Hsess].
    unfold values. apply in_map_iff. now exists (k, v).
Qed.


Lemma Forall_set {V} (P : string * V -> Prop) k v (m : list (string * V)) :
  Forall P m -> P (k, v) -> Forall P (set k v m).
Proof.
  intros Hm Hkv. induction m as [|[k0 v0] m IH]; simpl.
  - now constructor.
  - inversion Hm; subst. destruct (decide (k = k0)); constructor; auto.
Qed.

Lemma Forall_delete {V} (P : string * V -> Prop) k (m : list (string * V)) :
  Forall P m -> Forall P (delete k m).
Proof.
  intros Hm. induction m as [|[k0 v0] m IH]; simpl; [constructor|].
  inversion Hm; subst. destruct (decide (k = k0)); [assumption|].
  constructor; auto.
Qed.

Lemma wf_initial handler t0 : wfState (initial handler t0).
Proof. split; simpl; constructor. Qed.

Lemma wf_reportToolCall sessionId toolName options s :
  wfState s -> wfState (snd (reportToolCall sessionId toolName options s)).
Proof.
  intros [Hnd Hids]. unfold reportToolCall, generateToolCallId. unfold_m. simpl.
  split; simpl.
  - now apply NoDup_keys_set.
  - now apply Forall_set.
Qed.

Lemma wf_updateToolCall sessionId id updates s :
  wfState s -> wfState (snd (updateToolCall sessionId id updates s)).
Proof.
  intros Hwf. destruct (get id (activeToolCalls s)) as [info|] eqn:Hget.
  - destruct (updateToolCall_present sessionId id updates s info Hget)
      as (info' & -> & Hid & _).
    destruct Hwf as [Hnd Hids]. split; simpl.
    + now apply NoDup_keys_set.
    + apply Forall_set; [assumption|]. simpl. rewrite Hid.
      apply get_Some_In in Hget. rewrite Forall_forall in Hids.
      now apply (Hids (id, info)), list_elem_of_In.
  - now rewrite updateToolCall_absent.
Qed.

Lemma wf_completeToolCall sessionId id options s :
  wfState s -> wfState (snd (completeToolCall sessionId id options s)).
Proof.
  intros Hwf. unfold completeToolCall. unfold mbind, M_bind.
  match goal with |- context [updateToolCall ?a ?b ?c s] =>
    pose proof (wf_updateToolCall a b c s Hwf) as H;
    destruct (updateToolCall a b c s) as [[] s1] end.
  exact H.
Qed.

Lemma wf_failToolCall sessionId id options s :
  wfState s -> wfState (snd (failToolCall sessionId id options s)).
Proof.
  intros Hwf. unfold failToolCall. unfold mbind, M_bind.
  match goal with |- context [updateToolCall ?a ?b ?c s] =>
    pose proof (wf_updateToolCall a b c s Hwf) as H;
    destruct (updateToolCall a b c s) as [[] s1] end.
  exact H.
Qed.

(** The state [cancelSessionToolCalls] ends in. *)
Lemma cancelSessionToolCalls_eq (s : State) (sessionId : string) :
  wfState s ->
  cancelSessionToolCalls sessionId s
  = (tt, {| activeToolCalls :=
              List.filter (fun e => negb (inSession sessionId (snd e)))
                          (activeToolCalls s);
            toolCallCounter := toolCallCounter s;
            requestPermission := requestPermission s;
            now := now s; timers := timers s;
            trace := (trace s
                      ++ List.map (fun tc => Notify (cancelNote sessionId
                                                       (info_toolCallId tc)))
                           (List.filter nonTerminal
                              (getSessionToolCalls sessionId s)))%list |}).
Proof.
  intros Hwf. unfold cancelSessionToolCalls, mbind, M_bind, getState.
  rewrite cancelLoop_spec.
  - now rewrite cancel_leaves_others.
  - now apply wf_session_calls_NoDup.
  - intros tc Htc. now rewrite (wf_session_calls_tracked s sessionId tc).
Qed.

(** The states a manager goes through: whatever its methods, its timers
    and the clock make of a fresh one. *)
Inductive managed : State -> Prop :=
| managed_initial handler t0 : managed (initial handler t0)
| managed_report sessionId toolName options s :
    managed s -> managed (snd (reportToolCall sessionId toolName options s))
| managed_update sessionId id updates s :
    managed s -> managed (snd (updateToolCall sessionId id updates s))
| managed_complete sessionId id options s :
    managed s -> managed (snd (completeToolCall sessionId id options s))
| managed_fail sessionId id options s :
    managed s -> managed (snd (failToolCall sessionId id options s))
| managed_cancel sessionId s :
    managed s -> managed (snd (cancelSessionToolCalls sessionId s))
| managed_cleanup s : managed s -> managed (snd (cleanup s))
| managed_timer id s : managed s -> managed (snd (timerFires id s))
| managed_tick ms s : managed s -> managed (snd (tick ms s)).

(** Every such state holds each call once, under its own id. *)
Lemma managed_wf s : managed s -> wfState s.
Proof.
  induction 1 as [handler t0|sessionId toolName options s _ IH
                  |sessionId id updates s _ IH|sessionId id options s _ IH
                  |sessionId id options s _ IH|sessionId s _ IH|s _ IH
                  |id s _ IH|ms s _ IH].
  - apply wf_initial.
  - now apply wf_reportToolCall.
  - now apply wf_updateToolCall.
  - now apply wf_completeToolCall.
  - now apply wf_failToolCall.
  - rewrite cancelSessionToolCalls_eq by assumption.
    destruct IH as [Hnd Hids]. split; cbn [snd activeToolCalls].
    + unfold keys. apply NoDup_map_filter. exact Hnd.
    + rewrite Forall_forall in *. intros e He. apply Hids.
      apply list_elem_of_In in He. apply filter_In in He as [He _].
      now apply list_elem_of_In.
  - split; cbn; constructor.
  - destruct IH as [Hnd Hids]. split; cbn.
    + now apply NoDup_keys_delete.
    + now apply Forall_delete.
  - exact IH.
Qed.


(** C10. [requestToolPermission] never throws. Without a
    [requestPermission] handler it selects "allow-once", whatever the
    call and the options; with one, it selects "reject-once" when the id
    is not tracked, when the handler throws and when the handler resolves
    to no outcome. *)
Theorem requestToolPermission_defaults (s : State) (sessionId id : string)
    (options : list PermissionOption) :
  (exists outcome, requestToolPermission s sessionId id options = Normal outcome)
  /\ (requestPermission s = None ->
      requestToolPermission s sessionId id options = Normal (selected "allow-once"))
  /\ (forall handler,
        requestPermission s = Some handler ->
        (get id (activeToolCalls s) = None ->
         requestToolPermission s sessionId id options
         = Normal (selected "reject-once"))
        /\ (forall info,
              get id (activeToolCalls s) = Some info ->
              let reply := handler {| rp_sessionId := sessionId;
                                      rp_toolCall := update info;
                                      rp_options := options |} in
              ((exists e, reply = Abrupt e) \/ reply = Normal None ->
               requestToolPermission s sessionId id options
               = Normal (selected "reject-once"))
              /\ (forall outcome, reply = Normal (Some outcome) ->
                  requestToolPermission s sessionId id options = Normal outcome))).
Proof.
  unfold requestToolPermission.
  destruct (requestPermission s) as [handler|] eqn:Hh.
  - destruct (get id (activeToolCalls s)) as [info|] eqn:Hget.
    + destruct (handler {| rp_sessionId := sessionId; rp_toolCall := update info;
                           rp_options := options |}) as [[o|]|e] eqn:Hreply;
        simpl.
      all: split; [eexists; reflexivity|].
      all: split; [discriminate|].
      all: intros h [= <-]; split; [discriminate|].
      all: intros info' [= <-]; rewrite Hreply; simpl.
      all: split; [intros [[e' He']|He']; try discriminate; reflexivity|].
      all: intros outcome [= <-] || intros outcome Ho; try discriminate; reflexivity.
    + split; [eexists; reflexivity|]. split; [discriminate|].
      intros h [= <-]. split; [reflexivity|]. discriminate.
  - split; [eexists; reflexivity|]. split; [reflexivity|]. discriminate.
Qed.

(** A manager tracking three calls of session "S" (one pending, one in
    progress, one completed) and one call of session "T". *)
Definition demoOptions (t : string) : ReportOptions :=
  {| ro_title := t; ro_kind := kind_read; ro_status := None;
     ro_rawInput := JObj ∅; ro_locations := None |}.

Definition demoState : State :=
  snd ((a ← reportToolCall "S" "read_file" (demoOptions "a");
        b ← reportToolCall "S" "grep" (demoOptions "b");
        c ← reportToolCall "S" "think" (demoOptions "c");
        reportToolCall "T" "read_file" (demoOptions "d") ;;
        updateToolCall "S" b {| up_title := None; up_status := Some in_progress;
                                up_content := None; up_locations := None;
                                up_rawOutput := None |} ;;
        completeToolCall "S" c {| co_title := None; co_content := None;
                                  co_rawOutput := None |})
         (initial None 1700000000000)).



(** A handler that always throws. *)
Definition throwingHandler : PermissionHandler :=
  fun _ => Abrupt (ThrowError false "client went away").

Definition demoStateWithHandler : State :=
  {| activeToolCalls := activeToolCalls demoState;
     toolCallCounter := toolCallCounter demoState;
     requestPermission := Some throwingHandler;
     now := now demoState; timers := timers demoState;
     trace := trace demoState |}.

Lemma requestToolPermission_defaults_witness :
  requestToolPermission demoState "S" "tool_grep_1700000000000_2" []
  = Normal (selected "allow-once")
  /\ requestToolPermission demoStateWithHandler "S" "tool_grep_1700000000000_2" []
     = Normal (selected "reject-once")
  /\ requestToolPermission demoStateWithHandler "S" "unknown" []
     = Normal (selected "reject-once").
Proof.
  split; [|split].
  - apply (requestToolPermission_defaults demoState "S" _ []). reflexivity.
  - destruct (requestToolPermission_defaults demoStateWithHandler "S"
                "tool_grep_1700000000000_2" []) as (_ & _ & H).
    destruct (H throwingHandler eq_refl) as [_ H'].
    assert (Hget : exists info,
               get "tool_grep_1700000000000_2"
                   (activeToolCalls demoStateWithHandler) = Some info)
      by (vm_compute; eexists; reflexivity).
    destruct Hget as [info Hget]. destruct (H' info Hget) as [Hrej _].
    apply Hrej. left. eexists. reflexivity.
  - destruct (requestToolPermission_defaults demoStateWithHandler "S"
                "unknown" []) as (_ & _ & H).
    destruct (H throwingHandler eq_refl) as [H' _].
    apply H'. reflexivity.
Defined.

(** ** Tool call ids *)

Fixpoint hasUnderscore (s : string) : bool :=
  match s with
  | EmptyString => false
  | String c rest => Ascii.eqb c "_" || hasUnderscore rest
  end.

(** What follows the last underscore of a string. *)
Fixpoint afterLast (s : string) : string :=
  match s with
  | EmptyString => EmptyString
  | String c rest =>
      if hasUnderscore rest then afterLast rest
      else if Ascii.eqb c "_" then rest else s
  end.

Lemma hasUnderscore_app s1 s2 :
  hasUnderscore (s1 +:+ s2) = hasUnderscore s1 || hasUnderscore s2.
Proof.
  induction s1 as [|c s1 IH]; [reflexivity|].
  change (String c s1 +:+ s2) with (String c (s1 +:+ s2)).
  cbn [hasUnderscore]. rewrite IH. now rewrite orb_assoc.
Qed.

Lemma afterLast_app s1 s2 :
  hasUnderscore s2 = true -> afterLast (s1 +:+ s2) = afterLast s2.
Proof.
  intros H. induction s1 as [|c s1 IH]; [reflexivity|].
  change (String c s1 +:+ s2) with (String c (s1 +:+ s2)).
  cbn [afterLast]. rewrite hasUnderscore_app, H, orb_true_r. exact IH.
Qed.

Lemma hasUnderscore_pretty_N_go x : forall s,
  hasUnderscore (pretty_N_go x s) = hasUnderscore s.
Proof.
  induction (N.lt_wf_0 x) as [x _ IH]; intros s.
  destruct (decide (x = 0%N)) as [->|Hx]; [now rewrite pretty_N_go_0|].
  rewrite pretty_N_go_step by lia.
  rewrite IH by (apply N.div_lt; lia).
  cbn. unfold pretty_N_char. repeat case_match; reflexivity.
Qed.

Lemma hasUnderscore_pretty_nat (c : nat) : hasUnderscore (pretty c) = false.
Proof.
  unfold pretty, pretty_nat, pretty, pretty_N.
  case_decide; [reflexivity|apply hasUnderscore_pretty_N_go].
Qed.

(** The id [generateToolCallId] makes of a name, a time and a count. *)
Definition makeId (toolName : string) (t : Z) (c : nat) : string :=
  "tool_" +:+ toolName +:+ "_" +:+ pretty t +:+ "_" +:+ pretty c.

Lemma afterLast_makeId toolName t c : afterLast (makeId toolName t c) = pretty c.
Proof.
  assert (Hlast : hasUnderscore ("_" +:+ pretty c) = true) by reflexivity.
  assert (Htime : hasUnderscore (pretty t +:+ "_" +:+ pretty c) = true)
    by (rewrite hasUnderscore_app, Hlast; apply orb_true_r).
  assert (Hsep : hasUnderscore ("_" +:+ pretty t +:+ "_" +:+ pretty c) = true)
    by reflexivity.
  assert (Hname : hasUnderscore (toolName +:+ "_" +:+ pretty t +:+ "_" +:+ pretty c)
                  = true)
    by (rewrite hasUnderscore_app, Hsep; apply orb_true_r).
  unfold makeId.
  rewrite (afterLast_app "tool_") by exact Hname.
  rewrite (afterLast_app toolName) by exact Hsep.
  rewrite (afterLast_app "_") by exact Htime.
  rewrite (afterLast_app (pretty t)) by exact Hlast.
  change ("_" +:+ pretty c) with (String "_" (pretty c)).
  cbn [afterLast]. now rewrite hasUnderscore_pretty_nat.
Qed.

(** Ids made with different counts differ, whatever the tool names and
    the times. *)
Lemma makeId_inj_count n1 t1 c1 n2 t2 c2 :
  makeId n1 t1 c1 = makeId n2 t2 c2 -> c1 = c2.
Proof.
  intros H. apply (f_equal afterLast) in H. rewrite !afterLast_makeId in H.
  now apply (inj pretty) in H.
Qed.

Lemma reportToolCall_eq sessionId toolName options s :
  let id := makeId toolName (now s) (S (toolCallCounter s)) in
  let st := default pending (ro_status options) in
  let upd := {| toolCallId := id;
                title := Some (ro_title options);
                kind := Some (ro_kind options);
                status := Some st;
                rawInput := if truthy (ro_rawInput options)
                            then Some (ro_rawInput options) else None;
                locations := ro_locations options;
                content := None;
                rawOutput := None |} in
  reportToolCall sessionId toolName options s
  = (id,
     {| activeToolCalls :=
          set id {| info_toolCallId := id;
                    info_sessionId := sessionId;
                    info_toolName := toolName;
                    info_status := st;
                    startTime := now s;
                    endTime := None;
                    update := upd |} (activeToolCalls s);
        toolCallCounter := S (toolCallCounter s);
        requestPermission := requestPermission s;
        now := now s; timers := timers s;
        trace := (trace s
                  ++ [Notify {| method := "session/update";
                                params_sessionId := sessionId;
                                sessionUpdate := tool_call;
                                update_fields := upd |}])%list |}).
Proof. reflexivity. Qed.

(** Every tracked id ends in a count the manager has already issued, and
    the map never holds more calls than were counted. *)
Definition numbered (s : State) : Prop :=
  (forall k, In k (keys (activeToolCalls s)) ->
     exists c, afterLast k = pretty c /\ (c <= toolCallCounter s)%nat)
  /\ (length (activeToolCalls s) <= toolCallCounter s)%nat.

Lemma keys_set_incl {V} (k k' : string) (v : V) (m : list (string * V)) :
  In k' (keys (set k v m)) -> k' = k \/ In k' (keys m).
Proof.
  induction m as [|[k0 v0] m IH]; cbn.
  - intros [<-|[]]. now left.
  - destruct (decide (k = k0)) as [->|Hne]; cbn.
    + intros [<-|Hin]; auto.
    + intros [<-|Hin]; [auto|]. destruct (IH Hin); auto.
Qed.

Lemma length_set_le {V} (k : string) (v : V) (m : list (string * V)) :
  (length (set k v m) <= S (length m))%nat.
Proof.
  induction m as [|[k0 v0] m IH]; cbn; [lia|].
  destruct (decide (k = k0)); cbn; lia.
Qed.

Lemma length_delete_le {V} (k : string) (m : list (string * V)) :
  (length (delete k m) <= length m)%nat.
Proof.
  induction m as [|[k0 v0] m IH]; cbn; [lia|].
  destruct (decide (k = k0)); cbn; lia.
Qed.

Lemma updateToolCall_keys sessionId id updates s :
  let s' := snd (updateToolCall sessionId id updates s) in
  keys (activeToolCalls s') = keys (activeToolCalls s)
  /\ toolCallCounter s' = toolCallCounter s
  /\ timers s' = timers s
  /\ now s' = now s.
Proof.
  cbv zeta. destruct (get id (activeToolCalls s)) as [info|] eqn:Hget.
  - destruct (updateToolCall_present sessionId id updates s info Hget)
      as (info' & -> & _).
    cbn [snd activeToolCalls toolCallCounter timers now].
    rewrite keys_set_present by congruence. auto.
  - rewrite updateToolCall_absent by assumption. auto.
Qed.

Lemma numbered_frame s s' :
  numbered s ->
  keys (activeToolCalls s') = keys (activeToolCalls s) ->
  toolCallCounter s' = toolCallCounter s ->
  numbered s'.
Proof.
  intros [H1 H2] Hk Hc. split.
  - rewrite Hk, Hc. exact H1.
  - rewrite Hc. replace (length (activeToolCalls s'))
      with (length (keys (activeToolCalls s'))) by apply length_map.
    rewrite Hk. unfold keys. now rewrite length_map.
Qed.

Lemma numbered_sub s s' :
  numbered s ->
  (forall k, In k (keys (activeToolCalls s')) -> In k (keys (activeToolCalls s))) ->
  (length (activeToolCalls s') <= length (activeToolCalls s))%nat ->
  toolCallCounter s' = toolCallCounter s ->
  numbered s'.
Proof.
  intros [H1 H2] Hk Hl Hc. split.
  - rewrite Hc. intros k Hin. apply H1, Hk, Hin.
  - rewrite Hc. lia.
Qed.

Lemma managed_numbered s : managed s -> numbered s.
Proof.
  induction 1 as [handler t0|sessionId toolName options s Hm IH
                  |sessionId id updates s _ IH|sessionId id options s _ IH
                  |sessionId id options s _ IH|sessionId s Hm IH|s _ IH
                  |id s _ IH|ms s _ IH].
  - split; cbn; [contradiction|lia].
  - rewrite reportToolCall_eq. cbv zeta. cbn [snd]. destruct IH as [H1 H2].
    split; cbn [activeToolCalls toolCallCounter].
    + intros k Hin. apply keys_set_incl in Hin as [->|Hin].
      * exists (S (toolCallCounter s)). split; [apply afterLast_makeId|lia].
      * destruct (H1 k Hin) as (c & Hc & Hle). exists c. split; [assumption|lia].
    + etransitivity; [apply length_set_le|lia].
  - destruct (updateToolCall_keys sessionId id updates s) as (Hk & Hc & _).
    eapply numbered_frame; eauto.
  - unfold completeToolCall, mbind, M_bind.
    match goal with |- context [updateToolCall ?a ?b ?c s] =>
      destruct (updateToolCall_keys a b c s) as (Hk & Hc & _);
      destruct (updateToolCall a b c s) as [[] s1] end.
    cbn in Hk, Hc |- *. eapply numbered_frame; eauto.
  - unfold failToolCall, mbind, M_bind.
    match goal with |- context [updateToolCall ?a ?b ?c s] =>
      destruct (updateToolCall_keys a b c s) as (Hk & Hc & _);
      destruct (updateToolCall a b c s) as [[] s1] end.
    cbn in Hk, Hc |- *. eapply numbered_frame; eauto.
  - rewrite cancelSessionToolCalls_eq by now apply managed_wf.
    cbn [snd]. apply (numbered_sub s); [assumption|..|reflexivity];
      cbn [activeToolCalls].
    + intros k Hin. unfold keys in *. apply in_map_iff in Hin as (e & <- & Hin).
      apply filter_In in Hin as [Hin _]. now apply in_map.
    + apply filter_length_le.
  - split; cbn; [contradiction|lia].
  - apply (numbered_sub s); [assumption|..|reflexivity]; cbn.
    + intros k. apply keys_delete_incl.
    + apply length_delete_le.
  - exact IH.
Qed.

(** A manager with two calls tracked, of two sessions. *)
Definition twoCalls : State :=
  snd (reportToolCall "T" "grep" (demoOptions "b")
         (snd (reportToolCall "S" "read_file" (demoOptions "a")
                 (initial None 1700000000000)))).

Lemma twoCalls_managed : managed twoCalls.
Proof. apply managed_report, managed_report, managed_initial. Defined.

(** X11. [reportToolCall] never reuses the id of a call the manager still
    tracks, even for the same tool within the same millisecond: the id it
    returns is new to the map, the call is tracked under it afterwards with
    the session, tool name and status given (pending by default), every
    other tracked call is left as it was, and one [tool_call] notification
    carrying that id is sent to the session. *)
Theorem reportToolCall_tracks_fresh_id sessionId toolName options s :
  managed s ->
  let id := fst (reportToolCall sessionId toolName options s) in
  let s' := snd (reportToolCall sessionId toolName options s) in
  getToolCallInfo id s = None
  /\ (exists info,
        getToolCallInfo id s' = Some info
        /\ info_toolCallId info = id
        /\ info_sessionId info = sessionId
        /\ info_toolName info = toolName
        /\ info_status info = default pending (ro_status options)
        /\ endTime info = None)
  /\ (forall other, other <> id ->
        getToolCallInfo other s' = getToolCallInfo other s)
  /\ (exists n,
        trace s' = (trace s ++ [Notify n])%list
        /\ sessionUpdate n = tool_call
        /\ params_sessionId n = sessionId
        /\ toolCallId (update_fields n) = id
        /\ status (update_fields n) = Some (default pending (ro_status options))).
Proof.
  intros Hm. rewrite reportToolCall_eq. cbv zeta. cbn [fst snd].
  unfold getToolCallInfo. cbn [activeToolCalls trace].
  split; [|split; [|split]].
  - apply get_None_keys. intros Hin.
    destruct (managed_numbered s Hm) as [Hnum _].
    destruct (Hnum _ Hin) as (c & Hc & Hle).
    rewrite afterLast_makeId in Hc. apply (inj pretty) in Hc. lia.
  - eexists. split; [apply get_set_eq|]. cbn. auto.
  - intros other Hne. apply get_set_ne. congruence.
  - eexists. split; [reflexivity|]. cbn. auto.
Qed.

Lemma reportToolCall_tracks_fresh_id_witness :
  let r := reportToolCall "S" "grep" (demoOptions "c") twoCalls in
  fst r = "tool_grep_1700000000000_3"
  /\ getToolCallInfo (fst r) twoCalls = None
  /\ getToolCallInfo "tool_grep_1700000000000_2" (snd r)
     = getToolCallInfo "tool_grep_1700000000000_2" twoCalls.
Proof.
  cbv zeta.
  destruct (reportToolCall_tracks_fresh_id "S" "grep" (demoOptions "c") twoCalls
              twoCalls_managed) as (Hfresh & _ & Hothers & _).
  split; [reflexivity|]. split; [exact Hfresh|].
  apply Hothers. vm_compute. discriminate.
Defined.

(** ** Metrics *)

Definition countsTotal (c : StatusCounts) : nat :=
  (count_pending c + count_in_progress c + count_completed c + count_failed c)%nat.

Lemma countsTotal_fold (l : list ToolCallInfo) : forall c,
  countsTotal (fold_left (fun c tc => countStatus c (info_status tc)) l c)
  = (countsTotal c + length l)%nat.
Proof.
  induction l as [|tc l IH]; intros c; cbn [fold_left length]; [lia|].
  rewrite IH. unfold countsTotal, countStatus.
  destruct (info_status tc); cbn; lia.
Qed.

(** X12. In every state of a manager the four status counts [getMetrics]
    reports add up to its [activeToolCalls], and [activeToolCalls] is at
    most [totalToolCalls]. *)
Theorem getMetrics_consistent s :
  managed s ->
  let m := getMetrics s in
  (count_pending (statusCounts m) + count_in_progress (statusCounts m)
   + count_completed (statusCounts m) + count_failed (statusCounts m))%nat
  = metrics_activeToolCalls m
  /\ (metrics_activeToolCalls m <= totalToolCalls m)%nat.
Proof.
  intros Hm. cbv zeta. split.
  - unfold getMetrics. cbn [statusCounts metrics_activeToolCalls].
    pose proof (countsTotal_fold (values (activeToolCalls s))
                  {| count_pending := 0; count_in_progress := 0;
                     count_completed := 0; count_failed := 0 |}) as H.
    unfold countsTotal in H at 1. rewrite H. unfold values, size.
    now rewrite length_map.
  - apply (managed_numbered s Hm).
Qed.

Lemma getMetrics_consistent_witness :
  let m := getMetrics twoCalls in
  count_pending (statusCounts m) = 2%nat
  /\ metrics_activeToolCalls m = 2%nat
  /\ (metrics_activeToolCalls m <= totalToolCalls m)%nat.
Proof.
  cbv zeta. destruct (getMetrics_consistent twoCalls twoCalls_managed) as [_ Hle].
  split; [reflexivity|]. split; [reflexivity|exact Hle].
Defined.

(** ** Finishing a call *)

Lemma get_delete_eq {V} (k : string) (m : list (string * V)) :
  NoDup (keys m) -> get k (delete k m) = None.
Proof.
  intros Hnd. rewrite delete_filter by exact Hnd.
  apply get_None_keys. intros Hin. unfold keys in Hin.
  apply in_map_iff in Hin as ([k' v] & Hk & Hin). cbn in Hk. subst k'.
  apply filter_In in Hin as [_ Hf]. cbn in Hf.
  now rewrite bool_decide_eq_true_2 in Hf.
Qed.

Lemma updateToolCall_tracked_fields sessionId id updates s info :
  get id (activeToolCalls s) = Some info ->
  exists info',
    updateToolCall sessionId id updates s
    = (tt, {| activeToolCalls := set id info' (activeToolCalls s);
              toolCallCounter := toolCallCounter s;
              requestPermission := requestPermission s;
              now := now s; timers := timers s;
              trace := (trace s
                        ++ [Notify {| method := "session/update";
                                      params_sessionId := sessionId;
                                      sessionUpdate := tool_call_update;
                                      update_fields :=
                                        {| toolCallId := id;
                                           title := up_title updates;
                                           kind := None;
                                           status := up_status updates;
                                           rawInput := None;
                                           locations := up_locations updates;
                                           content := up_content updates;
                                           rawOutput := up_rawOutput updates |} |}])%list |})
    /\ info_toolCallId info' = info_toolCallId info
    /\ info_sessionId info' = info_sessionId info
    /\ info_toolName info' = info_toolName info
    /\ info_status info' = default (info_status info) (up_status updates)
    /\ startTime info' = startTime info
    /\ endTime info' = match up_status updates with
                       | Some st => if isTerminal st then Some (now s)
                                    else endTime info
                       | None => endTime info
                       end
    /\ kind (update info') = kind (update info)
    /\ rawInput (update info') = rawInput (update info)
    /\ title (update info') = override (up_title updates) (title (update info))
    /\ status (update info') = override (up_status updates) (status (update info))
    /\ content (update info') = override (up_content updates) (content (update info))
    /\ rawOutput (update info')
       = override (up_rawOutput updates) (rawOutput (update info)).
Proof.
  intros Hget. unfold updateToolCall. unfold_m. rewrite Hget.
  eexists. split; [reflexivity|]. cbn. repeat split; reflexivity.
Qed.

(** X13. [completeToolCall] on a tracked call sends one [tool_call_update]
    with status completed and the title, content and raw output given, and
    keeps the call in the map, completed and with its end time set, its
    kind, raw input and start time as they were. The call stays there
    until the timer armed for 30 seconds later fires; that removes this
    call and no other. *)
Theorem completeToolCall_keeps_call_until_timer sessionId id options s info :
  managed s ->
  getToolCallInfo id s = Some info ->
  let s' := snd (completeToolCall sessionId id options s) in
  let s'' := snd (timerFires id s') in
  (exists info',
     getToolCallInfo id s' = Some info'
     /\ info_status info' = completed
     /\ endTime info' = Some (now s)
     /\ startTime info' = startTime info
     /\ info_sessionId info' = info_sessionId info
     /\ kind (update info') = kind (update info)
     /\ rawInput (update info') = rawInput (update info)
     /\ status (update info') = Some completed
     /\ rawOutput (update info')
        = override (co_rawOutput options) (rawOutput (update info)))
  /\ trace s'
     = (trace s
        ++ [Notify {| method := "session/update";
                      params_sessionId := sessionId;
                      sessionUpdate := tool_call_update;
                      update_fields :=
                        {| toolCallId := id;
                           title := co_title options;
                           kind := None;
                           status := Some completed;
                           rawInput := None;
                           locations := None;
                           content := co_content options;
                           rawOutput := co_rawOutput options |} |}])%list
  /\ timers s' = (timers s ++ [(now s + 30000, id)])%list
  /\ getToolCallInfo id s'' = None
  /\ (forall other, other <> id ->
        getToolCallInfo other s'' = getToolCallInfo other s)
  /\ trace s'' = trace s'.
Proof.
  unfold getToolCallInfo. intros Hm Hget. cbv zeta.
  destruct (updateToolCall_tracked_fields sessionId id
              {| up_title := co_title options; up_status := Some completed;
                 up_content := co_content options; up_locations := None;
                 up_rawOutput := co_rawOutput options |} s info Hget)
    as (info' & Hupd & Hid & Hsess & Hname & Hst & Hstart & Hend & Hkind & Hraw
        & Htitle & Hstatus & Hcontent & Hout).
  cbn [up_title up_status up_content up_locations up_rawOutput isTerminal
       override] in *.
  change (default (info_status info) (Some completed)) with completed in Hst.
  assert (Heq : snd (completeToolCall sessionId id options s)
                = {| activeToolCalls := set id info' (activeToolCalls s);
                     toolCallCounter := toolCallCounter s;
                     requestPermission := requestPermission s;
                     now := now s;
                     timers := (timers s ++ [(now s + 30000, id)])%list;
                     trace := (trace s
                               ++ [Notify {| method := "session/update";
                                             params_sessionId := sessionId;
                                             sessionUpdate := tool_call_update;
                                             update_fields :=
                                               {| toolCallId := id;
                                                  title := co_title options;
                                                  kind := None;
                                                  status := Some completed;
                                                  rawInput := None;
                                                  locations := None;
                                                  content := co_content options;
                                                  rawOutput := co_rawOutput options |} |}])%list |}).
  { unfold completeToolCall. unfold mbind, M_bind. rewrite Hupd. reflexivity. }
  rewrite Heq. unfold timerFires. unfold_m.
  cbn [snd fst activeToolCalls timers trace now].
  split; [|split; [reflexivity|split; [reflexivity|split; [|split]]]].
  - exists info'. rewrite get_set_eq. repeat split; assumption.
  - rewrite delete_set. apply get_delete_eq, (managed_wf s Hm).
  - intros other Hne. rewrite delete_set. rewrite get_delete_ne by congruence.
    reflexivity.
  - reflexivity.
Qed.

Lemma completeToolCall_keeps_call_until_timer_witness :
  let id := "tool_grep_1700000000000_2" in
  let s' := snd (completeToolCall "T" id
                   {| co_title := None; co_content := None; co_rawOutput := None |}
                   twoCalls) in
  option_map info_status (getToolCallInfo id s') = Some completed
  /\ getToolCallInfo id (snd (timerFires id s')) = None.
Proof.
  cbv zeta.
  destruct (getToolCallInfo "tool_grep_1700000000000_2" twoCalls) as [info|] eqn:Hget;
    [|vm_compute in Hget; discriminate].
  destruct (completeToolCall_keeps_call_until_timer "T" "tool_grep_1700000000000_2"
              {| co_title := None; co_content := None; co_rawOutput := None |}
              twoCalls info twoCalls_managed Hget)
    as ((info' & Hinfo & Hst & _) & _ & _ & Hgone & _).
  split; [|exact Hgone]. rewrite Hinfo. cbn. now rewrite Hst.
Defined.

End ToolCallManagerFacts.

(* ================================================================== *)
(** * Facts about the tool registry *)
(* ================================================================== *)

Module ToolRegistryFacts.
Import Js JsMap JsMapFacts ToolCallManager ToolCallManagerFacts ToolRegistry.

(** The [tool_call_update] notification [updateToolCall] sends. *)
Definition updateNote (sessionId id : string) (updates : Updates) : AcpNotification :=
  {| method := "session/update";
     params_sessionId := sessionId;
     sessionUpdate := tool_call_update;
     update_fields :=
       {| toolCallId := id;
          title := up_title updates;
          kind := None;
          status := up_status updates;
          rawInput := None;
          locations := up_locations updates;
          content := up_content updates;
          rawOutput := up_rawOutput updates |} |}.

Definition tracked (id : string) (s : State) : Prop :=
  get id (activeToolCalls s) <> None.




Lemma reportToolCall_tracked sessionId toolName options s :
  exists id s' n,
    reportToolCall sessionId toolName options s = (id, s')
    /\ trace s' = (trace s ++ [Notify n])%list
    /\ tracked id s' /\ now s' = now s
    /\ String.eqb id "" = false
    /\ sessionUpdate n = tool_call
    /\ params_sessionId n = sessionId
    /\ toolCallId (update_fields n) = id
    /\ status (update_fields n) = Some (default pending (ro_status options))
    /\ kind (update_fields n) = Some (ro_kind options)
    /\ title (update_fields n) = Some (ro_title options)
    /\ locations (update_fields n) = ro_locations options.
Proof.
  unfold reportToolCall, generateToolCallId. unfold_m.
  do 3 eexists. split; [reflexivity|]. cbn [trace activeToolCalls now].
  split; [reflexivity|]. split.
  { unfold tracked. cbn [activeToolCalls]. rewrite get_set_eq. discriminate. }
  repeat split; reflexivity.
Qed.




(** A registry with one tool, [read_file], whose handler succeeds. *)
Definition readFileTool : Tool :=
  {| tool_name := "read_file";
     required := ["path"];
     handler := fun _ =>
       {| elapsed := 12;
          settled := Normal {| success := true; result := JStr "hello";
                               error := None; metadata := None |} |} |}.

Definition demoRegistry (withManager : bool) : Registry :=
  {| tools := {[ "read_file" := readFileTool ]};
     toolCallManager := withManager |}.

Definition readCall : ToolCall :=
  {| call_id := "1"; name := "read_file";
     parameters := JObj {[ "path" := JStr "/tmp/a.txt" ]} |}.













(** C5, evaluated. [{path}] and [{files}] give one location per path;
    [{source, destination}] gives the destination only, because the
    source is looked up under [path] and [sourcePath], not [source]. *)
Theorem extractLocations_examples :
  extractLocations (JObj {[ "path" := JStr "/x" ]}) = [ {| path := JStr "/x" |} ]
  /\ extractLocations (JObj (<["source" := JStr "/a"]> {[ "destination" := JStr "/b" ]}))
     = [ {| path := JStr "/b" |} ]
  /\ extractLocations (JObj {[ "files" := JArr [JStr "/p"; JStr "/q"] ]})
     = [ {| path := JStr "/p" |}; {| path := JStr "/q" |} ]
  /\ extractLocations (JObj (<["sourcePath" := JStr "/a"]>
                               {[ "destinationPath" := JStr "/b" ]}))
     = [ {| path := JStr "/a" |}; {| path := JStr "/b" |} ]
  /\ ro_locations
       (reportOptions {| call_id := "3"; name := "move_file";
                         parameters := JObj (<["source" := JStr "/a"]>
                                               {[ "destination" := JStr "/b" ]}) |}
                      pending)
     = Some [ {| path := JStr "/b" |} ].
Proof. repeat split; vm_compute; reflexivity. Qed.

(** ** What validation accepts *)



(** ** What an execution does to the trace *)



Lemma notifications_app tr1 tr2 :
  notifications (tr1 ++ tr2)%list = (notifications tr1 ++ notifications tr2)%list.
Proof. unfold notifications. apply omap_app. Qed.









(** ** Executions that are not reported *)

(** X16. Without a session id, with an empty one, or before a manager is
    set, executing a registered tool on valid parameters sends no
    notification and leaves the manager's map, counter and timers alone:
    the only thing that happens is the call of the handler, on the
    parameters as given (plus [_sessionId] when there is one). What the
    handler returns is handed back with its [success], [result] and
    [error] unchanged; when the handler throws, the outcome is
    [success:false] with the thrown message as [error]. The metadata
    carries the tool name and no [toolCallId] of the registry's. *)
Theorem unreported_execution_passes_through (reg : Registry) (toolCall : ToolCall)
    (sessionId : option string) (tool : Tool) (s : State) :
  shouldReportToolCalls reg sessionId = false ->
  tools reg !! name toolCall = Some tool ->
  validateToolParameters tool (parameters toolCall) = None ->
  let params := paramsWithSession (parameters toolCall) sessionId in
  let out := handler tool params in
  let r := fst (executeToolWithSession reg toolCall sessionId s) in
  let s' := snd (executeToolWithSession reg toolCall sessionId s) in
  trace s' = (trace s ++ [Invoke (name toolCall) params])%list
  /\ activeToolCalls s' = activeToolCalls s
  /\ toolCallCounter s' = toolCallCounter s
  /\ timers s' = timers s
  /\ match settled out with
     | Normal res =>
         success r = success res /\ result r = result res /\ error r = error res
         /\ exists duration executedAt,
              metadata r
              = Some (withMetadata (metadata res) (name toolCall)
                        duration executedAt None)
     | Abrupt e =>
         success r = false /\ result r = JUndefined
         /\ error r = Some (errorMessage e)
         /\ exists duration executedAt,
              metadata r
              = Some (withMetadata None (name toolCall)
                        duration executedAt None)
     end.
Proof.
  intros Hreport Htool Hvalid. cbv zeta.
  unfold executeToolWithSession, onCatch, callHandler.
  unfold mbind, M_bind, getState, mret, M_ret.
  rewrite Htool, Hvalid, Hreport. cbn [andb].
  destruct (settled (handler tool (paramsWithSession (parameters toolCall) sessionId)))
    as [res|e]; cbn [fst snd trace activeToolCalls toolCallCounter timers now
                     success result error metadata].
  - repeat split; try reflexivity. do 2 eexists. reflexivity.
  - repeat split; try reflexivity. do 2 eexists. reflexivity.
Qed.

Lemma unreported_execution_passes_through_witness :
  let r := fst (executeTool (demoRegistry true) readCall (initial None 0)) in
  let s' := snd (executeTool (demoRegistry true) readCall (initial None 0)) in
  notifications (trace s') = []
  /\ success r = true
  /\ result r = JStr "hello".
Proof.
  cbv zeta.
  destruct (unreported_execution_passes_through (demoRegistry true) readCall None
              readFileTool (initial None 0) eq_refl eq_refl eq_refl)
    as (Htrace & _ & _ & _ & Hres).
  cbv zeta in Htrace, Hres. cbn [settled handler readFileTool] in Hres.
  destruct Hres as (Hs & Hr & _).
  unfold executeTool. rewrite Htrace. repeat split; assumption.
Defined.

(** ** Executions that are reported *)

(** What [updateToolCall] keeps of a tracked call, and what it sets. *)
Definition updatedFrom (info info' : ToolCallInfo) (updates : Updates) (t : Z) : Prop :=
  info_toolCallId info' = info_toolCallId info
  /\ info_sessionId info' = info_sessionId info
  /\ info_toolName info' = info_toolName info
  /\ info_status info' = default (info_status info) (up_status updates)
  /\ startTime info' = startTime info
  /\ endTime info' = match up_status updates with
                     | Some st => if isTerminal st then Some t else endTime info
                     | None => endTime info
                     end
  /\ kind (update info') = kind (update info)
  /\ rawInput (update info') = rawInput (update info).

Lemma updateToolCall_updatedFrom sessionId id updates s info :
  get id (activeToolCalls s) = Some info ->
  exists info',
    updateToolCall sessionId id updates s
    = (tt, {| activeToolCalls := set id info' (activeToolCalls s);
              toolCallCounter := toolCallCounter s;
              requestPermission := requestPermission s;
              now := now s; timers := timers s;
              trace := (trace s ++ [Notify (updateNote sessionId id updates)])%list |})
    /\ updatedFrom info info' updates (now s).
Proof.
  intros Hget.
  destruct (updateToolCall_tracked_fields sessionId id updates s info Hget)
    as (info' & Heq & H1 & H2 & H3 & H4 & H5 & H6 & H7 & H8 & _).
  exists info'. split; [exact Heq|]. unfold updatedFrom. auto 10.
Qed.

Lemma completeToolCall_updatedFrom sessionId id options s info :
  get id (activeToolCalls s) = Some info ->
  let updates := {| up_title := co_title options; up_status := Some completed;
                    up_content := co_content options; up_locations := None;
                    up_rawOutput := co_rawOutput options |} in
  exists info',
    completeToolCall sessionId id options s
    = (tt, {| activeToolCalls := set id info' (activeToolCalls s);
              toolCallCounter := toolCallCounter s;
              requestPermission := requestPermission s;
              now := now s;
              timers := (timers s ++ [(now s + 30000, id)])%list;
              trace := (trace s ++ [Notify (updateNote sessionId id updates)])%list |})
    /\ updatedFrom info info' updates (now s).
Proof.
  intros Hget updates.
  destruct (updateToolCall_updatedFrom sessionId id updates s info Hget)
    as (info' & Heq & Hfrom).
  exists info'. split; [|exact Hfrom].
  unfold completeToolCall, mbind, M_bind. fold updates. rewrite Heq. reflexivity.
Qed.

Lemma failToolCall_updatedFrom sessionId id options s info :
  get id (activeToolCalls s) = Some info ->
  let updates := {| up_title := Some (failTitle (fo_title options));
                    up_status := Some failed;
                    up_content := Some [ContentText ("Error: " +:+ fo_error options)];
                    up_locations := None;
                    up_rawOutput := fo_rawOutput options |} in
  exists info',
    failToolCall sessionId id options s
    = (tt, {| activeToolCalls := set id info' (activeToolCalls s);
              toolCallCounter := toolCallCounter s;
              requestPermission := requestPermission s;
              now := now s;
              timers := (timers s ++ [(now s + 30000, id)])%list;
              trace := (trace s ++ [Notify (updateNote sessionId id updates)])%list |})
    /\ updatedFrom info info' updates (now s).
Proof.
  intros Hget updates.
  destruct (updateToolCall_updatedFrom sessionId id updates s info Hget)
    as (info' & Heq & Hfrom).
  exists info'. split; [|exact Hfrom].
  unfold failToolCall, mbind, M_bind. fold updates. rewrite Heq. reflexivity.
Qed.




(** ** Providers *)

Lemma fold_insert_other (ts : list Tool) : forall (m : gmap string Tool) toolName,
  ~ In toolName (List.map tool_name ts) ->
  fold_left (fun m tool => <[tool_name tool := tool]> m) ts m !! toolName
  = m !! toolName.
Proof.
  induction ts as [|t ts IH]; intros m toolName Hnot; [reflexivity|].
  cbn [fold_left]. rewrite IH by (intros Hin; apply Hnot; now right).
  apply lookup_insert_ne. intros Heq. apply Hnot. now left.
Qed.

Lemma fold_insert_member (ts : list Tool) : forall (m : gmap string Tool) t,
  NoDup (List.map tool_name ts) -> In t ts ->
  fold_left (fun m tool => <[tool_name tool := tool]> m) ts m !! tool_name t
  = Some t.
Proof.
  induction ts as [|t0 ts IH]; intros m t Hnd Hin; [contradiction|].
  cbn [List.map] in Hnd. inversion Hnd as [|? ? Hnotin Hnd']; subst.
  cbn [fold_left]. destruct Hin as [->|Hin].
  - rewrite fold_insert_other.
    + apply lookup_insert_eq.
    + intros Hin. apply Hnotin, list_elem_of_In, Hin.
  - now apply IH.
Qed.

Lemma fold_delete_other (ts : list Tool) : forall (m : gmap string Tool) toolName,
  ~ In toolName (List.map tool_name ts) ->
  fold_left (fun m tool => base.delete (tool_name tool) m) ts m !! toolName
  = m !! toolName.
Proof.
  induction ts as [|t ts IH]; intros m toolName Hnot; [reflexivity|].
  cbn [fold_left]. rewrite IH by (intros Hin; apply Hnot; now right).
  apply lookup_delete_ne. intros Heq. apply Hnot. now left.
Qed.

Lemma fold_delete_gone (ts : list Tool) : forall (m : gmap string Tool) toolName,
  m !! toolName = None ->
  fold_left (fun m tool => base.delete (tool_name tool) m) ts m !! toolName = None.
Proof.
  induction ts as [|t ts IH]; intros m toolName Hm; [exact Hm|].
  cbn [fold_left]. apply IH.
  destruct (decide (tool_name t = toolName)) as [<-|Hne].
  - apply lookup_delete_eq.
  - now rewrite lookup_delete_ne.
Qed.

Lemma fold_delete_member (ts : list Tool) : forall (m : gmap string Tool) t,
  In t ts ->
  fold_left (fun m tool => base.delete (tool_name tool) m) ts m !! tool_name t
  = None.
Proof.
  induction ts as [|t0 ts IH]; intros m t Hin; [contradiction|].
  cbn [fold_left]. destruct Hin as [->|Hin].
  - apply fold_delete_gone, lookup_delete_eq.
  - now apply IH.
Qed.

(** X18. After [registerProvider], each tool of the provider is found
    under its name (the provider's tools having distinct names), the
    provider is listed, and a tool under any other name is what it was
    before, found or not. *)
Theorem registerProvider_registers_tools (provider : ToolProvider) (r : Providers) :
  NoDup (List.map tool_name (getTools provider)) ->
  let r' := registerProvider provider r in
  (forall tool, In tool (getTools provider) ->
     getTool (tool_name tool) r' = Some tool
     /\ hasTool (tool_name tool) r' = true)
  /\ (forall toolName, ~ In toolName (List.map tool_name (getTools provider)) ->
        getTool toolName r' = getTool toolName r)
  /\ get (provider_name provider) (providers r') = Some provider
  /\ toolCallManager (registry r') = toolCallManager (registry r).
Proof.
  intros Hnd. cbv zeta. unfold getTool, hasTool, registerProvider.
  cbn [registry providers withTools tools toolCallManager].
  split; [|split; [|split]].
  - intros tool Hin. rewrite fold_insert_member by assumption.
    split; [reflexivity|]. apply bool_decide_eq_true_2. eauto.
  - intros toolName Hnot. now apply fold_insert_other.
  - apply get_set_eq.
  - reflexivity.
Qed.

(** A provider with the one tool [read_file]. *)
Definition filesystemLike : ToolProvider :=
  {| provider_name := "filesystem"; getTools := [readFileTool] |}.

Definition noProviders : Providers :=
  {| providers := []; registry := {| tools := ∅; toolCallManager := false |} |}.

Lemma registerProvider_registers_tools_witness :
  getTool "read_file" (registerProvider filesystemLike noProviders)
  = Some readFileTool
  /\ getTool "write_file" (registerProvider filesystemLike noProviders) = None.
Proof.
  assert (Hnd : NoDup (List.map tool_name (getTools filesystemLike)))
    by (apply (bool_decide_unpack _); vm_compute; exact I).
  destruct (registerProvider_registers_tools filesystemLike noProviders Hnd)
    as (Hmem & Hother & _).
  split.
  - apply (Hmem readFileTool). now left.
  - rewrite Hother; [reflexivity|]. cbn. intros [H|[]]. discriminate.
Defined.

(** X19. [unregisterProvider] removes tools by name, whoever registered
    them. When two providers offer a tool of the same name and the second
    is unregistered, the first provider is still listed but its tool of
    that name is gone; a tool under a name the unregistered provider does
    not offer is what it was. *)
Theorem unregisterProvider_removes_shared_names
    (first second : ToolProvider) (tool1 tool2 : Tool) (r : Providers) :
  NoDup (keys (providers r)) ->
  provider_name first <> provider_name second ->
  In tool1 (getTools first) ->
  In tool2 (getTools second) ->
  tool_name tool1 = tool_name tool2 ->
  let r' := unregisterProvider (provider_name second)
              (registerProvider second (registerProvider first r)) in
  get (provider_name first) (providers r') = Some first
  /\ get (provider_name second) (providers r') = None
  /\ hasTool (tool_name tool1) r' = false
  /\ (forall toolName, ~ In toolName (List.map tool_name (getTools second)) ->
        getTool toolName r' = getTool toolName (registerProvider first r)).
Proof.
  intros Hnd Hne Hin1 Hin2 Hname. cbv zeta.
  unfold unregisterProvider.
  assert (Hget : get (provider_name second)
                   (providers (registerProvider second (registerProvider first r)))
                 = Some second) by apply get_set_eq.
  rewrite Hget. unfold getTool, hasTool.
  cbn [registry providers withTools tools registerProvider].
  split; [|split; [|split]].
  - rewrite delete_set.
    rewrite get_delete_ne by congruence. apply get_set_eq.
  - rewrite delete_set. apply get_delete_eq. now apply NoDup_keys_set.
  - rewrite Hname. rewrite fold_delete_member by assumption.
    apply bool_decide_eq_false_2. intros [x Hx]. discriminate.
  - intros toolName Hnot. rewrite fold_delete_other by assumption.
    now apply fold_insert_other.
Qed.

(** A second provider that also offers a tool named [read_file]. *)
Definition cursorLike : ToolProvider :=
  {| provider_name := "cursor";
     getTools := [ {| tool_name := "read_file"; required := [];
                      handler := handler readFileTool |} ] |}.

Lemma unregisterProvider_removes_shared_names_witness :
  let r' := unregisterProvider "cursor"
              (registerProvider cursorLike
                 (registerProvider filesystemLike noProviders)) in
  getProviders r' = ["filesystem"]
  /\ hasTool "read_file" r' = false.
Proof.
  cbv zeta.
  destruct (unregisterProvider_removes_shared_names filesystemLike cursorLike
              readFileTool
              {| tool_name := "read_file"; required := [];
                 handler := handler readFileTool |} noProviders)
    as (_ & _ & Hgone & _).
  - constructor.
  - discriminate.
  - now left.
  - now left.
  - reflexivity.
  - split; [reflexivity|exact Hgone].
Defined.

End ToolRegistryFacts.

(* ================================================================== *)
(** * Facts about executeWithProgress *)
(* ================================================================== *)

Module TerminalUtilsFacts.
Import Js ToolCallManager ToolCallManagerFacts ToolRegistry ToolRegistryFacts
       TerminalUtils.

Lemma updateToolCall_extends sessionId id updates s :
  exists extra,
    trace (snd (updateToolCall sessionId id updates s)) = (trace s ++ extra)%list.
Proof.
  destruct (JsMap.get id (activeToolCalls s)) as [info|] eqn:Hget.
  - destruct (updateToolCall_present sessionId id updates s info Hget)
      as (info' & -> & _).
    eexists. reflexivity.
  - rewrite updateToolCall_absent by assumption. exists []. now rewrite app_nil_r.
Qed.

Lemma completeToolCall_extends sessionId id options s :
  exists extra,
    trace (snd (completeToolCall sessionId id options s)) = (trace s ++ extra)%list.
Proof.
  unfold completeToolCall, mbind, M_bind.
  match goal with |- context [updateToolCall ?a ?b ?c s] =>
    destruct (updateToolCall_extends a b c s) as [extra H];
    destruct (updateToolCall a b c s) as [[] s1] end.
  exists extra. exact H.
Qed.

Lemma failToolCall_extends sessionId id options s :
  exists extra,
    trace (snd (failToolCall sessionId id options s)) = (trace s ++ extra)%list.
Proof.
  unfold failToolCall, mbind, M_bind.
  match goal with |- context [updateToolCall ?a ?b ?c s] =>
    destruct (updateToolCall_extends a b c s) as [extra H];
    destruct (updateToolCall a b c s) as [[] s1] end.
  exists extra. exact H.
Qed.

(** What follows the report only adds to the trace. *)
Lemma progressAwait_extends sessionId id terminal s :
  exists extra,
    trace (snd (progressAwait sessionId id terminal s)) = (trace s ++ extra)%list.
Proof.
  unfold progressAwait. unfold mbind at 1, M_bind at 1.
  match goal with |- context [updateToolCall ?a ?b ?c s] =>
    destruct (updateToolCall_extends a b c s) as [extra1 H1];
    destruct (updateToolCall a b c s) as [[] s1] end.
  cbn [snd] in H1.
  destruct (waitForExit terminal) as [exitStatus|e];
    [|exists extra1; exact H1].
  destruct (currentOutput terminal) as [outputResponse|e];
    [|exists extra1; exact H1].
  unfold mbind at 1, M_bind at 1.
  destruct (bool_decide (exitCode exitStatus = Some 0)).
  - match goal with |- context [completeToolCall ?a ?b ?c s1] =>
      destruct (completeToolCall_extends a b c s1) as [extra2 H2];
      destruct (completeToolCall a b c s1) as [[] s2] end.
    cbn [snd] in *. exists (extra1 ++ extra2)%list.
    unfold mret, M_ret. cbn [snd]. now rewrite H2, H1, app_assoc.
  - match goal with |- context [failToolCall ?a ?b ?c s1] =>
      destruct (failToolCall_extends a b c s1) as [extra2 H2];
      destruct (failToolCall a b c s1) as [[] s2] end.
    cbn [snd] in *. exists (extra1 ++ extra2)%list.
    unfold mret, M_ret. cbn [snd]. now rewrite H2, H1, app_assoc.
Qed.

(** C6, evaluated. Once the terminal exists, the first thing
    [executeWithProgress] sends is a [tool_call] with status in_progress
    and, when no title is given, the title "$ <command> <args>"; its kind
    is [edit], not [execute], although the registry's own table gives the
    tool name it reports, "execute_command", the kind [execute]. *)
Theorem executeWithProgress_initial_report (terminal : Terminal)
    (sessionId command : string) (args : list string)
    (options : ExecuteWithProgressOptions) (s : State) :
  exists n rest,
    trace (snd (executeWithProgress (Normal terminal) sessionId command args
                  options s))
    = (trace s ++ Notify n :: rest)%list
    /\ sessionUpdate n = tool_call
    /\ params_sessionId n = sessionId
    /\ status (update_fields n) = Some in_progress
    /\ title (update_fields n)
       = Some (default (defaultTitle command args) (opt_title options))
    /\ kind (update_fields n) = Some kind_edit
    /\ getToolKind "execute_command" = kind_execute.
Proof.
  unfold executeWithProgress, progressBody.
  unfold mbind at 1, M_bind at 1. unfold mbind at 1, M_bind at 1.
  match goal with |- context [reportToolCall ?a ?b ?c s] =>
    destruct (reportToolCall_tracked a b c s)
      as (id & s1 & n & -> & Htr1 & _ & _ & _ & Hn & Hsess & _ & Hst & Hk & Hti & _)
  end.
  cbv beta iota.
  destruct (progressAwait_extends sessionId id terminal s1) as [extra Hextra].
  destruct (progressAwait sessionId id terminal s1) as [r s2].
  cbn [snd] in Hextra.
  exists n, extra. split.
  - destruct r; unfold mret, M_ret; cbn [snd];
      rewrite Hextra, Htr1, <- app_assoc; reflexivity.
  - cbn in Hst, Hk, Hti. repeat split; auto.
Qed.

Definition npmTerminal : Terminal :=
  {| term_id := "term-1";
     waitForExit := Normal {| exitCode := Some 0; signal := None |};
     currentOutput := Normal {| output := "added 1 package"; truncated := false |};
     currentOutputOnError := Normal {| output := ""; truncated := false |} |}.

(** [executeWithProgress(S, "npm", ["install"])]: the three notifications
    and what each says. *)
Example executeWithProgress_npm_install :
  List.map (fun n => (sessionUpdate n, kind (update_fields n),
                      status (update_fields n), title (update_fields n),
                      content (update_fields n)))
    (notifications
       (trace (snd (executeWithProgress (Normal npmTerminal) "S" "npm" ["install"]
                      noOptions (initial None 0)))))
  = [ (tool_call, Some kind_edit, Some in_progress, Some "$ npm install", None);
      (tool_call_update, None, None, None, Some [ContentTerminal "term-1"]);
      (tool_call_update, None, Some completed,
       Some "✓ Command completed successfully",
       Some [ContentTerminal "term-1"]) ].
Proof. vm_compute. reflexivity. Qed.

(** ** How [executeWithProgress] ends *)

(** The state after the report and the update that embeds the terminal. *)
Lemma progress_reported sessionId command args options terminal s :
  let id := makeId "execute_command" (now s) (S (toolCallCounter s)) in
  exists n1 info s2,
    (toolCallId ← reportToolCall sessionId "execute_command"
       {| ro_title := default (defaultTitle command args) (opt_title options);
          ro_kind := kind_edit;
          ro_status := Some in_progress;
          ro_rawInput :=
            JObj (<["cwd" := optStr (opt_cwd options)]>
                    (<["args" := JArr (List.map JStr args)]>
                       {["command" := JStr command]}));
          ro_locations := None |};
     updateToolCall sessionId toolCallId
       {| up_title := None; up_status := None;
          up_content := Some (createTerminalContent (term_id terminal));
          up_locations := None; up_rawOutput := None |} ;;
     mret toolCallId) s
    = (id, s2)
    /\ trace s2
       = (trace s
          ++ [Notify n1;
              Notify (updateNote sessionId id
                        {| up_title := None; up_status := None;
                           up_content :=
                             Some (createTerminalContent (term_id terminal));
                           up_locations := None; up_rawOutput := None |})])%list
    /\ sessionUpdate n1 = tool_call
    /\ params_sessionId n1 = sessionId
    /\ toolCallId (update_fields n1) = id
    /\ status (update_fields n1) = Some in_progress
    /\ JsMap.get id (activeToolCalls s2) = Some info
    /\ info_status info = in_progress
    /\ endTime info = None
    /\ info_sessionId info = sessionId
    /\ timers s2 = timers s
    /\ now s2 = now s.
Proof.
  cbv zeta. set (id := makeId "execute_command" (now s) (S (toolCallCounter s))).
  unfold mbind at 1, M_bind at 1. rewrite reportToolCall_eq. cbv zeta. fold id.
  cbv beta iota. unfold mbind at 1, M_bind at 1.
  match goal with |- context [updateToolCall sessionId id ?u ?s1] =>
    set (upd := u); set (st1 := s1) end.
  match goal with st1 := {| activeToolCalls := JsMap.set id ?i _ |} |- _ =>
    set (info0 := i) in st1 end.
  assert (Hget1 : JsMap.get id (activeToolCalls st1) = Some info0)
    by (unfold st1; cbn [activeToolCalls]; apply JsMapFacts.get_set_eq).
  destruct (updateToolCall_updatedFrom sessionId id upd st1 info0 Hget1)
    as (info1 & -> & H1 & H2 & H3 & H4 & H5 & H6 & _).
  unfold mret, M_ret.
  eexists. exists info1. eexists. split; [reflexivity|].
  cbn [trace activeToolCalls timers now]. unfold st1. cbn [trace timers now].
  rewrite <- app_assoc. split; [reflexivity|].
  rewrite JsMapFacts.get_set_eq. cbn in H4, H6, H2. rewrite H4, H6, H2.
  repeat split; reflexivity.
Qed.

(** X26. When the command runs to its end, [executeWithProgress] returns
    its output, exit code, signal and truncation flag, and closes the tool
    call it opened: three notifications in all for that call, the last one
    with status completed when the exit code is 0 and failed otherwise
    (also when there is no exit code, the process having been killed by a
    signal). The manager keeps the call, with that status and an end time. *)
Theorem executeWithProgress_closes_the_call (terminal : Terminal)
    (sessionId command : string) (args : list string)
    (options : ExecuteWithProgressOptions) (s : State)
    (exitStatus : WaitForTerminalExitResponse)
    (outputResponse : TerminalOutputResponse) :
  waitForExit terminal = Normal exitStatus ->
  currentOutput terminal = Normal outputResponse ->
  let r := fst (executeWithProgress (Normal terminal) sessionId command args
                  options s) in
  let s' := snd (executeWithProgress (Normal terminal) sessionId command args
                   options s) in
  let id := makeId "execute_command" (now s) (S (toolCallCounter s)) in
  let final := if bool_decide (exitCode exitStatus = Some 0)
               then completed else failed in
  r = Normal {| res_output := output outputResponse;
                res_exitCode := exitCode exitStatus;
                res_signal := signal exitStatus;
                res_truncated := truncated outputResponse |}
  /\ (exists n1 n2 n3,
        trace s' = (trace s ++ [Notify n1; Notify n2; Notify n3])%list
        /\ Forall (fun n => toolCallId (update_fields n) = id
                            /\ params_sessionId n = sessionId) [n1; n2; n3]
        /\ status (update_fields n1) = Some in_progress
        /\ content (update_fields n2) = Some [ContentTerminal (term_id terminal)]
        /\ status (update_fields n2) = None
        /\ status (update_fields n3) = Some final
        /\ content (update_fields n3)
           = Some (if bool_decide (exitCode exitStatus = Some 0)
                   then [ContentTerminal (term_id terminal)]
                   else [ContentText
                           ("Error: Command exited with code "
                              +:+ exitCodeText (exitCode exitStatus)
                              +:+ match signal exitStatus with
                                  | Some sg => if String.eqb sg "" then ""
                                               else " (signal: " +:+ sg +:+ ")"
                                  | None => ""
                                  end)]))
  /\ (exists info,
        getToolCallInfo id s' = Some info
        /\ info_status info = final
        /\ endTime info = Some (now s)).
Proof.
  intros Hwait Hout. cbv zeta.
  set (id := makeId "execute_command" (now s) (S (toolCallCounter s))).
  destruct (executeWithProgress (Normal terminal) sessionId command args options s)
    as [r s'] eqn:Hexec.
  cbn [fst snd].
  unfold executeWithProgress, progressBody, progressAwait in Hexec.
  rewrite Hwait, Hout in Hexec.
  destruct (progress_reported sessionId command args options terminal s)
    as (n1 & info & s2 & Hrep & Htr2 & Hn1 & Hs1 & Hid1 & Hst1 & Hget2 & _ & _ & _
        & _ & Hnow2).
  cbv zeta in Hrep. fold id in Hrep, Htr2, Hid1, Hget2.
  unfold mbind, M_bind, mret, M_ret in Hrep, Hexec.
  destruct (reportToolCall sessionId "execute_command" _ s) as [id0 s1] eqn:Hreport.
  cbv beta iota in Hrep, Hexec.
  destruct (updateToolCall sessionId id0 _ s1) as [[] s2'] eqn:Hupdate.
  injection Hrep as -> ->.
  destruct (bool_decide (exitCode exitStatus = Some 0)) eqn:Hcode.
  - match type of Hexec with context [completeToolCall sessionId id ?c s2] =>
      destruct (completeToolCall_updatedFrom sessionId id c s2 info Hget2)
        as (info' & Hc & Hfrom) end.
    rewrite Hc in Hexec. injection Hexec as <- <-.
    split; [reflexivity|]. split.
    + do 3 eexists. cbn [trace]. rewrite Htr2, <- app_assoc. cbn [app].
      split; [reflexivity|]. split; [repeat constructor; auto|].
      repeat split; auto.
    + exists info'. unfold getToolCallInfo. cbn [activeToolCalls].
      rewrite JsMapFacts.get_set_eq.
      destruct Hfrom as (_ & _ & _ & H4 & _ & H6 & _).
      cbn in H4, H6. rewrite H4, H6, Hnow2. auto.
  - match type of Hexec with context [failToolCall sessionId id ?c s2] =>
      destruct (failToolCall_updatedFrom sessionId id c s2 info Hget2)
        as (info' & Hc & Hfrom) end.
    rewrite Hc in Hexec. injection Hexec as <- <-.
    split; [reflexivity|]. split.
    + do 3 eexists. cbn [trace]. rewrite Htr2, <- app_assoc. cbn [app].
      split; [reflexivity|]. split; [repeat constructor; auto|].
      repeat split; auto.
    + exists info'. unfold getToolCallInfo. cbn [activeToolCalls].
      rewrite JsMapFacts.get_set_eq.
      destruct Hfrom as (_ & _ & _ & H4 & _ & H6 & _).
      cbn in H4, H6. rewrite H4, H6, Hnow2. auto.
Qed.

(** A command killed by a signal: no exit code. *)
Definition killedTerminal : Terminal :=
  {| term_id := "term-2";
     waitForExit := Normal {| exitCode := None; signal := Some "SIGKILL" |};
     currentOutput := Normal {| output := "partial"; truncated := false |};
     currentOutputOnError := Normal {| output := ""; truncated := false |} |}.

Lemma executeWithProgress_closes_the_call_witness :
  option_map info_status
    (getToolCallInfo "tool_execute_command_0_1"
       (snd (executeWithProgress (Normal killedTerminal) "S" "sleep" ["60"]
               noOptions (initial None 0))))
  = Some failed.
Proof.
  destruct (executeWithProgress_closes_the_call killedTerminal "S" "sleep" ["60"]
              noOptions (initial None 0)
              {| exitCode := None; signal := Some "SIGKILL" |}
              {| output := "partial"; truncated := false |} eq_refl eq_refl)
    as (_ & _ & (info & Hinfo & Hst & _)).
  change (makeId "execute_command" (now (initial None 0))
            (S (toolCallCounter (initial None 0))))
    with "tool_execute_command_0_1" in Hinfo.
  rewrite Hinfo. cbn [option_map]. rewrite Hst. reflexivity.
Defined.

(** X27. When waiting for the exit or fetching the final output fails,
    [executeWithProgress] throws a [ToolError] whose message starts with
    "Terminal command failed: " and carries the error's message, and it
    does not close the tool call it opened: no notification with a final
    status is sent, the manager keeps the call as in_progress without an
    end time, and no timer is armed to forget it. *)
Theorem executeWithProgress_leaves_call_open_on_error (terminal : Terminal)
    (sessionId command : string) (args : list string)
    (options : ExecuteWithProgressOptions) (s : State) (e : Thrown) :
  waitForExit terminal = Abrupt e
  \/ ((exists exitStatus, waitForExit terminal = Normal exitStatus)
      /\ currentOutput terminal = Abrupt e) ->
  let r := fst (executeWithProgress (Normal terminal) sessionId command args
                  options s) in
  let s' := snd (executeWithProgress (Normal terminal) sessionId command args
                   options s) in
  let id := makeId "execute_command" (now s) (S (toolCallCounter s)) in
  (exists rest,
     r = Abrupt (ThrowError false
                   ("Terminal command failed: " +:+ errorMessage e +:+ rest)))
  /\ (exists n1 n2,
        trace s' = (trace s ++ [Notify n1; Notify n2])%list
        /\ status (update_fields n1) = Some in_progress
        /\ status (update_fields n2) = None)
  /\ (exists info,
        getToolCallInfo id s' = Some info
        /\ info_status info = in_progress
        /\ endTime info = None)
  /\ timers s' = timers s.
Proof.
  intros Herr. cbv zeta.
  set (id := makeId "execute_command" (now s) (S (toolCallCounter s))).
  destruct (executeWithProgress (Normal terminal) sessionId command args options s)
    as [r s'] eqn:Hexec.
  cbn [fst snd].
  unfold executeWithProgress, progressBody, progressAwait in Hexec.
  destruct (progress_reported sessionId command args options terminal s)
    as (n1 & info & s2 & Hrep & Htr2 & Hn1 & Hs1 & Hid1 & Hst1 & Hget2 & Hst2 & Hend2
        & _ & Htimers2 & Hnow2).
  cbv zeta in Hrep. fold id in Hrep, Htr2, Hid1, Hget2.
  unfold mbind, M_bind, mret, M_ret in Hrep, Hexec.
  destruct (reportToolCall sessionId "execute_command" _ s) as [id0 s1] eqn:Hreport.
  cbv beta iota in Hrep, Hexec.
  destruct (updateToolCall sessionId id0 _ s1) as [[] s2'] eqn:Hupdate.
  injection Hrep as -> ->.
  assert (Hres : (r, s') = (Abrupt (progressCatch terminal e), s2)).
  { destruct Herr as [Hwait|[[exitStatus Hwait] Hout]].
    - rewrite Hwait in Hexec. now rewrite <- Hexec.
    - rewrite Hwait, Hout in Hexec. now rewrite <- Hexec. }
  injection Hres as -> ->.
  split; [|split; [|split]].
  - unfold progressCatch. eexists. reflexivity.
  - exists n1. eexists. split; [exact Htr2|]. split; [exact Hst1|reflexivity].
  - exists info. unfold getToolCallInfo. auto.
  - exact Htimers2.
Qed.

(** The connection to the terminal is lost while waiting. *)
Definition lostTerminal : Terminal :=
  {| term_id := "term-3";
     waitForExit := Abrupt (ThrowError false "connection closed");
     currentOutput := Normal {| output := ""; truncated := false |};
     currentOutputOnError := Abrupt (ThrowError false "connection closed") |}.

Lemma executeWithProgress_leaves_call_open_on_error_witness :
  option_map info_status
    (getToolCallInfo "tool_execute_command_0_1"
       (snd (executeWithProgress (Normal lostTerminal) "S" "npm" ["test"]
               noOptions (initial None 0))))
  = Some in_progress
  /\ fst (executeWithProgress (Normal lostTerminal) "S" "npm" ["test"]
            noOptions (initial None 0))
     = Abrupt (ThrowError false "Terminal command failed: connection closed").
Proof.
  destruct (executeWithProgress_leaves_call_open_on_error lostTerminal "S" "npm"
              ["test"] noOptions (initial None 0)
              (ThrowError false "connection closed") (or_introl eq_refl))
    as (_ & _ & (info & Hinfo & Hst & _) & _).
  change (makeId "execute_command" (now (initial None 0))
            (S (toolCallCounter (initial None 0))))
    with "tool_execute_command_0_1" in Hinfo.
  rewrite Hinfo. cbn [option_map]. rewrite Hst. split; reflexivity.
Defined.

(** ** Terminals are released *)

(** Following the calls with the terminal that is open, if any: a
    creation needs none open, every other call is on the open one, and a
    release closes it. [None] when a call breaks this. *)
Fixpoint after (open : option string) (calls : list TerminalCall)
  : option (option string) :=
  match calls with
  | [] => Some open
  | CreateTerminal _ _ created :: rest =>
      match open with
      | None => after created rest
      | Some _ => None
      end
  | WaitForExit id :: rest | Kill id :: rest | CurrentOutput id :: rest =>
      match open with
      | Some id' => if String.eqb id id' then after open rest else None
      | None => None
      end
  | Release id :: rest =>
      match open with
      | Some id' => if String.eqb id id' then after None rest else None
      | None => None
      end
  end.

Lemma after_app (calls1 calls2 : list TerminalCall) : forall open,
  after open (calls1 ++ calls2)%list
  = match after open calls1 with
    | Some open' => after open' calls2
    | None => None
    end.
Proof.
  induction calls1 as [|c calls1 IH]; intros open; [reflexivity|].
  destruct c as [sid req created|id|id|id|id]; cbn [after app];
    destruct open as [id'|]; try reflexivity;
    try (destruct (String.eqb id id'); [apply IH|reflexivity]).
  apply IH.
Qed.

(** Calls on one terminal, none of them a release. *)
Definition uses (id : string) (calls : list TerminalCall) : Prop :=
  Forall (fun c => c = WaitForExit id \/ c = Kill id \/ c = CurrentOutput id) calls.

Lemma after_uses id calls : uses id calls -> after (Some id) calls = Some (Some id).
Proof.
  induction 1 as [|c calls Hc _ IH]; [reflexivity|].
  destruct Hc as [-> | [-> | ->]]; cbn [after]; now rewrite String.eqb_refl.
Qed.

Lemma after_finallyRelease {A} terminal (body : list TerminalCall * Completion A) :
  uses (handle_id terminal) (fst body) ->
  after (Some (handle_id terminal)) (fst (finallyRelease terminal body)) = Some None.
Proof.
  intros Huses. unfold finallyRelease. cbn [fst].
  rewrite after_app, (after_uses _ _ Huses). cbn. now rewrite String.eqb_refl.
Qed.

Lemma executeSimpleCommand_released terminalManager n sessionId command args options :
  after None (fst (executeSimpleCommand terminalManager n sessionId command args
                     options)) = Some None.
Proof.
  unfold executeSimpleCommand.
  destruct (terminalManager n sessionId (createRequest command args options))
    as [terminal|e]; [|reflexivity].
  cbn [fst after]. apply after_finallyRelease.
  destruct (handle_waitForExit terminal) as [exitStatus|e];
    [destruct (handle_currentOutput terminal) as [outputResponse|e]|];
    cbn [fst]; unfold uses;
    repeat (apply List.Forall_cons; [auto|]); apply List.Forall_nil.
Qed.

(** The last element of a list, if any. *)
Definition last_of {A} (l : list A) : option A := List.last (List.map Some l) None.

Lemma sequentialLoop_spec terminalManager sessionId cwd options commands :
  forall n results,
    after None (fst (sequentialLoop terminalManager sessionId cwd options
                       commands n results)) = Some None
    /\ match snd (sequentialLoop terminalManager sessionId cwd options
                    commands n results) with
       | Normal results' =>
           exists new,
             results' = (results ++ new)%list
             /\ (length new <= length commands)%nat
             /\ if default true (stopOnError options) then
                  Forall (fun r => res_exitCode r = Some 0) (removelast new)
                  /\ (length new = length commands
                      \/ exists r, last_of new = Some r
                                   /\ res_exitCode r <> Some 0)
                else length new = length commands
       | Abrupt _ => True
       end.
Proof.
  induction commands as [|cmd rest IH]; intros n results.
  - cbn. split; [reflexivity|]. exists []. rewrite app_nil_r.
    split; [reflexivity|]. split; [reflexivity|].
    destruct (default true (stopOnError options)); auto.
  - cbn [sequentialLoop].
    match goal with |- context [executeSimpleCommand ?m ?k ?s ?c ?a ?o] =>
      pose proof (executeSimpleCommand_released m k s c a o) as Hrel;
      destruct (executeSimpleCommand m k s c a o) as [calls [result|e]]
    end; cbn [fst snd] in *; [|split; [exact Hrel|exact I]].
    destruct (default true (stopOnError options)) eqn:Hstop; cbn [andb].
    + destruct (exitedNonZero result) eqn:Hexit; cbn [fst snd].
      * split; [exact Hrel|]. exists [result]. split; [reflexivity|].
        split; [cbn; lia|]. split; [constructor|]. right. exists result.
        split; [reflexivity|]. unfold exitedNonZero in Hexit.
        apply negb_true_iff, bool_decide_eq_false_1 in Hexit. exact Hexit.
      * destruct (IH (S n) (results ++ [result])%list) as [Hafter Hres].
        split; [rewrite after_app, Hrel; exact Hafter|].
        destruct (snd (sequentialLoop terminalManager sessionId cwd options rest
                         (S n) (results ++ [result])%list)) as [results'|e];
          [|exact I].
        destruct Hres as (new & -> & Hlen & Hok & Hlast).
        exists (result :: new). rewrite <- app_assoc. split; [reflexivity|].
        split; [cbn; lia|].
        assert (Hzero : res_exitCode result = Some 0).
        { unfold exitedNonZero in Hexit.
          apply negb_false_iff, bool_decide_eq_true_1 in Hexit. exact Hexit. }
        split.
        -- destruct new as [|r new]; [constructor|].
           change (removelast (result :: r :: new))
             with (result :: removelast (r :: new)).
           constructor; assumption.
        -- destruct Hlast as [Hfull|(r & Hr & Hne)].
           ++ left. cbn. lia.
           ++ right. exists r. split; [|exact Hne].
              destruct new as [|r0 new]; [discriminate|]. exact Hr.
    + destruct (IH (S n) (results ++ [result])%list) as [Hafter Hres].
      cbn [fst snd].
      split; [rewrite after_app, Hrel; exact Hafter|].
      destruct (snd (sequentialLoop terminalManager sessionId cwd options rest
                       (S n) (results ++ [result])%list)) as [results'|e];
        [|exact I].
      destruct Hres as (new & -> & Hlen & Hfull).
      exists (result :: new). rewrite <- app_assoc. split; [reflexivity|].
      split; cbn; lia.
Qed.

(** X28. [executeSequential] never leaks a terminal and never works on two
    at once: each terminal it creates is waited for, asked for its output
    and released before the next one is created, also when a step throws.
    When it returns, with [stopOnError] (the default) the results are those
    of commands that exited with code 0, followed by at most one that did
    not (an exit without a code counts as a failure), at which the loop
    stopped; without [stopOnError] there is one result per command. *)
Theorem executeSequential_releases_and_stops (terminalManager : TerminalManager)
    (n : nat) (sessionId cwd : string) (commands : list Command)
    (options : SequentialOptions) :
  let calls := fst (executeSequential terminalManager n sessionId cwd commands
                      options) in
  let outcome := snd (executeSequential terminalManager n sessionId cwd commands
                        options) in
  after None calls = Some None
  /\ match outcome with
     | Normal results =>
         (length results <= length commands)%nat
         /\ if default true (stopOnError options) then
              Forall (fun r => res_exitCode r = Some 0) (removelast results)
              /\ (length results = length commands
                  \/ exists r, last_of results = Some r
                               /\ res_exitCode r <> Some 0)
            else length results = length commands
     | Abrupt _ => True
     end.
Proof.
  cbv zeta. unfold executeSequential.
  destruct (sequentialLoop_spec terminalManager sessionId cwd options commands n [])
    as [Hafter Hres].
  split; [exact Hafter|].
  destruct (snd (sequentialLoop terminalManager sessionId cwd options commands n []))
    as [results|e]; [|exact I].
  destruct Hres as (new & -> & Hlen & Hrest). cbn [app]. split; assumption.
Qed.

(** X29. [executeWithTimeout] kills the terminal exactly when the timer
    wins the race against the exit, and reports [timedOut] exactly then;
    the exit status of a command that timed out is the one that arrives
    within 100 ms of the kill, if any. Whatever happens after the terminal
    was created (the wait, the kill or the output failing), the last call
    is the release of that terminal, and no call is made on it after. *)
Theorem executeWithTimeout_kills_on_timeout (terminalManager : TerminalManager)
    (n : nat) (sessionId command : string) (args : list string) (timeoutMs : Z)
    (options : CommandOptions) (terminal : TerminalHandle) :
  terminalManager n sessionId (createRequest command args options)
  = Normal terminal ->
  let calls := fst (executeWithTimeout terminalManager n sessionId command args
                      timeoutMs options) in
  let outcome := snd (executeWithTimeout terminalManager n sessionId command args
                        timeoutMs options) in
  after None calls = Some None
  /\ last_of calls = Some (Release (handle_id terminal))
  /\ (In (Kill (handle_id terminal)) calls
      <-> handle_race terminal timeoutMs = None)
  /\ match outcome with
     | Normal r =>
         (timedOut r = true <-> handle_race terminal timeoutMs = None)
         /\ handle_release terminal = Normal tt
         /\ (exists outputResponse,
               handle_currentOutput terminal = Normal outputResponse
               /\ tres_output r = output outputResponse)
         /\ match handle_race terminal timeoutMs with
            | Some (Normal status) =>
                tres_exitCode r = exitCode status /\ tres_signal r = signal status
            | Some (Abrupt _) => False
            | None =>
                match handle_waitAfterKill terminal with
                | Some (Normal status) =>
                    tres_exitCode r = exitCode status
                    /\ tres_signal r = signal status
                | _ => tres_exitCode r = None /\ tres_signal r = None
                end
            end
     | Abrupt _ => True
     end.
Proof.
  intros Hcreate. cbv zeta. unfold executeWithTimeout. rewrite Hcreate.
  cbn [fst snd]. unfold finallyRelease, timeoutResult.
  destruct (handle_race terminal timeoutMs) as [[status|e]|];
    [| |destruct (handle_kill terminal) as [[]|e];
        [destruct (handle_waitAfterKill terminal) as [[status|e]|]|]];
    destruct (handle_currentOutput terminal) as [outputResponse|e'];
    destruct (handle_release terminal) as [[]|e''];
    cbn [fst snd app after last_of List.map List.last];
    rewrite ?String.eqb_refl;
    (split; [reflexivity|]); (split; [reflexivity|]);
    (split; [split; [intros Hin; cbn in Hin;
                     repeat (destruct Hin as [Hin|Hin]; try discriminate);
                     try contradiction; try reflexivity
                    |intros Hnone; try discriminate; cbn; auto 10]|]);
    try exact I;
    cbn [timedOut tres_output tres_exitCode tres_signal mbind option_bind];
    (split; [split; [intros H; try discriminate; reflexivity
                    |intros H; try discriminate; reflexivity]|]);
    (split; [reflexivity|]);
    (split; [eexists; split; reflexivity|]);
    auto.
Qed.

(** A command that does not end in time. *)
Definition hungTerminal : TerminalHandle :=
  {| handle_id := "term-9";
     handle_waitForExit := Normal {| exitCode := None; signal := Some "SIGKILL" |};
     handle_race := fun _ => None;
     handle_kill := Normal tt;
     handle_waitAfterKill :=
       Some (Normal {| exitCode := None; signal := Some "SIGKILL" |});
     handle_currentOutput := Normal {| output := "tick"; truncated := false |};
     handle_release := Normal tt |}.

Lemma executeWithTimeout_kills_on_timeout_witness :
  fst (executeWithTimeout (fun _ _ _ => Normal hungTerminal) 0 "S" "sleep" ["10"]
         2000 {| co_cwd := None; co_outputByteLimit := None |})
  = [CreateTerminal "S" {| req_command := "sleep"; req_args := ["10"];
                           req_cwd := None; req_outputByteLimit := None |}
       (Some "term-9");
     WaitForExit "term-9"; Kill "term-9"; WaitForExit "term-9";
     CurrentOutput "term-9"; Release "term-9"]
  /\ In (Kill "term-9")
        (fst (executeWithTimeout (fun _ _ _ => Normal hungTerminal) 0 "S" "sleep"
                ["10"] 2000 {| co_cwd := None; co_outputByteLimit := None |})).
Proof.
  destruct (executeWithTimeout_kills_on_timeout (fun _ _ _ => Normal hungTerminal)
              0 "S" "sleep" ["10"] 2000
              {| co_cwd := None; co_outputByteLimit := None |} hungTerminal eq_refl)
    as (_ & _ & Hkill & _).
  split; [reflexivity|]. apply Hkill. reflexivity.
Defined.

End TerminalUtilsFacts.

(* ================================================================== *)
(** * Facts about the retry loops of the filesystem tools *)
(* ================================================================== *)

Module FilesystemToolsFacts.
Import Js ToolCallManager ToolRegistry FilesystemTools.

Section Loop.
Variables (raiseNow : Thrown -> bool) (once : Z -> Completion ToolResult).
Variables (retryDelay maxRetries : Z).

(** The events of iteration [a]: the delay, when it is a retry, and the
    attempt. *)
Definition iteration (a : Z) : list FsEvent :=
  ((if 0 <? a then [Delay (retryDelay * a)] else []) ++ [Attempt a])%list.

(** The events of iterations [a .. a+n]. *)
Fixpoint iterations (a : Z) (n : nat) : list FsEvent :=
  match n with
  | O => iteration a
  | S n' => (iteration a ++ iterations (a + 1) n')%list
  end.

(** Attempt [j] threw an error the loop retries. *)
Definition retried (j : Z) : Prop :=
  exists e, once j = Abrupt e /\ raiseNow e = false.

(** The loop ends with attempt [j]: it returned, threw an error that is
    raised at once, or was the last one allowed. *)
Definition final (j : Z) : Prop :=
  match once j with
  | Normal _ => True
  | Abrupt e => raiseNow e = true \/ j = maxRetries
  end.

Lemma iteration_app (tr : list FsEvent) (a : Z) :
  ((if 0 <? a then (tr ++ [Delay (retryDelay * a)])%list else tr) ++ [Attempt a])%list
  = (tr ++ iteration a)%list.
Proof.
  unfold iteration. destruct (0 <? a); [now rewrite <- app_assoc|reflexivity].
Qed.

Lemma retryLoop_run :
  forall (n : nat) (a : Z) (tr : list FsEvent) (fuel : nat) (lastError : option Thrown),
    0 <= a ->
    a + Z.of_nat n <= maxRetries ->
    fuel = Z.to_nat (maxRetries + 1 - a) ->
    (forall j, a <= j < a + Z.of_nat n -> retried j) ->
    final (a + Z.of_nat n) ->
    retryLoop raiseNow once retryDelay maxRetries fuel a lastError tr
    = ((tr ++ iterations a n)%list, once (a + Z.of_nat n)).
Proof.
  induction n as [|n IH]; intros a tr fuel lastError Ha Hle Hfuel Hretried Hfinal.
  - rewrite Z.add_0_r in *.
    assert (Hf : exists f, fuel = S f).
    { exists (Z.to_nat (maxRetries - a)). rewrite Hfuel, <- Z2Nat.inj_succ by lia.
      f_equal. lia. }
    destruct Hf as [f ->]. cbn [retryLoop iterations]. rewrite iteration_app.
    unfold final in Hfinal. destruct (once a) as [r|e]; [reflexivity|].
    destruct Hfinal as [-> | ->]; [reflexivity|].
    destruct (raiseNow e); [reflexivity|]. now rewrite Z.eqb_refl.
  - assert (Hf : exists f, fuel = S f /\ f = Z.to_nat (maxRetries + 1 - (a + 1))).
    { exists (Z.to_nat (maxRetries - a)). split.
      - rewrite Hfuel, <- Z2Nat.inj_succ by lia. f_equal. lia.
      - f_equal. lia. }
    destruct Hf as (f & -> & Hf). cbn [retryLoop iterations]. rewrite iteration_app.
    destruct (Hretried a ltac:(lia)) as (e & -> & ->).
    assert (Hne : (a =? maxRetries) = false) by (apply Z.eqb_neq; lia).
    rewrite Hne.
    rewrite (IH (a + 1)); try assumption; try lia.
    + rewrite <- app_assoc. do 2 f_equal. lia.
    + intros j Hj. apply Hretried. lia.
    + replace (a + 1 + Z.of_nat n) with (a + Z.of_nat (S n)) by lia. exact Hfinal.
Qed.



End Loop.


Definition defaults : FileSystemConfig := {| retries := None; retryDelay := None |}.






(** ** The handlers as the provider binds them *)

Lemma retryLoop_first_returns (raiseNow : Thrown -> bool)
    (once : Z -> Completion ToolResult) (retryDelay maxRetries : Z) (r : ToolResult) :
  0 <= maxRetries -> once 0 = Normal r ->
  retryLoop raiseNow once retryDelay maxRetries (Z.to_nat (maxRetries + 1)) 0 None []
  = ([Attempt 0], Normal r).
Proof.
  intros Hmax Honce.
  rewrite (retryLoop_run raiseNow once retryDelay maxRetries 0 0).
  - cbn [iterations]. now rewrite Z.add_0_r, Honce.
  - lia.
  - cbn. lia.
  - f_equal. lia.
  - intros j Hj. lia.
  - unfold final. now rewrite Z.add_0_r, Honce.
Qed.

(** Each handler makes one attempt and hands back its result. *)
Lemma fs_handlers_once (p : FilesystemToolProvider) (params : JsVal) :
  0 <= maxRetriesOf (fsConfig p) ->
  readFileHandler p params
  = ([Attempt 0],
     Normal (snd (_readFileOnce (fileSystemClient p 0) (operationId p) params)))
  /\ writeFileHandler p params
     = ([Attempt 0],
        Normal (snd (_writeFileOnce (fileSystemClient p 0) (operationId p) params))).
Proof.
  intros Hmax. unfold readFileHandler, writeFileHandler, readFile, writeFile.
  split; now apply retryLoop_first_returns.
Qed.


(** A client whose connection always fails with a reset. *)
Definition resetConnection : ClientConnection :=
  {| connection_readTextFile := fun _ =>
       Abrupt (ThrowError false "socket hang up (ECONNRESET)");
     connection_writeTextFile := fun _ =>
       Abrupt (ThrowError false "socket hang up (ECONNRESET)") |}.

Definition bothCapabilities : option ClientCapabilities :=
  Some {| fs := Some {| cap_readTextFile := true; cap_writeTextFile := true |} |}.

Definition resetProvider : FilesystemToolProvider :=
  {| enabled := true; fsConfig := defaults;
     clientCapabilities := bothCapabilities;
     fileSystemClient := fun _ => AcpFileSystemClient resetConnection;
     operationId := None;
     handlerTime := fun _ => 5 |}.



(** ** What reaches the client *)





(** ** Through the registry *)

(** The tools [getTools] can offer. *)
Definition readTool (p : FilesystemToolProvider) : Tool :=
  {| tool_name := "read_file"; required := ["path"];
     handler := fun params =>
       {| elapsed := handlerTime p params;
          settled := snd (readFileHandler p params) |} |}.

Definition writeTool (p : FilesystemToolProvider) : Tool :=
  {| tool_name := "write_file"; required := ["path"; "content"];
     handler := fun params =>
       {| elapsed := handlerTime p params;
          settled := snd (writeFileHandler p params) |} |}.

(** Whether the provider offers a tool for reading, for writing. *)
Definition offersRead (p : FilesystemToolProvider) : bool :=
  enabled p
  && match clientCapabilities p with
     | Some {| fs := Some c |} => cap_readTextFile c
     | _ => false
     end.

Definition offersWrite (p : FilesystemToolProvider) : bool :=
  enabled p
  && match clientCapabilities p with
     | Some {| fs := Some c |} => cap_writeTextFile c
     | _ => false
     end.

Lemma fsTools_eq (p : FilesystemToolProvider) :
  fsTools p = ((if offersRead p then [readTool p] else [])
               ++ (if offersWrite p then [writeTool p] else []))%list.
Proof.
  unfold fsTools, offersRead, offersWrite.
  destruct (enabled p); cbn [negb andb]; [|reflexivity].
  destruct (clientCapabilities p) as [[[c|]]|]; reflexivity.
Qed.

Lemma fsTools_In (p : FilesystemToolProvider) (tool : Tool) :
  In tool (fsTools p) <->
  (offersRead p = true /\ tool = readTool p)
  \/ (offersWrite p = true /\ tool = writeTool p).
Proof.
  rewrite fsTools_eq, in_app_iff.
  destruct (offersRead p), (offersWrite p); cbn; intuition congruence.
Qed.

Lemma fsTools_names (p : FilesystemToolProvider) (toolName : string) :
  In toolName (List.map tool_name (fsTools p)) <->
  (offersRead p = true /\ toolName = "read_file")
  \/ (offersWrite p = true /\ toolName = "write_file").
Proof.
  rewrite fsTools_eq, map_app, in_app_iff.
  destruct (offersRead p), (offersWrite p); cbn; intuition congruence.
Qed.

Lemma fsTools_NoDup (p : FilesystemToolProvider) :
  NoDup (List.map tool_name (fsTools p)).
Proof.
  rewrite fsTools_eq. destruct (offersRead p), (offersWrite p); cbn;
    apply (bool_decide_unpack _); vm_compute; exact I.
Qed.

Lemma is_Some_decide {A} (o : option A) :
  bool_decide (is_Some o) = match o with Some _ => true | None => false end.
Proof.
  destruct o.
  - apply bool_decide_eq_true_2. eauto.
  - apply bool_decide_eq_false_2. intros [x Hx]. discriminate.
Qed.

(** X23. When the registry holds the file system provider's tools, what
    it can do with them follows what the client advertised: after
    [registerProvider], [read_file] is available exactly when the provider
    is enabled and the client advertises [fs.readTextFile], and
    [write_file] exactly when it is enabled and the client advertises
    [fs.writeTextFile] (no tool of either name being registered before);
    every other tool is as before. *)
Theorem filesystem_tools_follow_capabilities (p : FilesystemToolProvider)
    (r : Providers) :
  hasTool "read_file" r = false ->
  hasTool "write_file" r = false ->
  let r' := registerProvider (asToolProvider p) r in
  hasTool "read_file" r' = offersRead p
  /\ hasTool "write_file" r' = offersWrite p
  /\ (offersRead p = true -> getTool "read_file" r' = Some (readTool p))
  /\ (offersWrite p = true -> getTool "write_file" r' = Some (writeTool p))
  /\ (forall toolName, toolName <> "read_file" -> toolName <> "write_file" ->
        getTool toolName r' = getTool toolName r)
  /\ In "filesystem" (getProviders r').
Proof.
  intros Hread Hwrite. cbv zeta.
  unfold hasTool in Hread, Hwrite. rewrite is_Some_decide in Hread, Hwrite.
  assert (Hr : tools (registry r) !! "read_file" = None)
    by (destruct (tools (registry r) !! "read_file"); [discriminate|reflexivity]).
  assert (Hw : tools (registry r) !! "write_file" = None)
    by (destruct (tools (registry r) !! "write_file"); [discriminate|reflexivity]).
  clear Hread Hwrite.
  assert (Hgr : offersRead p = true ->
                getTool "read_file" (registerProvider (asToolProvider p) r)
                = Some (readTool p)).
  { intros Ho. unfold getTool, registerProvider.
    cbn [registry withTools tools asToolProvider getTools].
    apply (ToolRegistryFacts.fold_insert_member (fsTools p) _ (readTool p)
             (fsTools_NoDup p)).
    apply fsTools_In. now left. }
  assert (Hgw : offersWrite p = true ->
                getTool "write_file" (registerProvider (asToolProvider p) r)
                = Some (writeTool p)).
  { intros Ho. unfold getTool, registerProvider.
    cbn [registry withTools tools asToolProvider getTools].
    apply (ToolRegistryFacts.fold_insert_member (fsTools p) _ (writeTool p)
             (fsTools_NoDup p)).
    apply fsTools_In. now right. }
  assert (Hother : forall toolName,
            ~ In toolName (List.map tool_name (fsTools p)) ->
            getTool toolName (registerProvider (asToolProvider p) r)
            = getTool toolName r).
  { intros toolName Hnot. unfold getTool, registerProvider.
    cbn [registry withTools tools asToolProvider getTools].
    now apply ToolRegistryFacts.fold_insert_other. }
  assert (Hhas : forall toolName,
            hasTool toolName (registerProvider (asToolProvider p) r)
            = match getTool toolName (registerProvider (asToolProvider p) r) with
              | Some _ => true
              | None => false
              end)
    by (intros toolName; unfold hasTool, getTool; apply is_Some_decide).
  split; [|split; [|split; [exact Hgr|split; [exact Hgw|split]]]].
  - rewrite Hhas. destruct (offersRead p) eqn:Ho; [now rewrite Hgr|].
    rewrite Hother; [unfold getTool; now rewrite Hr|].
    rewrite fsTools_names. intros [[H _]|[_ H]]; congruence.
  - rewrite Hhas. destruct (offersWrite p) eqn:Ho; [now rewrite Hgw|].
    rewrite Hother; [unfold getTool; now rewrite Hw|].
    rewrite fsTools_names. intros [[_ H]|[H _]]; congruence.
  - intros toolName H1 H2. apply Hother.
    rewrite fsTools_names. intros [[_ H]|[_ H]]; congruence.
  - unfold getProviders, registerProvider. cbn [providers asToolProvider provider_name].
    apply (in_map fst _ ("filesystem", asToolProvider p)).
    apply JsMapFacts.get_Some_In, JsMapFacts.get_set_eq.
Qed.

(** A provider whose client offers reading only. *)
Definition readOnlyProvider : FilesystemToolProvider :=
  {| enabled := true; fsConfig := defaults;
     clientCapabilities :=
       Some {| fs := Some {| cap_readTextFile := true;
                             cap_writeTextFile := false |} |};
     fileSystemClient := fun _ => AcpFileSystemClient resetConnection;
     operationId := None;
     handlerTime := fun _ => 5 |}.

Definition emptyRegistry : Providers :=
  {| providers := []; registry := {| tools := ∅; toolCallManager := false |} |}.

Lemma filesystem_tools_follow_capabilities_witness :
  hasTool "read_file" (registerProvider (asToolProvider readOnlyProvider) emptyRegistry)
  = true
  /\ hasTool "write_file"
       (registerProvider (asToolProvider readOnlyProvider) emptyRegistry)
     = false.
Proof.
  destruct (filesystem_tools_follow_capabilities readOnlyProvider emptyRegistry
              eq_refl eq_refl) as (Hr & Hw & _).
  split; [exact Hr|exact Hw].
Defined.




(** X25. With a session, the request the client's connection gets carries
    the session id the registry injected, whatever [_sessionId] the caller
    put in the parameters, and the path as given. When the connection
    answers, the handler returns [success:true] with that content; when it
    fails, the handler returns [success:false] and the error reads
    "File system read operation failed for '<path>': Failed to read file
    '<path>': <the connection's message>". *)
Theorem read_file_carries_injected_session (p : FilesystemToolProvider)
    (connection : ClientConnection) (fields : gmap string JsVal)
    (sessionId path : string) :
  0 <= maxRetriesOf (fsConfig p) ->
  fileSystemClient p 0 = AcpFileSystemClient connection ->
  sessionId <> "" ->
  fields !! "path" = Some (JStr path) ->
  path <> "" ->
  fields !! "line" = None ->
  fields !! "limit" = None ->
  let params := paramsWithSession (JObj fields) (Some sessionId) in
  let options := {| read_sessionId := JStr sessionId; read_path := path;
                    read_line := None; read_limit := None |} in
  fst (_readFileOnce (fileSystemClient p 0) (operationId p) params)
  = [CallReadTextFile options]
  /\ exists r,
       settled (handler (readTool p) params) = Normal r
       /\ match connection_readTextFile connection options with
          | Normal content =>
              success r = true
              /\ Js.get (result r) "content" = JStr content
              /\ Js.get (Js.get (result r) "_meta") "sessionId" = JStr sessionId
          | Abrupt e =>
              success r = false
              /\ error r
                 = Some ("File system read operation failed for '" +:+ path
                           +:+ "': " +:+ "Failed to read file '" +:+ path
                           +:+ "': " +:+ errorMessage e)
          end.
Proof.
  intros Hmax Hclient Hsid Hpath Hne Hline Hlimit. cbv zeta.
  apply String.eqb_neq in Hsid. apply String.eqb_neq in Hne.
  unfold paramsWithSession. rewrite Hsid.
  set (params := JObj (<["_sessionId" := JStr sessionId]> fields)).
  assert (Hs : Js.get params "_sessionId" = JStr sessionId)
    by (unfold params; cbn; now rewrite lookup_insert_eq).
  assert (Hp : Js.get params "path" = JStr path)
    by (unfold params; cbn; rewrite lookup_insert_ne by discriminate;
        now rewrite Hpath).
  assert (Hl : Js.get params "line" = JUndefined)
    by (unfold params; cbn; rewrite lookup_insert_ne by discriminate;
        now rewrite Hline).
  assert (Hm : Js.get params "limit" = JUndefined)
    by (unfold params; cbn; rewrite lookup_insert_ne by discriminate;
        now rewrite Hlimit).
  destruct (fs_handlers_once p params Hmax) as [Hrh _].
  cbn [handler readTool settled]. rewrite Hrh. cbn [snd].
  unfold _readFileOnce. rewrite Hs, Hp, Hl, Hm.
  cbn [truthy negb badCount asCount]. rewrite Hsid, Hne. cbn [negb].
  rewrite Hclient. cbn [readTextFile AcpFileSystemClient tryCatch read_path].
  destruct (connection_readTextFile connection
              {| read_sessionId := JStr sessionId; read_path := path;
                 read_line := None; read_limit := None |}) as [content|e];
    cbn [tryCatch fst snd]; (split; [reflexivity|]); eexists;
    (split; [reflexivity|]).
  - split; [reflexivity|]. cbn [result Js.get]. split.
    + rewrite lookup_insert_ne by discriminate. now rewrite lookup_insert_eq.
    + rewrite lookup_insert_ne by discriminate.
      rewrite lookup_insert_ne by discriminate.
      rewrite lookup_singleton_eq. unfold default. cbn [from_option].
      unfold Datatypes.id. cbn [Js.get].
      destruct (operationId p) as [opId|]; cbn [spreadOperationId];
        [destruct (String.eqb opId "")|];
        rewrite ?lookup_insert_ne by discriminate; now rewrite lookup_insert_eq.
  - split; [reflexivity|]. unfold failure. cbn [error enhanceFileSystemError].
    rewrite Hp. reflexivity.
Qed.

(** The caller tries to pass a session id of its own. *)
Definition spoofed : gmap string JsVal :=
  <["_sessionId" := JStr "other"]> {[ "path" := JStr "/tmp/a.txt" ]}.

Lemma read_file_carries_injected_session_witness :
  fst (_readFileOnce (fileSystemClient resetProvider 0) (operationId resetProvider)
         (paramsWithSession (JObj spoofed) (Some "S")))
  = [CallReadTextFile {| read_sessionId := JStr "S"; read_path := "/tmp/a.txt";
                         read_line := None; read_limit := None |}].
Proof.
  destruct (read_file_carries_injected_session resetProvider resetConnection
              spoofed "S" "/tmp/a.txt") as [Hcalls _].
  - vm_compute. discriminate.
  - reflexivity.
  - discriminate.
  - reflexivity.
  - discriminate.
  - reflexivity.
  - reflexivity.
  - exact Hcalls.
Defined.

End FilesystemToolsFacts.

(* ================================================================== *)
(** * Facts about the HTTP writable *)
(* ================================================================== *)

Module HttpStreamFacts.
Import Js ToolCallManager HttpStream.

Section Writable.
Context {Msg : Type} (JSON_stringify : Msg -> Completion string).

(** Once a message is buffered, every further [write] throws and leaves
    the sink as it was. *)
Lemma write_buffered (message : Msg) (k : Sink) :
  responseBuffer k <> None ->
  write message k = (Abrupt (ThrowError false multipleWrites), k).
Proof.
  unfold write. destruct (responseBuffer k); [reflexivity|congruence].
Qed.


End Writable.



(** ** Any sequence of calls on the sink *)

Section Calls.
Context {Msg : Type} (JSON_stringify : Msg -> Completion string).

(** A call of one of the three methods the underlying sink object of
    [writable] has. *)
Inductive SinkCall : Type :=
| CallWrite (message : Msg)
| CallClose
| CallAbort (e : Thrown).

Definition call (c : SinkCall) (k : Sink) : Sink :=
  match c with
  | CallWrite message => snd (write message k)
  | CallClose => close JSON_stringify k
  | CallAbort e => abort e k
  end.

Definition callAll (cs : list SinkCall) (k : Sink) : Sink :=
  fold_left (fun k' c => call c k') cs k.

(** Nothing sent yet, or one [writeHead] and one [end] and the flag set. *)
Definition answeredOnce (k : Sink (Msg := Msg)) : Prop :=
  (responseWritten k = false /\ res k = [])
  \/ (responseWritten k = true
      /\ exists statusCode headers body,
           res k = [writeHead statusCode headers; end_ body]
           /\ (statusCode = 200 \/ statusCode = 204 \/ statusCode = 500)).

Lemma callAll_app cs1 cs2 k :
  callAll (cs1 ++ cs2)%list k = callAll cs2 (callAll cs1 k).
Proof. unfold callAll. apply fold_left_app. Qed.

Lemma callAll_cons c cs k : callAll (c :: cs) k = callAll cs (call c k).
Proof. reflexivity. Qed.

Lemma answeredOnce_call c k : answeredOnce k -> answeredOnce (call c k).
Proof.
  intros [[Hw Hr]|[Hw Hr]].
  - destruct c as [message| |e]; cbn.
    + left. unfold write. destruct (responseBuffer k); cbn; auto.
    + right. unfold close. rewrite Hw.
      destruct (responseBuffer k) as [message|];
        [destruct (JSON_stringify message)|];
        cbn; rewrite Hr; (split; [reflexivity|]);
        do 3 eexists; (split; [reflexivity|]); auto.
    + right. unfold abort. rewrite Hw. cbn. rewrite Hr. split; [reflexivity|].
      do 3 eexists. split; [reflexivity|]. auto.
  - right. destruct c as [message| |e]; cbn.
    + unfold write. destruct (responseBuffer k); cbn; auto.
    + unfold close. rewrite Hw. destruct (responseBuffer k); auto.
    + unfold abort. rewrite Hw. auto.
Qed.

(** Once the response is out, no call changes what was sent. *)
Lemma answered_stable cs : forall k,
  responseWritten k = true -> res (callAll cs k) = res k.
Proof.
  induction cs as [|c cs IH]; intros k Hw; [reflexivity|].
  change (callAll (c :: cs) k) with (callAll cs (call c k)).
  assert (Hc : responseWritten (call c k) = true /\ res (call c k) = res k).
  { destruct c as [message| |e]; cbn.
    - unfold write. destruct (responseBuffer k); cbn; auto.
    - unfold close. rewrite Hw. destruct (responseBuffer k); auto.
    - unfold abort. rewrite Hw. auto. }
  destruct Hc as [Hw' Hr']. rewrite IH by exact Hw'. exact Hr'.
Qed.

(** After writes only, the buffer holds the first message written and
    nothing was sent. *)
Lemma writes_buffer_first messages : forall k,
  responseWritten k = false ->
  let k' := callAll (List.map CallWrite messages) k in
  responseWritten k' = false
  /\ res k' = res k
  /\ responseBuffer k'
     = match responseBuffer k with
       | Some message => Some message
       | None => head messages
       end.
Proof.
  induction messages as [|message messages IH]; intros k Hw.
  - cbn. destruct (responseBuffer k); auto.
  - change (callAll (List.map CallWrite (message :: messages)) k)
      with (callAll (List.map CallWrite messages) (call (CallWrite message) k)).
    specialize (IH (call (CallWrite message) k)).
    cbn [call] in IH |- *. unfold write in IH |- *.
    destruct (responseBuffer k) eqn:Hb; cbn [snd] in IH |- *.
    + rewrite Hb in IH. apply IH. exact Hw.
    + cbn in IH. apply IH. exact Hw.
Qed.

(** X8. Whatever is called on the sink, in whatever order and however
    often, the HTTP response is sent at most once: either nothing was sent
    yet, or exactly one [writeHead] with status 200, 204 or 500 followed by
    exactly one [end]. *)
Theorem response_sent_at_most_once (cs : list SinkCall) :
  let k := callAll cs httpToStream in
  (responseWritten k = false /\ res k = [])
  \/ (responseWritten k = true
      /\ exists statusCode headers body,
           res k = [writeHead statusCode headers; end_ body]
           /\ (statusCode = 200 \/ statusCode = 204 \/ statusCode = 500)).
Proof.
  cbv zeta. change (answeredOnce (callAll cs httpToStream)).
  assert (H : forall k, answeredOnce k -> answeredOnce (callAll cs k)).
  { induction cs as [|c cs IH]; intros k Hk; [exact Hk|].
    rewrite callAll_cons. apply IH. now apply answeredOnce_call. }
  apply H. left. split; reflexivity.
Qed.

(** X9. When [close] is the first call that is not a [write], the response
    is decided by the first message written, whatever was written after it
    and whatever is called after the [close]: status 200 with that message
    serialised, or status 500 with the envelope "Internal error" when it
    cannot be serialised; and status 204 without a body when nothing was
    written. *)
Theorem close_answers_with_first_message
    (messages : list Msg) (rest : list SinkCall) :
  res (callAll (List.map CallWrite messages ++ CallClose :: rest)%list httpToStream)
  = match messages with
    | [] => [writeHead 204 []; end_ NoBody]
    | first :: _ =>
        match JSON_stringify first with
        | Normal body =>
            [writeHead 200 [("Content-Type", "application/json");
                            ("Content-Length", pretty (String.length body));
                            ("Access-Control-Allow-Origin", "*")];
             end_ (Raw body)]
        | Abrupt e =>
            [writeHead 500 [("Content-Type", "application/json")];
             end_ (ErrorEnvelope (-32603) "Internal error" (errorMessage e))]
        end
    end.
Proof.
  rewrite callAll_app, callAll_cons.
  destruct (writes_buffer_first messages httpToStream eq_refl) as (Hw & Hr & Hb).
  cbv zeta in Hw, Hr, Hb. cbn in Hr, Hb.
  set (k := callAll (List.map CallWrite messages) httpToStream) in *.
  assert (Hclose : responseWritten (call CallClose k) = true).
  { cbn. unfold close. rewrite Hw.
    destruct (responseBuffer k) as [m|]; [destruct (JSON_stringify m)|];
      reflexivity. }
  rewrite (answered_stable rest _ Hclose).
  cbn [call]. unfold close. rewrite Hw, Hb.
  destruct messages as [|first messages']; cbn [head].
  - unfold respond. cbn [res]. now rewrite Hr.
  - destruct (JSON_stringify first); unfold respond; cbn [res]; now rewrite Hr.
Qed.

(** X10. When [abort] is the first call that is not a [write], the response
    is status 500 with the envelope "Connection aborted" carrying the
    error's message; a message written before is dropped, and nothing
    called afterwards changes the response. *)
Theorem abort_answers_500
    (messages : list Msg) (e : Thrown) (rest : list SinkCall) :
  res (callAll (List.map CallWrite messages ++ CallAbort e :: rest)%list httpToStream)
  = [writeHead 500 [("Content-Type", "application/json")];
     end_ (ErrorEnvelope (-32603) "Connection aborted" (errorMessage e))].
Proof.
  rewrite callAll_app, callAll_cons.
  destruct (writes_buffer_first messages httpToStream eq_refl) as (Hw & Hr & _).
  cbv zeta in Hw, Hr. cbn in Hr.
  set (k := callAll (List.map CallWrite messages) httpToStream) in *.
  assert (Habort : responseWritten (call (CallAbort e) k) = true)
    by (cbn; unfold abort; now rewrite Hw).
  rewrite (answered_stable rest _ Habort).
  cbn [call]. unfold abort. rewrite Hw. unfold respond. cbn [res]. now rewrite Hr.
Qed.

End Calls.

End HttpStreamFacts.

(* ================================================================== *)
(** * Facts about the mode catalog *)
(* ================================================================== *)

Module SessionModesFacts.
Import SessionModes.

(** C9. The catalog has exactly the modes ask, plan and agent; ask
    declares no tools, plan declares [filesystem], agent declares
    [filesystem, terminal]; and what a mode declares grows along the
    catalog. *)
Theorem mode_catalog :
  Permutation getAvailableModes ["ask"; "plan"; "agent"]
  /\ (forall modeId,
        getModeConfig modeId <> None <-> In modeId ["ask"; "plan"; "agent"])
  /\ option_map availableTools (getModeConfig "ask") = Some None
  /\ option_map availableTools (getModeConfig "plan") = Some (Some ["filesystem"])
  /\ option_map availableTools (getModeConfig "agent")
     = Some (Some ["filesystem"; "terminal"])
  /\ Forall (fun m => permissionBehavior (config m) = strict) catalog
  /\ incl (declaredTools "ask") (declaredTools "plan")
  /\ incl (declaredTools "plan") (declaredTools "agent").
Proof.
  split; [apply (Permutation_rev ["agent"; "plan"; "ask"])|]. split.
  - intros modeId. unfold getModeConfig, catalog. cbn [List.find id].
    destruct (String.eqb_spec "agent" modeId) as [<-|Hagent].
    { split; [intros _; right; right; now left|discriminate]. }
    destruct (String.eqb_spec "plan" modeId) as [<-|Hplan].
    { split; [intros _; right; now left|discriminate]. }
    destruct (String.eqb_spec "ask" modeId) as [<-|Hask].
    { split; [intros _; now left|discriminate]. }
    split; [intros H; now contradiction H|].
    intros [H|[H|[H|[]]]]; congruence.
  - split; [reflexivity|]. split; [reflexivity|]. split; [reflexivity|].
    split; [repeat constructor|]. split.
    + intros t [].
    + intros t [<-|[]]. now left.
Qed.

End SessionModesFacts.

(* ================================================================== *)
(** * Facts about the connection pool *)
(* ================================================================== *)

Module ConnectionPoolFacts.
Import JsMap JsMapFacts ConnectionPool.

(** What every reachable pool satisfies: the counters account for the
    map; connection ids, in the map or being created, are at most the
    last one issued; an id being created is not yet in the map and is
    being created by one call only. *)
Definition Inv (p : Pool) : Prop :=
  totalCreated (metrics p) - totalDestroyed (metrics p) = size p
  /\ (forall id, get id (connections p) <> None -> (id <= nextConnectionId p)%nat)
  /\ (forall call id, get call (calls p) = Some (Creating id) ->
        (id <= nextConnectionId p)%nat /\ get id (connections p) = None)
  /\ (forall c1 c2 id, get c1 (calls p) = Some (Creating id) ->
        get c2 (calls p) = Some (Creating id) -> c1 = c2).

Lemma inv_create cfg : Inv (create cfg).
Proof.
  unfold Inv, size. cbn. repeat split; try congruence; try discriminate.
Qed.

Lemma inv_metrics p m :
  Inv p ->
  totalCreated m - totalDestroyed m
  = totalCreated (metrics p) - totalDestroyed (metrics p) ->
  Inv (withMetrics p m).
Proof.
  intros (Ha & Hb & Hc & Hd) Hm. unfold Inv, size in *. cbn.
  split; [lia|]. split; [exact Hb|]. split; [exact Hc|exact Hd].
Qed.

Lemma inv_queue p q : Inv p -> Inv (withQueue p q).
Proof. intros H. exact H. Qed.

Lemma inv_shutdown p b st : Inv p -> Inv (withShutdown p b st).
Proof. intros H. exact H. Qed.

Definition notCreating (st : AcquireState) : Prop :=
  match st with Creating _ => False | _ => True end.

Lemma inv_call p call st : Inv p -> notCreating st -> Inv (withCall p call st).
Proof.
  intros (Ha & Hb & Hc & Hd) Hst. unfold Inv, size in *. cbn.
  assert (Hget : forall c id, get c (set call st (calls p)) = Some (Creating id) ->
                              get c (calls p) = Some (Creating id)).
  { intros c id. destruct (decide (call = c)) as [->|Hne].
    - rewrite get_set_eq. intros [= ->]. contradiction.
    - now rewrite get_set_ne. }
  split; [exact Ha|]. split; [exact Hb|]. split.
  - intros c id H. eapply Hc, Hget, H.
  - intros c1 c2 id H1 H2. eapply Hd; eauto.
Qed.

Lemma inv_conn_update p id c :
  Inv p -> get id (connections p) <> None ->
  Inv (withConnections p (set id c (connections p))).
Proof.
  intros (Ha & Hb & Hc & Hd) Hid. unfold Inv, size in *. cbn.
  rewrite length_set_present by assumption.
  split; [exact Ha|]. split; [|split; [|exact Hd]].
  - intros id' Hid'. destruct (decide (id = id')) as [<-|Hne]; [now apply Hb|].
    rewrite get_set_ne in Hid' by assumption. now apply Hb.
  - intros call id0 H. destruct (Hc call id0 H) as [Hle Hnone].
    split; [exact Hle|].
    rewrite get_set_ne; [assumption|]. intros ->. contradiction.
Qed.

Lemma inv_markInUse p id t : Inv p -> Inv (markInUse id t p).
Proof.
  intros H. unfold markInUse.
  destruct (get id (connections p)) as [c|] eqn:Hget.
  - apply inv_metrics; [|cbn; lia].
    apply inv_conn_update; [assumption|congruence].
  - apply inv_metrics; [assumption|cbn; lia].
Qed.

Lemma inv_destroyConnection p id : Inv p -> Inv (destroyConnection id p).
Proof.
  intros H. unfold destroyConnection.
  destruct (get id (connections p)) as [c|] eqn:Hget; [|assumption].
  destruct H as (Ha & Hb & Hc & Hd).
  assert (Hlen : S (length (delete id (connections p))) = length (connections p))
    by (apply length_delete_present; congruence).
  unfold Inv, size in *.
  split; [|split; [|split; [|exact Hd]]].
  - destruct (inUse c); cbn; lia.
  - cbn. intros id' Hid'. apply Hb.
    destruct (decide (id = id')) as [<-|Hne]; [congruence|].
    now rewrite get_delete_ne in Hid'.
  - cbn. intros call id0 H. destruct (Hc call id0 H) as [Hle Hnone].
    split; [exact Hle|].
    rewrite get_delete_ne; [assumption|]. intros ->. congruence.
Qed.

Lemma inv_finishCreate p call id t :
  Inv p -> get call (calls p) = Some (Creating id) ->
  Inv (withCall (finishCreate id t p) call (Created id)).
Proof.
  intros (Ha & Hb & Hc & Hd) Hcall.
  destruct (Hc call id Hcall) as [Hle Hfresh].
  assert (Hget : forall c id', get c (set call (Created id) (calls p)) = Some (Creating id') ->
                               c <> call /\ get c (calls p) = Some (Creating id')).
  { intros c id'. destruct (decide (call = c)) as [->|Hne].
    - rewrite get_set_eq. discriminate.
    - rewrite get_set_ne by assumption. auto. }
  unfold Inv, size, finishCreate in *. cbn.
  rewrite length_set_fresh by assumption.
  split; [|split; [|split]].
  - match goal with |- context [if ?b then _ else _] => destruct b end; cbn; lia.
  - intros id' Hid'. destruct (decide (id = id')) as [<-|Hne]; [assumption|].
    rewrite get_set_ne in Hid' by assumption. now apply Hb.
  - intros c id' H. apply Hget in H as [Hne H].
    destruct (Hc c id' H) as [Hle' Hnone]. split; [exact Hle'|].
    rewrite get_set_ne; [assumption|]. intros ->. apply Hne. eapply Hd; eauto.
  - intros c1 c2 id' H1 H2. apply Hget in H1 as [_ H1]. apply Hget in H2 as [_ H2].
    eapply Hd; eauto.
Qed.

Lemma inv_acquireStart p call t :
  Inv p -> get call (calls p) = None -> Inv (acquireStart call t p).
Proof.
  intros H Hcall. unfold acquireStart.
  set (p0 := withMetrics p (bump 0 0 0 0 1 1 (metrics p))).
  assert (H0 : Inv p0) by (apply inv_metrics; [assumption|cbn; lia]).
  destruct (getIdleConnection p0) as [id|].
  - apply inv_call; [|exact I]. apply inv_metrics; [|cbn; lia].
    now apply inv_markInUse.
  - destruct (size p0 <? maxConnections (config p0)).
    + destruct H0 as (Ha & Hb & Hc & Hd). unfold Inv, size in *. cbn in *.
      assert (Hget : forall c id, get c (set call (Creating (S (nextConnectionId p)))
                                            (calls p)) = Some (Creating id) ->
                 (c = call /\ id = S (nextConnectionId p))
                 \/ (c <> call /\ get c (calls p) = Some (Creating id))).
      { intros c id. destruct (decide (call = c)) as [->|Hne].
        - rewrite get_set_eq. intros [= <-]. now left.
        - rewrite get_set_ne by assumption. right. split; congruence. }
      split; [exact Ha|]. split; [|split].
      * intros id Hid. apply Hb in Hid. lia.
      * intros c id H0. apply Hget in H0 as [[_ ->]|[_ H0]].
        -- split; [lia|].
           destruct (get (S (nextConnectionId p)) (connections p)) eqn:Hg;
             [|reflexivity].
           assert (S (nextConnectionId p) <= nextConnectionId p)%nat
             by (apply Hb; congruence). lia.
        -- apply Hc in H0 as [Hle Hnone]. split; [lia|exact Hnone].
      * intros c1 c2 id H1 H2.
        apply Hget in H1 as [[-> ->]|[Hn1 H1]];
          apply Hget in H2 as [[-> E2]|[Hn2 H2]]; try congruence.
        -- apply Hc in H2 as [Hle _]. lia.
        -- subst id. apply Hc in H1 as [Hle _]. lia.
        -- eapply Hd; eauto.
    + apply inv_call; [|exact I]. now apply inv_queue.
Qed.

Lemma inv_acquireResume p call t p' :
  Inv p -> acquireResume call t p = Some p' -> Inv p'.
Proof.
  intros H. unfold acquireResume.
  destruct (get call (calls p)) as [[id|id| |id| |id| ]|]; try discriminate;
    intros [= <-]; (apply inv_call; [|exact I]); (apply inv_metrics; [|cbn; lia]);
    try apply inv_markInUse; assumption.
Qed.

Lemma inv_serveWaitingRequest p : Inv p -> Inv (serveWaitingRequest p).
Proof.
  intros H. unfold serveWaitingRequest.
  destruct (waitingQueue p) as [|waiting rest]; [assumption|].
  destruct (getIdleConnection p) as [id|]; [|assumption].
  destruct (get waiting (calls (withQueue p rest))) as [[]|];
    try (now apply inv_queue).
  apply inv_call; [|exact I]. now apply inv_queue.
Qed.

Lemma inv_release p id t : Inv p -> Inv (release id t p).
Proof.
  intros H. unfold release.
  destruct (get id (connections p)) as [c|] eqn:Hget; [|assumption].
  apply inv_serveWaitingRequest. apply inv_metrics; [|cbn; lia].
  apply inv_conn_update; [assumption|congruence].
Qed.

Lemma inv_fold_destroy ids : forall p,
  Inv p -> Inv (fold_left (fun q id => destroyConnection id q) ids p).
Proof.
  induction ids as [|id ids IH]; intros p H; [assumption|].
  cbn. apply IH. now apply inv_destroyConnection.
Qed.

Lemma inv_fold_reject queue : forall p,
  Inv p ->
  Inv (fold_left (fun q waiting =>
                    match get waiting (calls q) with
                    | Some Waiting => withCall q waiting Rejected
                    | _ => q
                    end) queue p).
Proof.
  induction queue as [|waiting queue IH]; intros p H; [assumption|].
  cbn. apply IH.
  destruct (get waiting (calls p)) as [[]|]; try assumption.
  now apply inv_call.
Qed.

Lemma inv_rejectWaiting p : Inv p -> Inv (rejectWaiting p).
Proof.
  intros H. unfold rejectWaiting. apply inv_queue. now apply inv_fold_reject.
Qed.

Lemma inv_step l p p' : Inv p -> step l p = Some p' -> Inv p'.
Proof.
  intros H. destruct l as [call t|call t|call|call t|id t|call|t|t|t| |]; cbn.
  - destruct (get call (calls p)) eqn:Hcall; [discriminate|].
    intros [= <-]. now apply inv_acquireStart.
  - destruct (get call (calls p)) as [[id| | | | | | ]|] eqn:Hcall; try discriminate.
    intros [= <-]. now apply inv_finishCreate.
  - destruct (get call (calls p)) as [[id| | | | | | ]|] eqn:Hcall; try discriminate.
    intros [= <-]. now apply inv_call.
  - now apply inv_acquireResume.
  - destruct (existsb _ _); [|discriminate]. intros [= <-]. now apply inv_release.
  - destruct (get call (calls p)) as [[]|] eqn:Hcall; try discriminate.
    intros [= <-]. now apply inv_call.
  - destruct (cleanupInterval p); [|discriminate]. intros [= <-].
    unfold cleanupIdleConnections. now apply inv_fold_destroy.
  - destruct (shutdownState p); try discriminate. intros [= <-].
    now apply inv_shutdown.
  - destruct (shutdownState p); try discriminate.
    destruct (_ && _); intros [= <-]; [assumption|now apply inv_shutdown].
  - destruct (shutdownState p); try discriminate. intros [= <-].
    now apply inv_shutdown.
  - destruct (shutdownState p) as [| | |[|id rest]|]; try discriminate;
      intros [= <-]; apply inv_shutdown.
    + now apply inv_rejectWaiting.
    + now apply inv_destroyConnection.
Qed.

Lemma inv_reachable cfg p : reachable cfg p -> Inv p.
Proof.
  induction 1 as [|l p p' _ IH Hstep]; [apply inv_create|].
  eapply inv_step; eauto.
Qed.

(** The counters account for the map in every state the pool can reach,
    however the calls interleave; so they do when [shutdown] completes. *)
Theorem accounting_at_shutdown cfg p :
  reachable cfg p ->
  totalCreated (metrics p) - totalDestroyed (metrics p) = size p.
Proof. intros H. apply (inv_reachable cfg p H). Qed.

Lemma run_reachable cfg ls : forall p p',
  reachable cfg p -> run ls p = Some p' -> reachable cfg p'.
Proof.
  induction ls as [|l ls IH]; intros p p' Hp; cbn.
  - now intros [= <-].
  - destruct (step l p) as [p1|] eqn:Hstep; [|discriminate].
    apply IH. eapply reach_step; eauto.
Qed.

(** A pool that may hold one connection. *)
Definition oneConnection : ConnectionPoolConfig :=
  {| maxConnections := 1; maxIdleTime := 60000; acquireTimeout := 5000 |}.

(** Two calls of [acquire] made one after the other, before the factory
    promise of either has settled; then both promises resolve. *)
Definition burst : list Label :=
  [Acquire 0 0; Acquire 1 0; FactoryResolves 0 1; FactoryResolves 1 1].

(** C2, evaluated. Both calls of the burst pass the test
    [connections.size < maxConnections], because [createConnection] adds
    its connection to the map only after [await factory()]; the pool
    configured for one connection ends up holding two. The counters
    still account for the map. *)
Theorem burst_exceeds_maxConnections :
  exists p,
    run burst (create oneConnection) = Some p
    /\ reachable oneConnection p
    /\ maxConnections (config p) = 1
    /\ size p = 2
    /\ totalCreated (metrics p) - totalDestroyed (metrics p) = size p.
Proof.
  destruct (run burst (create oneConnection)) as [p|] eqn:Hrun;
    [|vm_compute in Hrun; discriminate].
  exists p. split; [reflexivity|].
  assert (Hreach : reachable oneConnection p)
    by (eapply run_reachable; [apply reach_create|exact Hrun]).
  split; [exact Hreach|].
  vm_compute in Hrun. injection Hrun as <-.
  split; [reflexivity|]. split; reflexivity.
Qed.

(** The same two calls made one after the other: the second waits, and
    the pool holds one connection. *)
Example sequential_acquires_respect_maxConnections :
  option_map (fun p => (size p, waitingQueue p))
    (run [Acquire 0 0; FactoryResolves 0 1; Resume 0 1; Acquire 1 2]
         (create oneConnection))
  = Some (1, [1%nat]).
Proof. vm_compute. reflexivity. Qed.

(** A whole life: acquire, release, shutdown. When [shutdown] is done the
    map is empty and the counters agree. *)
Example shutdown_completes :
  option_map (fun p => (shutdownState p, size p,
                        totalCreated (metrics p), totalDestroyed (metrics p)))
    (run [Acquire 0 0; FactoryResolves 0 1; Resume 0 1; Release 1 5;
          ShutdownStart 6; DrainTick 6; ShutdownSnapshot; ShutdownNext;
          ShutdownNext]
         (create oneConnection))
  = Some (Done, 0, 1, 1).
Proof. vm_compute. reflexivity. Qed.

(** ** Calls of [acquire] that do not overlap *)

(** No call is suspended inside [createConnection]. *)
Definition noCreating (p : Pool) : Prop :=
  forall call id, get call (calls p) <> Some (Creating id).

(** The states reached when [acquire] is only called while no other call
    is waiting for its factory. *)
Inductive reachableSeq (cfg : ConnectionPoolConfig) : Pool -> Prop :=
| seq_create : reachableSeq cfg (create cfg)
| seq_step l p p' :
    reachableSeq cfg p -> step l p = Some p' ->
    (forall call t, l = Acquire call t -> noCreating p) ->
    reachableSeq cfg p'.

(** [q] has the configuration of [p], no more connections, and no call
    inside [createConnection] that [p] has not. *)
Definition below (p q : Pool) : Prop :=
  config q = config p
  /\ size q <= size p
  /\ (forall c id, get c (calls q) = Some (Creating id) ->
                   get c (calls p) = Some (Creating id)).

Lemma below_refl p : below p p.
Proof. unfold below. repeat split; auto. lia. Qed.

Lemma below_trans p q r : below p q -> below q r -> below p r.
Proof.
  intros (H1 & H2 & H3) (H4 & H5 & H6). unfold below.
  split; [congruence|]. split; [lia|]. auto.
Qed.

Lemma below_metrics p m : below p (withMetrics p m).
Proof. unfold below, size. cbn. split; [reflexivity|]. split; [lia|auto]. Qed.

Lemma below_queue p q : below p (withQueue p q).
Proof. unfold below, size. cbn. split; [reflexivity|]. split; [lia|auto]. Qed.

Lemma below_shutdown p b st : below p (withShutdown p b st).
Proof. unfold below, size. cbn. split; [reflexivity|]. split; [lia|auto]. Qed.

Lemma below_call p call st : notCreating st -> below p (withCall p call st).
Proof.
  intros Hst. unfold below, size. cbn. split; [reflexivity|]. split; [lia|].
  intros c id. destruct (decide (call = c)) as [->|Hne].
  - rewrite get_set_eq. intros [= ->]. contradiction.
  - now rewrite get_set_ne.
Qed.

Lemma below_conn_update p id c :
  get id (connections p) <> None ->
  below p (withConnections p (set id c (connections p))).
Proof.
  intros Hid. unfold below, size. cbn. rewrite length_set_present by assumption.
  split; [reflexivity|]. split; [lia|auto].
Qed.

Lemma below_markInUse p id t : below p (markInUse id t p).
Proof.
  unfold markInUse. destruct (get id (connections p)) eqn:Hget.
  - eapply below_trans;
      [apply (below_conn_update p id); congruence|apply below_metrics].
  - apply below_metrics.
Qed.

Lemma below_destroyConnection p id : below p (destroyConnection id p).
Proof.
  unfold destroyConnection.
  destruct (get id (connections p)) as [c|] eqn:Hget; [|apply below_refl].
  assert (Hlen : S (length (delete id (connections p))) = length (connections p))
    by (apply length_delete_present; congruence).
  unfold below, size. cbn. split; [reflexivity|]. split; [lia|auto].
Qed.

Lemma below_serveWaitingRequest p : below p (serveWaitingRequest p).
Proof.
  unfold serveWaitingRequest.
  destruct (waitingQueue p) as [|waiting rest]; [apply below_refl|].
  destruct (getIdleConnection p) as [id|]; [|apply below_refl].
  destruct (get waiting (calls (withQueue p rest))) as [[]|];
    try apply below_queue.
  eapply below_trans; [apply (below_queue p rest)|].
  now apply below_call.
Qed.

Lemma below_release p id t : below p (release id t p).
Proof.
  unfold release. destruct (get id (connections p)) eqn:Hget; [|apply below_refl].
  eapply below_trans; [apply (below_conn_update p id); congruence|].
  eapply below_trans; [apply below_metrics|apply below_serveWaitingRequest].
Qed.

Lemma below_fold_destroy ids : forall p,
  below p (fold_left (fun q id => destroyConnection id q) ids p).
Proof.
  induction ids as [|id ids IH]; intros p; [apply below_refl|].
  cbn. eapply below_trans; [apply below_destroyConnection|apply IH].
Qed.

Lemma below_fold_reject queue : forall p,
  below p (fold_left (fun q waiting =>
                        match get waiting (calls q) with
                        | Some Waiting => withCall q waiting Rejected
                        | _ => q
                        end) queue p).
Proof.
  induction queue as [|waiting queue IH]; intros p; [apply below_refl|].
  cbn. eapply below_trans; [|apply IH].
  destruct (get waiting (calls p)) as [[]|]; try apply below_refl.
  now apply below_call.
Qed.

(** With calls that do not overlap: the map is within the limit, a call
    inside [createConnection] has room for its connection, and there is
    at most one such call. *)
Definition InvSeq (cfg : ConnectionPoolConfig) (p : Pool) : Prop :=
  config p = cfg
  /\ size p <= maxConnections cfg
  /\ (forall c id, get c (calls p) = Some (Creating id) ->
                   size p < maxConnections cfg)
  /\ (forall c1 c2 id1 id2, get c1 (calls p) = Some (Creating id1) ->
         get c2 (calls p) = Some (Creating id2) -> c1 = c2).

Lemma invseq_below cfg p q : InvSeq cfg p -> below p q -> InvSeq cfg q.
Proof.
  intros (Hc & Hs & Hcr & Hone) (Bc & Bs & Bcr). unfold InvSeq.
  split; [congruence|]. split; [lia|]. split.
  - intros c id H. apply Bcr in H. apply Hcr in H. lia.
  - intros c1 c2 id1 id2 H1 H2. apply Bcr in H1. apply Bcr in H2. eauto.
Qed.

Lemma invseq_acquireStart cfg p call t :
  InvSeq cfg p -> noCreating p -> InvSeq cfg (acquireStart call t p).
Proof.
  intros H Hno. unfold acquireStart.
  set (p0 := withMetrics p (bump 0 0 0 0 1 1 (metrics p))).
  destruct (getIdleConnection p0) as [id|].
  - apply (invseq_below cfg p); [assumption|].
    eapply below_trans; [apply (below_metrics p)|].
    eapply below_trans; [apply below_markInUse|].
    eapply below_trans; [apply below_metrics|]. now apply below_call.
  - destruct (size p0 <? maxConnections (config p0)) eqn:Hroom.
    + destruct H as (Hc & Hs & Hcr & Hone). apply Z.ltb_lt in Hroom.
      unfold InvSeq, size in *. cbn in *. rewrite Hc in Hroom.
      assert (Hget : forall c id, get c (set call (Creating (S (nextConnectionId p)))
                                            (calls p)) = Some (Creating id) ->
                                  c = call).
      { intros c id. destruct (decide (call = c)) as [->|Hne]; [reflexivity|].
        rewrite get_set_ne by assumption. intros Hc'. now apply Hno in Hc'. }
      split; [exact Hc|]. split; [exact Hs|]. split.
      * intros c id _. exact Hroom.
      * intros c1 c2 id1 id2 H1 H2. apply Hget in H1. apply Hget in H2. congruence.
    + apply (invseq_below cfg p); [assumption|].
      eapply below_trans; [apply (below_metrics p)|].
      eapply below_trans; [apply below_queue|]. now apply below_call.
Qed.

Lemma invseq_finishCreate cfg p call id t :
  InvSeq cfg p -> get call (calls p) = Some (Creating id) ->
  InvSeq cfg (withCall (finishCreate id t p) call (Created id)).
Proof.
  intros (Hc & Hs & Hcr & Hone) Hcall.
  assert (Hroom := Hcr call id Hcall).
  assert (Hget : forall c id', get c (set call (Created id) (calls p)) = Some (Creating id') ->
                               False).
  { intros c id'. destruct (decide (call = c)) as [->|Hne].
    - rewrite get_set_eq. discriminate.
    - rewrite get_set_ne by assumption. intros Hc'. apply Hne.
      eapply Hone; eauto. }
  unfold InvSeq, size, finishCreate in *. cbn.
  assert (Hlen : (length (set id {| createdAt := t; lastUsedAt := t; inUse := false;
                                    requestCount := 0 |} (connections p))
                  <= S (length (connections p)))%nat).
  { destruct (get id (connections p)) eqn:Hg.
    - rewrite length_set_present by congruence. lia.
    - rewrite length_set_fresh by assumption. lia. }
  split; [exact Hc|]. split; [lia|]. split.
  - intros c id' H. now apply Hget in H.
  - intros c1 c2 id1 id2 H1. now apply Hget in H1.
Qed.

Lemma invseq_step cfg l p p' :
  InvSeq cfg p -> step l p = Some p' ->
  (forall call t, l = Acquire call t -> noCreating p) ->
  InvSeq cfg p'.
Proof.
  intros H Hstep Hseq.
  destruct l as [call t|call t|call|call t|id t|call|t|t|t| |]; cbn in Hstep.
  - destruct (get call (calls p)) eqn:Hcall; [discriminate|].
    injection Hstep as <-. apply invseq_acquireStart; eauto.
  - destruct (get call (calls p)) as [[id| | | | | | ]|] eqn:Hcall; try discriminate.
    injection Hstep as <-. now apply invseq_finishCreate.
  - destruct (get call (calls p)) as [[id| | | | | | ]|] eqn:Hcall; try discriminate.
    injection Hstep as <-. apply (invseq_below cfg p); [assumption|].
    now apply below_call.
  - unfold acquireResume in Hstep.
    destruct (get call (calls p)) as [[id|id| |id| |id| ]|]; try discriminate;
      injection Hstep as <-; (apply (invseq_below cfg p); [assumption|]).
    + eapply below_trans; [apply below_markInUse|].
      eapply below_trans; [apply below_metrics|]. now apply below_call.
    + eapply below_trans; [apply below_markInUse|].
      eapply below_trans; [apply below_metrics|]. now apply below_call.
    + eapply below_trans; [apply below_metrics|]. now apply below_call.
  - destruct (existsb _ _); [|discriminate]. injection Hstep as <-.
    apply (invseq_below cfg p); [assumption|apply below_release].
  - destruct (get call (calls p)) as [[]|] eqn:Hcall; try discriminate.
    injection Hstep as <-. apply (invseq_below cfg p); [assumption|].
    now apply below_call.
  - destruct (cleanupInterval p); [|discriminate]. injection Hstep as <-.
    apply (invseq_below cfg p); [assumption|apply below_fold_destroy].
  - destruct (shutdownState p); try discriminate. now injection Hstep as <-.
  - destruct (shutdownState p); try discriminate.
    destruct (_ && _); now injection Hstep as <-.
  - destruct (shutdownState p); try discriminate. now injection Hstep as <-.
  - destruct (shutdownState p) as [| | |[|id rest]|]; try discriminate;
      injection Hstep as <-; (apply (invseq_below cfg p); [assumption|]).
    + eapply below_trans; [|apply below_shutdown].
      unfold rejectWaiting.
      eapply below_trans; [apply (below_fold_reject (waitingQueue p) p)|].
      apply below_queue.
    + eapply below_trans; [apply below_destroyConnection|apply below_shutdown].
Qed.

(** When the calls of [acquire] do not overlap, the limit is kept. *)
Theorem sequential_acquires_bounded cfg p :
  0 <= maxConnections cfg ->
  reachableSeq cfg p ->
  size p <= maxConnections cfg.
Proof.
  intros Hmax Hreach.
  assert (H : InvSeq cfg p); [|apply H].
  induction Hreach as [|l p p' _ IH Hstep Hseq].
  - unfold InvSeq, size. cbn. split; [reflexivity|]. split; [exact Hmax|].
    split; discriminate.
  - eapply invseq_step; eauto.
Qed.

(** ** The gauges: active, idle and peak *)

(** The active and idle gauges add up to the size of the map, and the
    peak is at least that size. *)
Definition Gauges (p : Pool) : Prop :=
  activeConnections (metrics p) + idleConnections (metrics p) = size p
  /\ size p <= peakConnections (metrics p).

Lemma gauges_bump p da di dr dw :
  Gauges p -> da + di = 0 ->
  Gauges (withMetrics p (bump 0 0 da di dr dw (metrics p))).
Proof. intros [H1 H2] Hd. unfold Gauges, size in *. cbn. lia. Qed.

Lemma gauges_conn_update p id c :
  Gauges p -> get id (connections p) <> None ->
  Gauges (withConnections p (set id c (connections p))).
Proof.
  intros [H1 H2] Hid. unfold Gauges, size in *. cbn.
  rewrite length_set_present by assumption. lia.
Qed.

Lemma gauges_markInUse p id t : Gauges p -> Gauges (markInUse id t p).
Proof.
  intros H. unfold markInUse. destruct (get id (connections p)) eqn:Hget.
  - apply gauges_bump; [|lia]. apply gauges_conn_update; [assumption|congruence].
  - apply gauges_bump; [assumption|lia].
Qed.

Lemma gauges_destroyConnection p id : Gauges p -> Gauges (destroyConnection id p).
Proof.
  intros [H1 H2]. unfold destroyConnection.
  destruct (get id (connections p)) as [c|] eqn:Hget; [|now split].
  assert (Hlen : S (length (delete id (connections p))) = length (connections p))
    by (apply length_delete_present; congruence).
  unfold Gauges, size in *. destruct (inUse c); cbn; lia.
Qed.

Lemma gauges_serveWaitingRequest p : Gauges p -> Gauges (serveWaitingRequest p).
Proof.
  intros H. unfold serveWaitingRequest.
  destruct (waitingQueue p) as [|waiting rest]; [assumption|].
  destruct (getIdleConnection p) as [id|]; [|assumption].
  destruct (get waiting (calls (withQueue p rest))) as [[]|]; exact H.
Qed.

Lemma gauges_release p id t : Gauges p -> Gauges (release id t p).
Proof.
  intros H. unfold release. destruct (get id (connections p)) eqn:Hget; [|assumption].
  apply gauges_serveWaitingRequest. apply gauges_bump; [|lia].
  apply gauges_conn_update; [assumption|congruence].
Qed.

Lemma gauges_fold_destroy ids : forall p,
  Gauges p -> Gauges (fold_left (fun q id => destroyConnection id q) ids p).
Proof.
  induction ids as [|id ids IH]; intros p H; [assumption|].
  cbn. apply IH. now apply gauges_destroyConnection.
Qed.

Lemma gauges_fold_reject queue : forall p,
  Gauges p ->
  Gauges (fold_left (fun q waiting =>
                       match get waiting (calls q) with
                       | Some Waiting => withCall q waiting Rejected
                       | _ => q
                       end) queue p).
Proof.
  induction queue as [|waiting queue IH]; intros p H; [assumption|].
  cbn. apply IH. destruct (get waiting (calls p)) as [[]|]; exact H.
Qed.

Lemma gauges_finishCreate p id t :
  Gauges p -> get id (connections p) = None -> Gauges (finishCreate id t p).
Proof.
  intros [H1 H2] Hfresh. unfold Gauges, finishCreate, size in *. cbn.
  rewrite length_set_fresh by assumption.
  match goal with |- context [if ?b then _ else _] => destruct b eqn:Hb end;
    cbn; [lia|]. apply Z.ltb_ge in Hb. cbn in Hb. lia.
Qed.

Lemma gauges_step l p p' : Inv p -> Gauges p -> step l p = Some p' -> Gauges p'.
Proof.
  intros HI H. destruct l as [call t|call t|call|call t|id t|call|t|t|t| |]; cbn.
  - destruct (get call (calls p)) eqn:Hcall; [discriminate|].
    intros [= <-]. unfold acquireStart.
    set (p0 := withMetrics p (bump 0 0 0 0 1 1 (metrics p))).
    assert (H0 : Gauges p0) by (apply gauges_bump; [assumption|lia]).
    destruct (getIdleConnection p0) as [id|].
    + apply (gauges_bump (markInUse id t p0)); [|lia]. now apply gauges_markInUse.
    + destruct (size p0 <? maxConnections (config p0)); exact H0.
  - destruct (get call (calls p)) as [[id| | | | | | ]|] eqn:Hcall; try discriminate.
    intros [= <-]. apply (gauges_finishCreate p id t H).
    destruct HI as (_ & _ & Hc & _). now apply (Hc call id).
  - destruct (get call (calls p)) as [[id| | | | | | ]|] eqn:Hcall; try discriminate.
    now intros [= <-].
  - unfold acquireResume.
    destruct (get call (calls p)) as [[id|id| |id| |id| ]|]; try discriminate;
      intros [= <-].
    + apply (gauges_bump (markInUse id t p)); [|lia]. now apply gauges_markInUse.
    + apply (gauges_bump (markInUse id t p)); [|lia]. now apply gauges_markInUse.
    + apply (gauges_bump p); [assumption|lia].
  - destruct (existsb _ _); [|discriminate]. intros [= <-]. now apply gauges_release.
  - destruct (get call (calls p)) as [[]|] eqn:Hcall; try discriminate.
    now intros [= <-].
  - destruct (cleanupInterval p); [|discriminate]. intros [= <-].
    now apply gauges_fold_destroy.
  - destruct (shutdownState p); try discriminate. now intros [= <-].
  - destruct (shutdownState p); try discriminate.
    destruct (_ && _); now intros [= <-].
  - destruct (shutdownState p); try discriminate. now intros [= <-].
  - destruct (shutdownState p) as [| | |[|id rest]|]; try discriminate;
      intros [= <-].
    + apply (gauges_fold_reject (waitingQueue p) p H).
    + apply (gauges_destroyConnection p id H).
Qed.

Lemma gauges_reachable cfg p : reachable cfg p -> Gauges p.
Proof.
  intros Hreach. assert (H : Inv p /\ Gauges p); [|apply H].
  induction Hreach as [|l p p' _ [IHI IHG] Hstep].
  - split; [apply inv_create|]. unfold Gauges, size. cbn. lia.
  - split; [eapply inv_step; eauto|eapply gauges_step; eauto].
Qed.

(** X1. In every state the pool can reach, however the calls interleave,
    [activeConnections + idleConnections] is the number of connections in
    the map and [peakConnections] is at least that number. *)
Theorem gauges_account_for_connections cfg p :
  reachable cfg p ->
  activeConnections (metrics p) + idleConnections (metrics p) = size p
  /\ size p <= peakConnections (metrics p).
Proof. intros Hreach. apply (gauges_reachable cfg p Hreach). Qed.

(** A pool that can be reached: one connection made, handed out and
    released. *)
Definition usedOnce : list Label :=
  [Acquire 0 0; FactoryResolves 0 1; Resume 0 1; Release 1 5].

Lemma usedOnce_reachable :
  exists p, run usedOnce (create oneConnection) = Some p
            /\ reachable oneConnection p.
Proof.
  destruct (run usedOnce (create oneConnection)) as [p|] eqn:Hrun;
    [|vm_compute in Hrun; discriminate].
  exists p. split; [reflexivity|].
  eapply run_reachable; [apply reach_create|exact Hrun].
Defined.

Lemma gauges_account_for_connections_witness :
  exists p,
    run usedOnce (create oneConnection) = Some p
    /\ activeConnections (metrics p) + idleConnections (metrics p) = size p
    /\ size p <= peakConnections (metrics p).
Proof.
  destruct usedOnce_reachable as (p & Hrun & Hreach).
  exists p. split; [exact Hrun|].
  exact (gauges_account_for_connections oneConnection p Hreach).
Defined.

(** ** Counters only grow *)

(** [q] has counted at least what [p] had. *)
Definition grown (p q : Pool) : Prop :=
  totalCreated (metrics p) <= totalCreated (metrics q)
  /\ totalDestroyed (metrics p) <= totalDestroyed (metrics q)
  /\ totalRequests (metrics p) <= totalRequests (metrics q)
  /\ peakConnections (metrics p) <= peakConnections (metrics q)
  /\ (nextConnectionId p <= nextConnectionId q)%nat.

Lemma grown_refl p : grown p p.
Proof. unfold grown. lia. Qed.

Lemma grown_trans p q r : grown p q -> grown q r -> grown p r.
Proof. unfold grown. lia. Qed.

Lemma grown_markInUse p id t : grown p (markInUse id t p).
Proof.
  unfold markInUse, grown. destruct (get id (connections p)); cbn; lia.
Qed.

Lemma grown_destroyConnection p id : grown p (destroyConnection id p).
Proof.
  unfold destroyConnection, grown.
  destruct (get id (connections p)) as [c|]; [destruct (inUse c)|]; cbn; lia.
Qed.

Lemma grown_serveWaitingRequest p : grown p (serveWaitingRequest p).
Proof.
  unfold serveWaitingRequest, grown.
  destruct (waitingQueue p) as [|waiting rest]; [lia|].
  destruct (getIdleConnection p) as [id|]; [|lia].
  destruct (get waiting (calls (withQueue p rest))) as [[]|]; cbn; lia.
Qed.

Lemma grown_release p id t : grown p (release id t p).
Proof.
  unfold release. destruct (get id (connections p)); [|apply grown_refl].
  eapply grown_trans; [|apply grown_serveWaitingRequest].
  unfold grown. cbn. lia.
Qed.

Lemma grown_fold_destroy ids : forall p,
  grown p (fold_left (fun q id => destroyConnection id q) ids p).
Proof.
  induction ids as [|id ids IH]; intros p; [apply grown_refl|].
  cbn. eapply grown_trans; [apply grown_destroyConnection|apply IH].
Qed.

Lemma grown_fold_reject queue : forall p,
  grown p (fold_left (fun q waiting =>
                        match get waiting (calls q) with
                        | Some Waiting => withCall q waiting Rejected
                        | _ => q
                        end) queue p).
Proof.
  induction queue as [|waiting queue IH]; intros p; [apply grown_refl|].
  cbn. eapply grown_trans; [|apply IH].
  destruct (get waiting (calls p)) as [[]|]; unfold grown; cbn; lia.
Qed.

(** X2. No step of the pool lowers [totalCreated], [totalDestroyed],
    [totalRequests] or [peakConnections], nor the counter connection ids
    are made from. *)
Theorem counters_never_decrease l p p' :
  step l p = Some p' ->
  totalCreated (metrics p) <= totalCreated (metrics p')
  /\ totalDestroyed (metrics p) <= totalDestroyed (metrics p')
  /\ totalRequests (metrics p) <= totalRequests (metrics p')
  /\ peakConnections (metrics p) <= peakConnections (metrics p')
  /\ (nextConnectionId p <= nextConnectionId p')%nat.
Proof.
  change (step l p = Some p' -> grown p p').
  destruct l as [call t|call t|call|call t|id t|call|t|t|t| |]; cbn.
  - destruct (get call (calls p)) eqn:Hcall; [discriminate|].
    intros [= <-]. unfold acquireStart.
    set (p0 := withMetrics p (bump 0 0 0 0 1 1 (metrics p))).
    assert (H0 : grown p p0) by (unfold grown; cbn; lia).
    destruct (getIdleConnection p0) as [id|].
    + eapply grown_trans; [exact H0|].
      eapply grown_trans; [apply (grown_markInUse p0 id t)|].
      unfold grown. cbn. lia.
    + destruct (size p0 <? maxConnections (config p0));
        (eapply grown_trans; [exact H0|]); unfold grown; cbn; lia.
  - destruct (get call (calls p)) as [[id| | | | | | ]|] eqn:Hcall; try discriminate.
    intros [= <-]. unfold grown, finishCreate. cbn.
    match goal with |- context [if ?b then _ else _] => destruct b eqn:Hb end;
      cbn; [apply Z.ltb_lt in Hb; cbn in Hb|]; lia.
  - destruct (get call (calls p)) as [[id| | | | | | ]|] eqn:Hcall; try discriminate.
    intros [= <-]. unfold grown. cbn. lia.
  - unfold acquireResume.
    destruct (get call (calls p)) as [[id|id| |id| |id| ]|]; try discriminate;
      intros [= <-].
    + eapply grown_trans; [apply (grown_markInUse p id t)|]. unfold grown. cbn. lia.
    + eapply grown_trans; [apply (grown_markInUse p id t)|]. unfold grown. cbn. lia.
    + unfold grown. cbn. lia.
  - destruct (existsb _ _); [|discriminate]. intros [= <-]. apply grown_release.
  - destruct (get call (calls p)) as [[]|] eqn:Hcall; try discriminate.
    intros [= <-]. unfold grown. cbn. lia.
  - destruct (cleanupInterval p); [|discriminate]. intros [= <-].
    apply grown_fold_destroy.
  - destruct (shutdownState p); try discriminate. intros [= <-].
    unfold grown. cbn. lia.
  - destruct (shutdownState p); try discriminate.
    destruct (_ && _); intros [= <-]; unfold grown; cbn; lia.
  - destruct (shutdownState p); try discriminate. intros [= <-].
    unfold grown. cbn. lia.
  - destruct (shutdownState p) as [| | |[|id rest]|]; try discriminate;
      intros [= <-].
    + apply (grown_trans _ _ _ (grown_fold_reject (waitingQueue p) p)).
      unfold grown. cbn. lia.
    + apply (grown_trans _ _ _ (grown_destroyConnection p id)).
      unfold grown. cbn. lia.
Qed.

Lemma counters_never_decrease_witness :
  exists p p',
    step (Acquire 0 0) (create oneConnection) = Some p
    /\ step (FactoryResolves 0 1) p = Some p'
    /\ totalCreated (metrics p) <= totalCreated (metrics p')
    /\ peakConnections (metrics p) <= peakConnections (metrics p').
Proof.
  destruct (step (Acquire 0 0) (create oneConnection)) as [p|] eqn:H1;
    [|vm_compute in H1; discriminate].
  destruct (step (FactoryResolves 0 1) p) as [p'|] eqn:H2;
    [|vm_compute in H1; injection H1 as <-; vm_compute in H2; discriminate].
  exists p, p'. split; [reflexivity|]. split; [exact H2|].
  destruct (counters_never_decrease _ _ _ H2) as (Hc & _ & _ & Hp & _).
  split; assumption.
Defined.

(** ** Requests in flight *)

(** A call of [acquire] that has neither returned nor thrown. *)
Definition inFlight (st : AcquireState) : bool :=
  match st with Holding _ | Failed => false | _ => true end.

Definition countInFlight (cs : list (nat * AcquireState)) : Z :=
  Z.of_nat (length (List.filter (fun e => inFlight (snd e)) cs)).

Lemma countInFlight_set_fresh call st cs :
  get call cs = None ->
  countInFlight (set call st cs)
  = countInFlight cs + (if inFlight st then 1 else 0).
Proof.
  unfold countInFlight. induction cs as [|[k v] cs IH]; cbn.
  - intros _. destruct (inFlight st); reflexivity.
  - destruct (decide (call = k)); [discriminate|]. intros Hg. cbn.
    specialize (IH Hg). destruct (inFlight v); cbn; lia.
Qed.

Lemma countInFlight_set_present call st old cs :
  get call cs = Some old ->
  countInFlight (set call st cs) + (if inFlight old then 1 else 0)
  = countInFlight cs + (if inFlight st then 1 else 0).
Proof.
  unfold countInFlight. induction cs as [|[k v] cs IH]; cbn; [discriminate|].
  destruct (decide (call = k)) as [->|Hne].
  - intros [= ->]. cbn. destruct (inFlight old), (inFlight st); cbn; lia.
  - intros Hg. cbn. specialize (IH Hg). destruct (inFlight v); cbn; lia.
Qed.

(** [totalRequests] counts the calls of [acquire] made so far and
    [waitingRequests] those of them still in flight. *)
Definition Requests (p : Pool) : Prop :=
  totalRequests (metrics p) = Z.of_nat (length (calls p))
  /\ waitingRequests (metrics p) = countInFlight (calls p).

Lemma requests_frame p q :
  Requests p -> calls q = calls p ->
  totalRequests (metrics q) = totalRequests (metrics p) ->
  waitingRequests (metrics q) = waitingRequests (metrics p) ->
  Requests q.
Proof. unfold Requests. intros [H1 H2] -> -> ->. auto. Qed.

Lemma requests_call_same p call old st :
  Requests p -> get call (calls p) = Some old -> inFlight old = inFlight st ->
  Requests (withCall p call st).
Proof.
  intros [H1 H2] Hget Hsame. unfold Requests. cbn.
  rewrite length_set_present by congruence. split; [exact H1|].
  pose proof (countInFlight_set_present call st old (calls p) Hget) as Hc.
  rewrite Hsame in Hc. lia.
Qed.

Lemma requests_markInUse p id t : Requests p -> Requests (markInUse id t p).
Proof.
  intros H. apply (requests_frame p); [assumption|..];
    unfold markInUse; destruct (get id (connections p));
    first [reflexivity | cbn; lia].
Qed.

Lemma requests_destroyConnection p id : Requests p -> Requests (destroyConnection id p).
Proof.
  intros H. apply (requests_frame p); [assumption|..];
    unfold destroyConnection;
    destruct (get id (connections p)) as [c|]; try destruct (inUse c);
    first [reflexivity | cbn; lia].
Qed.

Lemma requests_serveWaitingRequest p : Requests p -> Requests (serveWaitingRequest p).
Proof.
  intros H. unfold serveWaitingRequest.
  destruct (waitingQueue p) as [|waiting rest]; [assumption|].
  destruct (getIdleConnection p) as [id|]; [|assumption].
  destruct (get waiting (calls (withQueue p rest))) as [[]|] eqn:Hw; try exact H.
  apply (requests_call_same (withQueue p rest) waiting Waiting); auto.
Qed.

Lemma requests_release p id t : Requests p -> Requests (release id t p).
Proof.
  intros H. unfold release. destruct (get id (connections p)); [|assumption].
  apply requests_serveWaitingRequest.
  apply (requests_frame p); first [assumption | reflexivity | cbn; lia].
Qed.

Lemma requests_fold_destroy ids : forall p,
  Requests p -> Requests (fold_left (fun q id => destroyConnection id q) ids p).
Proof.
  induction ids as [|id ids IH]; intros p H; [assumption|].
  cbn. apply IH. now apply requests_destroyConnection.
Qed.

Lemma requests_fold_reject queue : forall p,
  Requests p ->
  Requests (fold_left (fun q waiting =>
                         match get waiting (calls q) with
                         | Some Waiting => withCall q waiting Rejected
                         | _ => q
                         end) queue p).
Proof.
  induction queue as [|waiting queue IH]; intros p H; [assumption|].
  cbn. apply IH. destruct (get waiting (calls p)) as [[]|] eqn:Hw; try exact H.
  now apply (requests_call_same p waiting Waiting).
Qed.

Lemma requests_done p call old st :
  Requests p -> get call (calls p) = Some old ->
  inFlight old = true -> inFlight st = false ->
  Requests (withCall (withMetrics p (bump 0 0 0 0 0 (-1) (metrics p))) call st).
Proof.
  intros [H1 H2] Hget Hold Hst. unfold Requests. cbn.
  rewrite length_set_present by congruence.
  pose proof (countInFlight_set_present call st old (calls p) Hget) as Hc.
  rewrite Hold, Hst in Hc. lia.
Qed.

Lemma requests_step l p p' : Requests p -> step l p = Some p' -> Requests p'.
Proof.
  intros H. destruct l as [call t|call t|call|call t|id t|call|t|t|t| |]; cbn.
  - destruct (get call (calls p)) eqn:Hcall; [discriminate|].
    intros [= <-]. unfold acquireStart.
    set (p0 := withMetrics p (bump 0 0 0 0 1 1 (metrics p))).
    destruct H as [H1 H2].
    destruct (getIdleConnection p0) as [id|].
    + pose proof (countInFlight_set_fresh call (Holding id) (calls p) Hcall) as Hc.
      unfold Requests, markInUse. destruct (get id (connections p0)); cbn;
        rewrite length_set_fresh by assumption; cbn in Hc; lia.
    + destruct (size p0 <? maxConnections (config p0)).
      * pose proof (countInFlight_set_fresh call
                      (Creating (S (nextConnectionId p0))) (calls p) Hcall) as Hc.
        unfold Requests. cbn. rewrite length_set_fresh by assumption.
        cbn in Hc. lia.
      * pose proof (countInFlight_set_fresh call Waiting (calls p) Hcall) as Hc.
        unfold Requests. cbn. rewrite length_set_fresh by assumption.
        cbn in Hc. lia.
  - destruct (get call (calls p)) as [[id| | | | | | ]|] eqn:Hcall; try discriminate.
    intros [= <-].
    apply (requests_call_same (finishCreate id t p) call (Creating id)); auto.
    apply (requests_frame p); [assumption|reflexivity|..];
      unfold finishCreate; cbn;
      match goal with |- context [if ?b then _ else _] => destruct b end;
      cbn; lia.
  - destruct (get call (calls p)) as [[id| | | | | | ]|] eqn:Hcall; try discriminate.
    intros [= <-]. now apply (requests_call_same p call (Creating id)).
  - unfold acquireResume.
    destruct (get call (calls p)) as [[id|id| |id| |id| ]|] eqn:Hcall;
      try discriminate; intros [= <-].
    + apply (requests_done (markInUse id t p) call (Created id)); auto.
      * now apply requests_markInUse.
      * unfold markInUse. destruct (get id (connections p)); exact Hcall.
    + apply (requests_done (markInUse id t p) call (Resolved id)); auto.
      * now apply requests_markInUse.
      * unfold markInUse. destruct (get id (connections p)); exact Hcall.
    + now apply (requests_done p call Rejected).
  - destruct (existsb _ _); [|discriminate]. intros [= <-]. now apply requests_release.
  - destruct (get call (calls p)) as [[]|] eqn:Hcall; try discriminate.
    intros [= <-]. now apply (requests_call_same p call Waiting).
  - destruct (cleanupInterval p); [|discriminate]. intros [= <-].
    now apply requests_fold_destroy.
  - destruct (shutdownState p); try discriminate. now intros [= <-].
  - destruct (shutdownState p); try discriminate.
    destruct (_ && _); now intros [= <-].
  - destruct (shutdownState p); try discriminate. now intros [= <-].
  - destruct (shutdownState p) as [| | |[|id rest]|]; try discriminate;
      intros [= <-].
    + apply (requests_fold_reject (waitingQueue p) p H).
    + apply (requests_destroyConnection p id H).
Qed.

(** The state after the burst of two overlapping calls. *)
Lemma burst_exceeds_limit_reachable :
  exists p, run burst (create oneConnection) = Some p
            /\ reachable oneConnection p.
Proof.
  destruct (run burst (create oneConnection)) as [p|] eqn:Hrun;
    [|vm_compute in Hrun; discriminate].
  exists p. split; [reflexivity|].
  eapply run_reachable; [apply reach_create|exact Hrun].
Defined.

(** X3. In every reachable state [totalRequests] is the number of calls
    of [acquire] made so far, and [waitingRequests] is the number of them
    that have neither returned a connection nor thrown. *)
Theorem requests_are_accounted cfg p :
  reachable cfg p ->
  totalRequests (metrics p) = Z.of_nat (length (calls p))
  /\ waitingRequests (metrics p) = countInFlight (calls p).
Proof.
  intros Hreach. change (Requests p).
  induction Hreach as [|l p p' _ IH Hstep]; [split; reflexivity|].
  eapply requests_step; eauto.
Qed.

Lemma requests_are_accounted_witness :
  exists p,
    run burst (create oneConnection) = Some p
    /\ totalRequests (metrics p) = 2
    /\ waitingRequests (metrics p) = 2.
Proof.
  destruct burst_exceeds_limit_reachable as (p & Hrun & Hreach).
  exists p. split; [exact Hrun|].
  destruct (requests_are_accounted oneConnection p Hreach) as [H1 H2].
  rewrite H1, H2. vm_compute in Hrun. injection Hrun as <-. split; reflexivity.
Defined.

(** ** The idle reaper *)

(** The map holds one entry per connection id. *)
Definition Distinct (p : Pool) : Prop := NoDup (keys (connections p)).

Lemma distinct_frame p q :
  Distinct p -> connections q = connections p -> Distinct q.
Proof. unfold Distinct. now intros H ->. Qed.

Lemma distinct_markInUse p id t : Distinct p -> Distinct (markInUse id t p).
Proof.
  unfold Distinct, markInUse. intros H.
  destruct (get id (connections p)); cbn; [now apply NoDup_keys_set|assumption].
Qed.

Lemma distinct_destroyConnection p id :
  Distinct p -> Distinct (destroyConnection id p).
Proof.
  unfold Distinct, destroyConnection. intros H.
  destruct (get id (connections p)); cbn; [now apply NoDup_keys_delete|assumption].
Qed.

Lemma connections_serveWaitingRequest p :
  connections (serveWaitingRequest p) = connections p.
Proof.
  unfold serveWaitingRequest.
  destruct (waitingQueue p) as [|waiting rest]; [reflexivity|].
  destruct (getIdleConnection p) as [id|]; [|reflexivity].
  destruct (get waiting (calls (withQueue p rest))) as [[]|]; reflexivity.
Qed.

Lemma distinct_release p id t : Distinct p -> Distinct (release id t p).
Proof.
  unfold release. intros H. destruct (get id (connections p)); [|assumption].
  unfold Distinct. rewrite connections_serveWaitingRequest. cbn.
  now apply NoDup_keys_set.
Qed.

Lemma distinct_fold_destroy ids : forall p,
  Distinct p -> Distinct (fold_left (fun q id => destroyConnection id q) ids p).
Proof.
  induction ids as [|id ids IH]; intros p H; [assumption|].
  cbn. apply IH. now apply distinct_destroyConnection.
Qed.

Lemma connections_fold_reject queue : forall p,
  connections (fold_left (fun q waiting =>
                            match get waiting (calls q) with
                            | Some Waiting => withCall q waiting Rejected
                            | _ => q
                            end) queue p)
  = connections p.
Proof.
  induction queue as [|waiting queue IH]; intros p; [reflexivity|].
  cbn. rewrite IH. destruct (get waiting (calls p)) as [[]|]; reflexivity.
Qed.

Lemma distinct_step l p p' : Distinct p -> step l p = Some p' -> Distinct p'.
Proof.
  intros H. destruct l as [call t|call t|call|call t|id t|call|t|t|t| |]; cbn.
  - destruct (get call (calls p)); [discriminate|].
    intros [= <-]. unfold acquireStart.
    set (p0 := withMetrics p (bump 0 0 0 0 1 1 (metrics p))).
    destruct (getIdleConnection p0) as [id|].
    + apply (distinct_frame (markInUse id t p0)); [|reflexivity].
      now apply distinct_markInUse.
    + destruct (size p0 <? maxConnections (config p0)); exact H.
  - destruct (get call (calls p)) as [[id| | | | | | ]|]; try discriminate.
    intros [= <-]. unfold Distinct. cbn. now apply NoDup_keys_set.
  - destruct (get call (calls p)) as [[id| | | | | | ]|]; try discriminate.
    now intros [= <-].
  - unfold acquireResume.
    destruct (get call (calls p)) as [[id|id| |id| |id| ]|]; try discriminate;
      intros [= <-]; try exact H;
      (apply (distinct_frame (markInUse id t p)); [|reflexivity]);
      now apply distinct_markInUse.
  - destruct (existsb _ _); [|discriminate]. intros [= <-].
    now apply distinct_release.
  - destruct (get call (calls p)) as [[]|]; try discriminate. now intros [= <-].
  - destruct (cleanupInterval p); [|discriminate]. intros [= <-].
    now apply distinct_fold_destroy.
  - destruct (shutdownState p); try discriminate. now intros [= <-].
  - destruct (shutdownState p); try discriminate.
    destruct (_ && _); now intros [= <-].
  - destruct (shutdownState p); try discriminate. now intros [= <-].
  - destruct (shutdownState p) as [| | |[|id rest]|]; try discriminate;
      intros [= <-].
    + unfold Distinct, rejectWaiting. cbn. now rewrite connections_fold_reject.
    + apply (distinct_frame (destroyConnection id p)); [|reflexivity].
      now apply distinct_destroyConnection.
Qed.

Lemma distinct_reachable cfg p : reachable cfg p -> Distinct p.
Proof.
  induction 1 as [|l p p' _ IH Hstep]; [constructor|].
  eapply distinct_step; eauto.
Qed.

Lemma fold_delete_keys {V} (ks : list nat) :
  forall (m : list (nat * V)),
    NoDup (keys m) ->
    fold_left (fun m' k => delete k m') ks m
    = List.filter (fun e => negb (existsb (Nat.eqb (fst e)) ks)) m.
Proof.
  induction ks as [|k ks IH]; intros m Hnd; simpl.
  - symmetry. apply forallb_filter_id. now apply forallb_forall.
  - rewrite IH by now apply NoDup_keys_delete.
    rewrite delete_filter by assumption.
    rewrite ToolCallManagerFacts.filter_filter_and.
    apply filter_ext. intros [k0 v0]. simpl.
    destruct (Nat.eqb_spec k0 k) as [->|Hne].
    + now rewrite bool_decide_eq_true_2.
    + now rewrite bool_decide_eq_false_2.
Qed.

(** Destroying idle connections of the map, each once. *)
Lemma fold_destroy_idle ids : forall p,
  NoDup ids ->
  (forall id, In id ids ->
     exists c, get id (connections p) = Some c /\ inUse c = false) ->
  let q := fold_left (fun q id => destroyConnection id q) ids p in
  connections q = fold_left (fun m k => delete k m) ids (connections p)
  /\ totalDestroyed (metrics q)
     = totalDestroyed (metrics p) + Z.of_nat (length ids)
  /\ idleConnections (metrics q)
     = idleConnections (metrics p) - Z.of_nat (length ids)
  /\ activeConnections (metrics q) = activeConnections (metrics p)
  /\ waitingQueue q = waitingQueue p
  /\ calls q = calls p.
Proof.
  induction ids as [|id ids IH]; intros p Hnd Hidle.
  - cbn. repeat split; lia.
  - inversion Hnd as [|? ? Hnotin Hnd']; subst.
    destruct (Hidle id (or_introl eq_refl)) as (c & Hget & Hc).
    cbn [fold_left].
    assert (Hd : destroyConnection id p
                 = withMetrics (withConnections p (delete id (connections p)))
                     (bump 0 1 0 (-1) 0 0 (metrics p))).
    { unfold destroyConnection. rewrite Hget, Hc. reflexivity. }
    specialize (IH (destroyConnection id p) Hnd').
    rewrite Hd in IH |- *. cbn in IH.
    destruct IH as (H1 & H2 & H3 & H4 & H5 & H6).
    { intros id' Hin. destruct (Hidle id' (or_intror Hin)) as (c' & Hget' & Hc').
      exists c'. split; [|assumption].
      rewrite get_delete_ne; [assumption|].
      intros ->. apply Hnotin, list_elem_of_In, Hin. }
    cbn. rewrite H1, H2, H3, H4, H5, H6.
    repeat split; lia.
Qed.

(** An entry the reaper takes at time [t]: not in use, and idle for more
    than [maxIdleTime]. *)
Definition expired (p : Pool) (t : Z) (e : nat * PooledConnection) : bool :=
  negb (inUse (snd e)) && (maxIdleTime (config p) <? t - lastUsedAt (snd e)).

(** X4. A pass of the idle reaper at time [t] removes exactly the
    connections that are not in use and were last used more than
    [maxIdleTime] before [t], keeping the others in their order; it counts
    each removed one in [totalDestroyed], leaves [activeConnections]
    alone, and touches neither the waiting queue nor any call. *)
Theorem cleanupIdleConnections_removes_expired cfg p t :
  reachable cfg p ->
  let q := cleanupIdleConnections t p in
  connections q = List.filter (fun e => negb (expired p t e)) (connections p)
  /\ totalDestroyed (metrics q)
     = totalDestroyed (metrics p) + (size p - size q)
  /\ idleConnections (metrics q)
     = idleConnections (metrics p) - (size p - size q)
  /\ activeConnections (metrics q) = activeConnections (metrics p)
  /\ waitingQueue q = waitingQueue p
  /\ calls q = calls p.
Proof.
  intros Hreach q.
  pose proof (distinct_reachable cfg p Hreach) as Hnd. unfold Distinct in Hnd.
  set (ids := List.map fst (List.filter (expired p t) (connections p))).
  assert (Hids : NoDup ids)
    by (apply ToolCallManagerFacts.NoDup_map_filter; exact Hnd).
  assert (Hidle : forall id, In id ids ->
            exists c, get id (connections p) = Some c /\ inUse c = false).
  { intros id Hin. apply in_map_iff in Hin as ([k c] & <- & Hin).
    apply filter_In in Hin as [Hin Hexp]. exists c. split.
    - now apply In_get.
    - unfold expired in Hexp. cbn in *. destruct (inUse c); [discriminate|reflexivity]. }
  destruct (fold_destroy_idle ids p Hids Hidle) as (H1 & H2 & H3 & H4 & H5 & H6).
  fold ids in H1, H2, H3, H4, H5, H6.
  change (fold_left (fun q id => destroyConnection id q) ids p) with q
    in H1, H2, H3, H4, H5, H6.
  assert (Hconn : connections q
                  = List.filter (fun e => negb (expired p t e)) (connections p)).
  { rewrite H1, fold_delete_keys by exact Hnd.
    apply filter_ext_in. intros [k c] Hin. f_equal. cbn [fst].
    destruct (expired p t (k, c)) eqn:Hexp.
    - apply existsb_exists. exists k. split; [|apply Nat.eqb_refl].
      apply in_map_iff. exists (k, c). split; [reflexivity|].
      apply filter_In. split; assumption.
    - destruct (existsb (Nat.eqb k) ids) eqn:Hex; [|reflexivity].
      apply existsb_exists in Hex as (k' & Hin' & Heq).
      apply Nat.eqb_eq in Heq. subst k'.
      apply in_map_iff in Hin' as ([k' c'] & Hk & Hin').
      apply filter_In in Hin' as [Hin' Hexp']. cbn in Hk. subst k'.
      apply (In_get _ _ _ Hnd) in Hin. apply (In_get _ _ _ Hnd) in Hin'.
      assert (c' = c) by congruence. subst c'. congruence. }
  assert (Hlen : size p - size q = Z.of_nat (length ids)).
  { unfold size. rewrite Hconn. unfold ids. rewrite length_map.
    clear. induction (connections p) as [|e m IH]; cbn; [reflexivity|].
    destruct (expired p t e); cbn; lia. }
  rewrite Hlen. repeat split; assumption.
Qed.

(** A pool whose only connection was released at time 5. *)
Lemma cleanupIdleConnections_removes_expired_witness :
  exists p,
    run usedOnce (create oneConnection) = Some p
    /\ connections (cleanupIdleConnections (5 + maxIdleTime oneConnection) p)
       = connections p
    /\ connections (cleanupIdleConnections (6 + maxIdleTime oneConnection) p) = [].
Proof.
  destruct usedOnce_reachable as (p & Hrun & Hreach).
  exists p. split; [exact Hrun|].
  pose proof (cleanupIdleConnections_removes_expired
                oneConnection p (5 + maxIdleTime oneConnection) Hreach) as H1.
  pose proof (cleanupIdleConnections_removes_expired
                oneConnection p (6 + maxIdleTime oneConnection) Hreach) as H2.
  cbv zeta in H1, H2. destruct H1 as [H1 _]. destruct H2 as [H2 _].
  rewrite H1, H2. vm_compute in Hrun. injection Hrun as <-.
  split; reflexivity.
Defined.

(** ** Handing a released connection to a waiter *)

Lemma find_set_idle id c (m : list (nat * PooledConnection)) :
  List.find (fun e => negb (inUse (snd e))) m = None ->
  get id m <> None -> inUse c = false ->
  List.find (fun e => negb (inUse (snd e))) (set id c m) = Some (id, c).
Proof.
  induction m as [|[k v] m IH]; cbn; [congruence|].
  destruct (inUse v) eqn:Hv; cbn; [|discriminate].
  intros Hfind Hget Hc. destruct (decide (id = k)) as [->|Hne]; cbn.
  - now rewrite Hc.
  - rewrite Hv. cbn. now apply IH.
Qed.

(** A call holds connection [id]. *)
Definition heldBy (p : Pool) (id : nat) : Prop :=
  exists call, get call (calls p) = Some (Holding id).

Lemma heldBy_enabled p id :
  heldBy p id ->
  existsb (fun e => match snd e with
                    | Holding id' => Nat.eqb id id'
                    | _ => false
                    end) (calls p) = true.
Proof.
  intros [call Hcall]. apply existsb_exists. exists (call, Holding id).
  split; [now apply get_Some_In|]. cbn. apply Nat.eqb_refl.
Qed.

(** [release] when every other connection is in use. *)
Lemma release_exhausted p id c t :
  getIdleConnection p = None -> get id (connections p) = Some c ->
  let c' := {| createdAt := createdAt c; lastUsedAt := t; inUse := false;
               requestCount := requestCount c + 1 |} in
  let p2 := withMetrics (withConnections p (set id c' (connections p)))
              (bump 0 0 (-1) 1 0 0 (metrics p)) in
  release id t p = serveWaitingRequest p2 /\ getIdleConnection p2 = Some id.
Proof.
  intros Hidle Hget c' p2. split.
  - unfold release. now rewrite Hget.
  - unfold getIdleConnection in *. cbn.
    destruct (List.find _ (connections p)) eqn:Hfind; [discriminate|].
    rewrite (find_set_idle id c' (connections p) Hfind); [reflexivity| |reflexivity].
    congruence.
Qed.

(** X5. When the pool has no idle connection and callers are queued,
    releasing a connection hands that very connection to the caller at the
    head of the queue: once that caller resumes it holds the connection,
    which is marked in use again with one more request counted, and the
    rest of the queue keeps waiting in order. *)
Theorem release_serves_longest_waiter p id c t waiting rest t' :
  getIdleConnection p = None ->
  get id (connections p) = Some c ->
  heldBy p id ->
  waitingQueue p = waiting :: rest ->
  get waiting (calls p) = Some Waiting ->
  exists p',
    run [Release id t; Resume waiting t'] p = Some p'
    /\ get waiting (calls p') = Some (Holding id)
    /\ get id (connections p')
       = Some {| createdAt := createdAt c; lastUsedAt := t'; inUse := true;
                 requestCount := requestCount c + 1 |}
    /\ waitingQueue p' = rest
    /\ getIdleConnection p' = None
    /\ (forall other, other <> waiting ->
          get other (calls p') = get other (calls p)).
Proof.
  intros Hidle Hget Hheld Hqueue Hwaiting.
  destruct (release_exhausted p id c t Hidle Hget) as [Hrel Hidle2].
  cbv zeta in Hrel, Hidle2.
  cbn [run step]. rewrite (heldBy_enabled p id Hheld), Hrel.
  unfold serveWaitingRequest. cbn [waitingQueue withMetrics withConnections].
  rewrite Hqueue, Hidle2. cbn [calls withQueue withMetrics withConnections].
  rewrite Hwaiting.
  unfold acquireResume. cbn [calls withCall]. rewrite get_set_eq.
  eexists. split; [reflexivity|].
  unfold markInUse. cbn [connections withCall withQueue withMetrics withConnections].
  rewrite get_set_eq. cbn.
  rewrite !get_set_eq. split; [reflexivity|]. split; [reflexivity|].
  split; [reflexivity|]. split.
  - unfold getIdleConnection in *. cbn.
    destruct (List.find _ (connections p)) eqn:Hfind; [discriminate|].
    clear - Hfind Hget. revert Hfind Hget.
    induction (connections p) as [|[k v] m IH]; cbn; [discriminate|].
    destruct (inUse v) eqn:Hv; cbn; [|discriminate].
    intros Hfind. destruct (decide (id = k)) as [->|Hne]; cbn.
    + destruct (decide (k = k)); [|contradiction]. cbn. now rewrite Hfind.
    + destruct (decide (id = k)); [contradiction|]. cbn. rewrite Hv. cbn.
      intros Hg. specialize (IH Hfind Hg).
      destruct (List.find _ (set id _ (set id _ m))); [discriminate|reflexivity].
  - intros other Hne. rewrite !get_set_ne by congruence. reflexivity.
Qed.

(** One connection, held by call 0, with calls 1 and 2 queued for it. *)
Definition exhausted : list Label :=
  [Acquire 0 0; FactoryResolves 0 1; Resume 0 1; Acquire 1 2; Acquire 2 3].

Lemma exhausted_reachable :
  exists p, run exhausted (create oneConnection) = Some p
            /\ reachable oneConnection p.
Proof.
  destruct (run exhausted (create oneConnection)) as [p|] eqn:Hrun;
    [|vm_compute in Hrun; discriminate].
  exists p. split; [reflexivity|].
  eapply run_reachable; [apply reach_create|exact Hrun].
Defined.

Lemma release_serves_longest_waiter_witness :
  exists p p',
    run exhausted (create oneConnection) = Some p
    /\ run [Release 1 10; Resume 1 11] p = Some p'
    /\ get 1%nat (calls p') = Some (Holding 1)
    /\ waitingQueue p' = [2%nat].
Proof.
  destruct exhausted_reachable as (p & Hrun & _).
  pose proof Hrun as Hp. vm_compute in Hp. injection Hp as Hp.
  destruct (release_serves_longest_waiter p 1%nat
              {| createdAt := 1; lastUsedAt := 1; inUse := true;
                 requestCount := 0 |} 10 1%nat [2%nat] 11)
    as (p' & Hrun' & Hcall & _ & Hqueue & _).
  - rewrite <- Hp. reflexivity.
  - rewrite <- Hp. reflexivity.
  - exists 0%nat. rewrite <- Hp. reflexivity.
  - rewrite <- Hp. reflexivity.
  - rewrite <- Hp. reflexivity.
  - exists p, p'. repeat split; assumption.
Defined.

(** X6. A waiter whose timeout fires is rejected but never taken out of
    the queue ([findIndex] looks for the bare [resolve] among wrapped
    ones). When the connection is released afterwards, the stale entry at
    the head is the one shifted: the connection stays idle in the pool
    while the caller queued behind keeps waiting. *)
Theorem timed_out_waiter_swallows_release p id c stale next rest t t' :
  getIdleConnection p = None ->
  get id (connections p) = Some c ->
  heldBy p id ->
  waitingQueue p = stale :: next :: rest ->
  get stale (calls p) = Some Waiting ->
  get next (calls p) = Some Waiting ->
  stale <> next ->
  exists p1 p',
    run [Timeout stale; Resume stale t] p = Some p1
    /\ get stale (calls p1) = Some Failed
    /\ waitingQueue p1 = stale :: next :: rest
    /\ run [Release id t'] p1 = Some p'
    /\ getIdleConnection p' = Some id
    /\ get next (calls p') = Some Waiting
    /\ waitingQueue p' = next :: rest.
Proof.
  intros Hidle Hget Hheld Hqueue Hstale Hnext Hne.
  set (p1 := withCall (withMetrics (withCall p stale Rejected)
                         (bump 0 0 0 0 0 (-1) (metrics p))) stale Failed).
  assert (Hrun1 : run [Timeout stale; Resume stale t] p = Some p1).
  { cbn [run step]. rewrite Hstale.
    unfold acquireResume. cbn [calls withCall]. now rewrite get_set_eq. }
  assert (Hs : get stale (calls p1) = Some Failed)
    by (unfold p1; cbn; apply get_set_eq).
  assert (Hheld1 : heldBy p1 id).
  { destruct Hheld as [call Hcall]. exists call. unfold p1. cbn.
    rewrite !get_set_ne; [assumption|intros ->; congruence|intros ->; congruence]. }
  destruct (release_exhausted p1 id c t' Hidle Hget) as [Hrel Hidle2].
  cbv zeta in Hrel, Hidle2.
  exists p1. eexists. split; [exact Hrun1|]. split; [exact Hs|].
  split; [exact Hqueue|].
  cbn [run step]. rewrite (heldBy_enabled p1 id Hheld1), Hrel.
  unfold serveWaitingRequest. cbn [waitingQueue withMetrics withConnections].
  change (waitingQueue p1) with (waitingQueue p). rewrite Hqueue, Hidle2.
  cbn [calls withQueue withMetrics withConnections].
  rewrite Hs. split; [reflexivity|]. split; [exact Hidle2|].
  split; [|reflexivity].
  unfold p1. cbn. rewrite !get_set_ne by congruence. exact Hnext.
Qed.

Lemma timed_out_waiter_swallows_release_witness :
  exists p p1 p',
    run exhausted (create oneConnection) = Some p
    /\ run [Timeout 1; Resume 1 5003] p = Some p1
    /\ run [Release 1 5010] p1 = Some p'
    /\ getIdleConnection p' = Some 1%nat
    /\ get 2%nat (calls p') = Some Waiting.
Proof.
  destruct exhausted_reachable as (p & Hrun & _).
  pose proof Hrun as Hp. vm_compute in Hp. injection Hp as Hp.
  destruct (timed_out_waiter_swallows_release p 1%nat
              {| createdAt := 1; lastUsedAt := 1; inUse := true;
                 requestCount := 0 |} 1%nat 2%nat [] 5003 5010)
    as (p1 & p' & Hrun1 & _ & _ & Hrun' & Hidle & Hnext & _).
  - rewrite <- Hp. reflexivity.
  - rewrite <- Hp. reflexivity.
  - exists 0%nat. rewrite <- Hp. reflexivity.
  - rewrite <- Hp. reflexivity.
  - rewrite <- Hp. reflexivity.
  - rewrite <- Hp. reflexivity.
  - discriminate.
  - exists p, p1, p'. repeat split; assumption.
Defined.

(** ** Shutdown *)

Lemma delete_absent {V} (k : nat) (m : list (nat * V)) :
  get k m = None -> delete k m = m.
Proof.
  induction m as [|[k' v] m IH]; cbn; [reflexivity|].
  destruct (decide (k = k')); [discriminate|]. intros H. now rewrite IH.
Qed.

(** The loop of [shutdown] over the snapshot of the keys, run without
    anything else in between. *)
Lemma shutdown_destroys ids : forall p,
  shutdownState p = Destroying ids ->
  exists q,
    run (repeat ShutdownNext (length ids)) p = Some q
    /\ shutdownState q = Destroying []
    /\ connections q = fold_left (fun m k => delete k m) ids (connections p)
    /\ waitingQueue q = waitingQueue p
    /\ calls q = calls p
    /\ cleanupInterval q = cleanupInterval p.
Proof.
  induction ids as [|id ids IH]; intros p Hst.
  - exists p. cbn. repeat split; auto.
  - cbn [length repeat run step]. rewrite Hst.
    destruct (IH (withShutdown (destroyConnection id p) (cleanupInterval p)
                    (Destroying ids)) eq_refl)
      as (q & Hrun & H1 & H2 & H3 & H4 & H5).
    exists q. split; [exact Hrun|]. split; [exact H1|].
    cbn in H2, H3, H4, H5. rewrite H2, H3, H4, H5. cbn [fold_left].
    unfold destroyConnection.
    destruct (get id (connections p)) as [c|] eqn:Hget.
    + destruct (inUse c); cbn; auto.
    + rewrite (delete_absent id (connections p) Hget). auto.
Qed.

Lemma fold_delete_all {V} (m : list (nat * V)) :
  NoDup (keys m) -> fold_left (fun m' k => delete k m') (keys m) m = [].
Proof.
  intros Hnd. rewrite fold_delete_keys by exact Hnd.
  apply ToolCallManagerFacts.filter_none. intros [k v] Hin. cbn.
  apply negb_false_iff, existsb_exists. exists k. split; [|apply Nat.eqb_refl].
  apply in_map_iff. now exists (k, v).
Qed.

Lemma calls_fold_reject queue : forall p call,
  In call queue -> get call (calls p) = Some Waiting ->
  get call (calls (fold_left (fun q waiting =>
                                match get waiting (calls q) with
                                | Some Waiting => withCall q waiting Rejected
                                | _ => q
                                end) queue p))
  = Some Rejected.
Proof.
  induction queue as [|waiting queue IH]; intros p call; [contradiction|].
  intros Hin Hcall. cbn [fold_left].
  destruct (decide (call = waiting)) as [->|Hne].
  - rewrite Hcall.
    assert (Hr : get waiting (calls (withCall p waiting Rejected)) = Some Rejected)
      by (cbn; apply get_set_eq).
    revert Hr. generalize (withCall p waiting Rejected). clear.
    induction queue as [|w queue IH]; intros p Hr; [exact Hr|].
    cbn [fold_left]. apply IH.
    destruct (get w (calls p)) as [[]|] eqn:Hw; try exact Hr.
    cbn. destruct (decide (waiting = w)) as [->|Hne]; [congruence|].
    now rewrite get_set_ne by congruence.
  - destruct Hin as [Heq|Hin]; [congruence|].
    apply IH; [assumption|].
    destruct (get waiting (calls p)) as [[]|]; try exact Hcall.
    cbn. now rewrite get_set_ne by congruence.
Qed.

(** X7. Once [drain] has returned, the rest of [shutdown], run without
    another call in between, destroys every connection of the pool and then
    rejects every caller still queued: the map and the queue end up empty,
    the two gauges sum to zero and as many connections were destroyed as
    were ever created. *)
Theorem shutdown_empties_pool cfg p :
  reachable cfg p ->
  shutdownState p = Drained ->
  exists q,
    run (ShutdownSnapshot
           :: repeat ShutdownNext (S (length (connections p)))) p = Some q
    /\ shutdownState q = Done
    /\ connections q = []
    /\ waitingQueue q = []
    /\ cleanupInterval q = false
    /\ activeConnections (metrics q) + idleConnections (metrics q) = 0
    /\ totalDestroyed (metrics q) = totalCreated (metrics q)
    /\ (forall call, In call (waitingQueue p) ->
          get call (calls p) = Some Waiting ->
          get call (calls q) = Some Rejected).
Proof.
  intros Hreach Hst.
  pose proof (distinct_reachable cfg p Hreach) as Hnd. unfold Distinct in Hnd.
  set (p0 := withShutdown p (cleanupInterval p) (Destroying (keys (connections p)))).
  destruct (shutdown_destroys (keys (connections p)) p0 eq_refl)
    as (q1 & Hrun1 & Hst1 & Hconn1 & Hqueue1 & Hcalls1 & Hint1).
  cbn in Hconn1, Hqueue1, Hcalls1, Hint1.
  rewrite fold_delete_all in Hconn1 by exact Hnd.
  set (q := withShutdown (rejectWaiting q1) (cleanupInterval q1) Done).
  assert (Hrun : run (ShutdownSnapshot
                        :: repeat ShutdownNext (S (length (connections p)))) p
                 = Some q).
  { cbn [run step]. rewrite Hst. fold p0.
    replace (S (length (connections p)))
      with (length (keys (connections p)) + 1)%nat
      by (unfold keys; rewrite length_map; lia).
    rewrite repeat_app.
    assert (Happ : forall ls1 ls2 a b,
               run ls1 a = Some b -> run (ls1 ++ ls2)%list a = run ls2 b).
    { clear. induction ls1 as [|l ls1 IH]; intros ls2 a b; cbn.
      - now intros [= ->].
      - destruct (step l a); [apply IH|discriminate]. }
    rewrite (Happ _ _ _ _ Hrun1). cbn [repeat run step]. now rewrite Hst1. }
  assert (Hreachq : reachable cfg q)
    by (eapply run_reachable; [exact Hreach|exact Hrun]).
  assert (Hconn : connections q = []).
  { unfold q, rejectWaiting. cbn. now rewrite connections_fold_reject. }
  assert (Hinterval : cleanupInterval p = false).
  { clear - Hreach Hst.
    assert (H : shutdownState p = NotStarted \/ cleanupInterval p = false).
    { clear Hst. induction Hreach as [|l p p' _ IH Hstep]; [now left|].
      assert (Hcf : forall ids a,
        shutdownState (fold_left (fun q id => destroyConnection id q) ids a)
        = shutdownState a
        /\ cleanupInterval (fold_left (fun q id => destroyConnection id q) ids a)
           = cleanupInterval a).
      { clear. induction ids as [|id ids IHi]; intros a; [split; reflexivity|].
        cbn [fold_left]. destruct (IHi (destroyConnection id a)) as [-> ->].
        unfold destroyConnection.
        destruct (get id (connections a)) as [c|]; [destruct (inUse c)|];
          split; reflexivity. }
      destruct l as [call t|call t|call|call t|id t|call|t|t|t| |]; cbn in Hstep.
      - destruct (get call (calls p)); [discriminate|].
        injection Hstep as <-. unfold acquireStart, markInUse.
        cbn [getIdleConnection].
        destruct (getIdleConnection _) as [id|];
          [destruct (get id _)|destruct (_ <? _)]; exact IH.
      - destruct (get call (calls p)) as [[]|]; try discriminate.
        injection Hstep as <-. exact IH.
      - destruct (get call (calls p)) as [[]|]; try discriminate.
        injection Hstep as <-. exact IH.
      - unfold acquireResume, markInUse in Hstep.
        destruct (get call (calls p)) as [[id|id| |id| |id| ]|]; try discriminate;
          injection Hstep as <-; try exact IH;
          destruct (get id (connections p)); exact IH.
      - destruct (existsb _ _); [|discriminate]. injection Hstep as <-.
        unfold release. destruct (get id (connections p)); [|exact IH].
        unfold serveWaitingRequest. cbn [waitingQueue withMetrics withConnections].
        destruct (waitingQueue p); [exact IH|].
        destruct (getIdleConnection _); [|exact IH].
        cbn [calls withQueue withMetrics withConnections].
        destruct (get _ (calls p)) as [[]|]; exact IH.
      - destruct (get call (calls p)) as [[]|]; try discriminate.
        injection Hstep as <-. exact IH.
      - destruct (cleanupInterval p) eqn:Hci; [|discriminate].
        injection Hstep as <-. unfold cleanupIdleConnections.
        destruct (Hcf (List.map fst
                         (List.filter (fun e => negb (inUse (snd e))
                            && (maxIdleTime (config p) <? t - lastUsedAt (snd e)))
                            (connections p))) p) as [-> ->].
        rewrite Hci. exact IH.
      - destruct (shutdownState p); try discriminate.
        injection Hstep as <-. now right.
      - destruct (shutdownState p); try discriminate.
        destruct IH as [IH|IH]; [discriminate|].
        destruct (_ && _); injection Hstep as <-; right; exact IH.
      - destruct (shutdownState p); try discriminate.
        destruct IH as [IH|IH]; [discriminate|].
        injection Hstep as <-. right. exact IH.
      - destruct (shutdownState p) as [| | |[|id rest]|]; try discriminate;
          (destruct IH as [IH|IH]; [discriminate|]);
          injection Hstep as <-; right; exact IH. }
    destruct H as [H|H]; [congruence|exact H]. }
  exists q. split; [exact Hrun|]. split; [reflexivity|]. split; [exact Hconn|].
  split; [reflexivity|]. split; [unfold q; cbn; congruence|].
  split; [|split].
  - destruct (gauges_reachable cfg q Hreachq) as [Hg _].
    rewrite Hg. unfold size. now rewrite Hconn.
  - pose proof (inv_reachable cfg q Hreachq) as [Hi _].
    unfold size in Hi. rewrite Hconn in Hi.
    change (Z.of_nat (length (@nil (nat * PooledConnection)))) with 0 in Hi. lia.
  - intros call Hin Hcall. unfold q, rejectWaiting. cbn.
    rewrite Hqueue1. apply calls_fold_reject; [exact Hin|].
    now rewrite Hcalls1.
Qed.

(** One connection in use by call 0, calls 1 and 2 queued, and [shutdown]
    past its [drain] after the thirty seconds. *)
Definition drainedBusy : list Label :=
  (exhausted ++ [ShutdownStart 10; DrainTick 30010])%list.

Lemma drainedBusy_reachable :
  exists p, run drainedBusy (create oneConnection) = Some p
            /\ reachable oneConnection p.
Proof.
  destruct (run drainedBusy (create oneConnection)) as [p|] eqn:Hrun;
    [|vm_compute in Hrun; discriminate].
  exists p. split; [reflexivity|].
  eapply run_reachable; [apply reach_create|exact Hrun].
Defined.

Lemma shutdown_empties_pool_witness :
  exists p q,
    run drainedBusy (create oneConnection) = Some p
    /\ run [ShutdownSnapshot; ShutdownNext; ShutdownNext] p = Some q
    /\ connections q = []
    /\ get 1%nat (calls q) = Some Rejected.
Proof.
  destruct drainedBusy_reachable as (p & Hrun & Hreach).
  pose proof Hrun as Hp. vm_compute in Hp. injection Hp as Hp.
  destruct (shutdown_empties_pool oneConnection p Hreach)
    as (q & Hrunq & _ & Hconn & _ & _ & _ & _ & Hrej).
  - rewrite <- Hp. reflexivity.
  - exists p, q. split; [exact Hrun|]. split.
    + rewrite <- Hrunq. rewrite <- Hp. reflexivity.
    + split; [exact Hconn|]. apply Hrej; rewrite <- Hp; [cbn; auto|reflexivity].
Defined.

End ConnectionPoolFacts.
